(* ===== verification/_CoqProject ===== *)
-Q . S2P
Prelude.v
Binary64.v
Rounding.v
Exact.v
Valid.v
Error.v
Accuracy.v
Float64.v
Calculator.v
Bound.v
Observe.v
Greet.v
Utf8.v
Tests.v
Main.v
Display.v
Readback.v
Exec.v
Methods.v
Program.v
Client.v
Diagnostics.v
Output.v
