(* ===== verification/Prelude.v ===== *)
(** * Verification of the [rust-project] example crate

    The repository's Rust code is the example crate under
    [src/examples/rust-project/src/]: [lib.rs] (the [Calculator] struct with
    its chained [add] and [subtract] methods, the [greet] function and two
    unit tests), [main.rs] (a [main] that drives both and prints two lines)
    and [errors.rs] (five functions that are wrong on purpose, the input of
    a diagnostics tool).  The specification adds two things the code does
    not have as such: sequences of operations as data, and a classifier of
    diagnostics over parsed fragments.

    ** How the parts interact

    [Calculator] computes in [f64].  The calculator's definitions are
    written once against the class [Float64] (the five operations of [f64]
    the crate uses) and proved against the class [Float64Correct] (each
    operation denotes, through [to_spec], the operation of the IEEE model).
    The model itself and the kernel's primitive floats are the two
    instances; the second is the processor's binary64, on which the Rust
    code runs.  The tests and [main] call the calculator and [greet];
    [errors.rs] stands apart and is only read by the classifier.

    The code is read twice.  The functional reading ([Calculator],
    [Tests], [Main]) takes a method on [&mut self] for a function on the
    value of the struct, and carries the theorems on the arithmetic.  The
    reading on the machine ([Exec], [Methods], [Program], [Client]) has
    what the first abstracts from: local variables in slots, references as
    locations, in-place update, panics that unwind, standard output.  The
    theorems of [Methods] and [Program] prove that the second refines the
    first, so every theorem of the functional reading holds of the code as
    it runs.

    ** Files, in dependency order

    - [Prelude]: this file.  The tactics [break_match], [inv], [boolZ]; the
      hint databases [pow2] and [b64]; the lemmas on powers of two and on
      shifting a [positive] that the floating-point files share.
    - [Binary64]: the binary64 format as the Standard Library's [SpecFloat]
      at precision 53 and maximal exponent 1024.  [b64] is the datum;
      [b64_zero], [b64_add], [b64_sub], [b64_eqb], [b64_of_Z] are [0.0],
      [+=], [-=], [==] and an integer-valued literal such as [5.0].  Lemmas:
      NaN, infinities and signed zeros under each operation, commutativity
      of addition, subtraction as addition of the opposite, and what [==]
      decides.
    - [Rounding]: the rounding of [SpecFloat] split in two steps, [align]
      (bring the mantissa to the exponent of the format) and
      [round_finish] (round to nearest even and check for overflow).
      Lemmas: rounding depends on the value only, not on how mantissa and
      exponent share it ([binary_round_shl]); a mantissa that fits is kept
      as it is ([binary_round_fits]).
    - [Exact]: integers as binary64 data.  [scaled] relates a mantissa and
      an exponent to the integer they stand for, [b64_to_Z] reads an
      integer back, [exact] says that the conversion of an integer loses
      nothing.  Lemmas: on exact integers whose sum (difference) is exact,
      [b64_add] ([b64_sub]) is integer addition (subtraction)
      ([b64_add_of_Z], [b64_sub_of_Z]); every integer of magnitude at most
      [2^53] is exact ([exact_small]); [==] on exact integers is equality.
    - [Valid]: the invariant of the format.  [canonical] and [rounded]
      say what a rounded result looks like.  Lemmas: whatever goes into
      [binary_round], a valid datum comes out ([binary_round_valid]), so
      [b64_add] and [b64_sub] keep validity; a sum or difference is NaN
      only when an operand is or two infinities cancel
      ([b64_add_nan_iff], [b64_sub_nan_iff]).
    - [Error]: the error of rounding, on integers.  [dropped] describes
      the bits a right shift drops; rounding them to nearest even is off
      by at most half a unit of the last place
      ([round_nearest_even_error]), so a mantissa with too many bits
      comes back within relative error [2^-53] ([binary_round_close]).
    - [Accuracy]: the same on rational numbers.  [b64_to_Q] is the number
      a datum stands for; [b64_add_accurate] and [b64_sub_accurate] are
      the standard model of floating-point arithmetic for [+] and [-];
      [b64_add_no_overflow] and [b64_sub_no_overflow] say when the result
      is finite.
    - [Float64]: the classes [Float64] and [Float64Correct] and their two
      instances.  The laws of the primitive floats are the Standard
      Library's [FloatAxioms]; an integer literal is converted through the
      63-bit unsigned conversion, hence the bound [lit_bound] = [2^63] on
      literals.
    - [Calculator]: [lib.rs], lines 1-28.  The struct is the record
      [Calculator]; [new], [add], [subtract], [get_value] are the methods.
      A method taking [&mut self] and returning [&mut Self] is a function
      from the struct before the call to the struct after it, which is
      what the unique borrow denotes; a chain [calc.add(a).subtract(b)] is
      [subtract (add calc a) b].  [Operation], [apply_op] and [run] are the
      operation sequences of the specification, applied through the
      methods; [run_exact] and [net] are the calculator on integers;
      [wf] is the invariant of the struct; [concrete] takes a state of the
      model to the state on primitive floats.
    - [Bound]: the distance between the calculator and the exact sum.
      [value_of] is the rational number a calculator holds, [exact_sum]
      the algebraic sum of a sequence, [abs_sum] the sum of the
      magnitudes, [finite_run] the absence of overflow.
    - [Observe]: calculators up to the sign of a zero, the equivalence
      that [==] induces ([calc_equiv]), with the [Proper] instances of the
      methods.
    - [Greet]: [lib.rs], lines 30-33.  A [String] is a list of bytes.
      [format!] is a compile-time reading of the format string into
      literal pieces ([parse_template]) and a run-time writing of pieces
      and arguments ([write]); [greet] is [write] on the pieces of
      ["Hello, {}!"].  [ungreet] strips prefix and suffix again.
    - [Utf8]: the invariant of Rust strings, well-formed UTF-8, as the
      boolean [utf8_valid].
    - [Tests]: [lib.rs], lines 35-50.  A test is a value of [outcome]
      ([Pass] or [Panic]); [assert_eq] is the macro; [test_calculator] and
      [test_greet] are the two tests, [calculator_case] the first with its
      numbers as parameters.
    - [Main]: [main.rs].  Standard output is the list of bytes written so
      far; [println] appends a formatted line; [main] is the sequence of
      the statements of [fn main] over that state, with the [Display] of
      [f64] as a parameter.
    - [Display]: what [{}] does on the [f64] of [main.rs], line 10, after
      the standard library's [core::num::flt2dec]: [decode] (a datum as a
      number and the interval of reals that round to it),
      [format_shortest] (the shortest digits in the interval, by the
      [dragon] strategy on integers of any size: [scaling] finds the
      decimal exponent, [generate] the digits, [round_up] the successor),
      [digits_to_dec_str] (the decimal point), [display_f64] (the sign and
      the special data).
    - [Readback]: what the text means.  [written] is the number that
      digits denote at an exponent, [read_decimal] a reader of positional
      decimals (a specification, not code of the crate), [half_gap_below]
      half the distance from a datum to the one below it, [magnitude] the
      absolute value of a datum.
    - [Exec]: the machine.  [state] is the list of slots of the live local
      variables and the bytes on standard output; [exec A] is a state and
      error monad, a function from the state to an [answer] ([Returned],
      [Panicked], or [Dangling] for a reference to no slot); [alloc],
      [load], [store], [emit], [panic] and [scope] are its operations;
      [wp] is the weakest precondition for total correctness.  Uses
      stdpp (list lookup and insert, monad notation).
    - [Methods]: [lib.rs], lines 12-27, as written: [Calculator_add],
      [Calculator_subtract] and [Calculator_get_value] take a reference,
      load, store and return the reference; [chain] is a chained call;
      [add_owned] and [subtract_owned] are the value-returning methods the
      design notes of the specification propose.
    - [Program]: [tests_test_calculator], [tests_test_greet] and [main_fn],
      the bodies of the tests and of [main] statement by statement, each a
      [scope]; [tests_module] is [mod tests]; [check_eq] is [assert_eq!]
      with its panic, [put_line] is [println!].
    - [Client]: any program that uses the calculators, as a trace of
      [call]s; [step] is the transition relation of a call, [steps] its
      runs, [perform] the call through the methods; [well_scoped] is the
      check that every call goes through a reference declared before it.
    - [Diagnostics]: [errors.rs] as data, one syntax tree per function
      with the line numbers of the source, and the classifier of the
      specification over such trees ([classify]), with the relation
      [finds] as its declarative form.  This file uses stdpp (finite maps
      for scopes), as do the files of the machine; the others use the
      Standard Library only.
    - [Output]: [main] on the machine with the [Display] of the library,
      the composition of [Program] and [Display].

    ** What the theorems show

    - Refinement (Calculator): [run_simulation], any correct
      implementation is simulated by the IEEE model;
      [run_exact_refinement], from [new] a chain of integer operations
      whose running total and amounts stay within [2^53] in magnitude
      leaves the exact integer result; [run_algebraic_sum] and
      [run_order_safe], the invariant of the specification and the
      independence of order, within that range; [add_exact] and
      [subtract_exact], each method on its own.
    - Refinement (Methods, Program): [chain_refines_run], a chained call
      through references does to the slot of its receiver what [run] does
      to the value and touches nothing else;
      [chained_call_updates_receiver], the statements of the test and of
      [main] read the updated value from the variable itself;
      [tests_test_calculator_refines] and [main_fn_refines], the bodies on
      the machine answer what [test_calculator] and [main] compute, on any
      arithmetic and from any state; [owned_chain_not_observed], with the
      value-returning methods of the design notes the same statements
      would read the old value.
    - The machine (Exec, Methods, Program): the monad laws up to [equiv];
      the rules of [wp]; [chain_frame] and [chains_commute], a call
      changes the slot of its receiver only, so calls on distinct
      calculators commute; [chain_dangling], a reference to no slot stops
      the computation; [failed_assertion_panics], a wrong expectation
      ends the test in a panic with the local dropped and nothing
      written; [main_fn_returns], [main] returns from every state with
      its two lines written; [tests_module_pass], every test of the
      module returns.
    - Clients (Client): [steps_iff_perform_all], the transition relation
      is the graph of the methods; [well_scoped_returns], a trace returns
      exactly when it passes the scope check, and never panics;
      [calculators_independent], each calculator holds [run] of the calls
      made on it, whatever is called on the others in between;
      [steps_monotone] and [reachable_state_wf], invariants of every run,
      by induction on the run.
    - Where the code departs from the specification (Calculator):
      [run_order_matters], two orders of the same operations with
      different results; [add_subtract_not_inverse], the bound [2^53] is
      tight.
    - How far it departs (Bound): [add_accurate] and [subtract_accurate],
      each call has relative error at most [2^-53] unless it overflows;
      [run_error_bound], after [n] calls the value is within
      [((1 + 2^-53)^n - 1)] times the sum of the magnitudes of the amounts
      of the algebraic sum; [run_no_overflow], no call overflows while
      that sum, inflated by [(1 + 2^-53)^n], stays below [2^1024].
    - Invariant (Calculator): [add_wf], [subtract_wf], [run_wf], the
      field always holds a valid binary64 datum; [run_concrete], the model
      predicts the processor bit for bit, so that simulation holds in both
      directions.
    - Observation (Binary64, Observe, Tests): [b64_equiv] is equality
      up to the sign of a zero, an [Equivalence] that the operations and
      the methods respect ([Proper] instances); [run_equiv], equivalent
      calculators stay equivalent; [assert_eq_equiv], no assertion tells
      them apart.
    - Error paths (Calculator): the methods return no error; what goes
      wrong shows in the value.  [add_nan_iff] and [subtract_nan_iff] say
      exactly when NaN appears, [run_not_nan] that finite amounts never
      produce it, [run_nan_absorbing] and [run_nan_amount] that it stays,
      [add_subtract_inf] that an infinity does not cancel;
      [run_overflow_absorbing] that finite amounts can overflow and that
      the infinity then stays, [add_overflow_threshold] where overflow
      starts; [subtract_add_opp] holds on every datum.
    - Strings (Greet, Utf8): [ungreet_greet] (round trip), [greet_inj],
      [greet_utf8] (the invariant of [String] is kept).
    - Tests: [test_calculator_passes] and [calculator_case_passes] on every
      correct implementation, [test_greet_passes], and [assert_eq_f64],
      what the assertion means on [f64].
    - Main: [main_output], the two lines [main] prints, for any [Display]
      that writes integers as their digits.
    - Display: [scaled_by_tight], the search for the decimal exponent
      finds the tight one on every datum of the format;
      [display_f64_total], the generation of digits stops within 17
      digits on every finite datum; [generate_int] and
      [display_f64_integer], an integer of magnitude at most [2^53] is
      written as its decimal digits ([decimal], the digits of the Standard
      Library's [Z.to_int]); [display_f64_examples], the text of some
      fractions and of the special data; [main_prints], the two lines of
      [main] with nothing assumed.
    - Round trip (Display, Readback): [generate_sound] and
      [format_shortest_sound], the digits found, rounded up when the
      generation says so, denote a number of the interval of [decode];
      [read_digits_to_dec_str], the text with its point reads as the
      digits at their exponent; [spacing], two data of the format are a
      unit in the last place apart; [nearest_datum] and
      [display_f64_reads_back], of all finite data none is nearer to the
      number the text denotes than the datum written, so that a reader
      that rounds to nearest returns the datum.
    - End to end (Output): [main_fn_prints], from any state [main]
      returns, drops its local and has written exactly
      ["Calculator result: 7"] and ["Hello, Rust MCP!"].
    - Diagnostics: [classify_spec], the classifier computes exactly the
      relation; [classify_sorted], findings are in source order; the
      testable properties of the specification for every function that
      holds the statement of [errors.rs] in question
      ([classify_let_number], [classify_undefined_var],
      [classify_let_x_let_y], [classify_let_unused],
      [classify_missing_return]); [errors_rs_summary], the findings of the
      file itself.

    ** Bounds

    [2^53] is the bound of the exactness theorems: up to it every integer
    is a binary64 value, so no operation rounds; [add_subtract_not_inverse]
    shows that one step further it does.  The bound applies to the
    accumulator before each operation and to each amount; the final
    result may exceed it and is then the exact result rounded once.
    [2^63] bounds the literals the primitive floats convert.  Outside
    [Display] no definition needs fuel: every function is structurally
    recursive, so every result stated is the result of a terminating
    computation; on the machine a computation is a total function to an
    [answer], and the theorems that say it returns say [Returned] and not
    only "if it returns".  The machine has no bound on the number of
    slots.  [Display] has two loops with fuel.  The search for the decimal
    exponent starts at [k_min] = [-330] and may take [k_fuel] = [700]
    steps: a datum of the format lies between [2^-1076] and [2^1026],
    that is, between [10^-330] and [10^370] ([decode_in_reach]).  The
    generation takes [digits_fuel] = [17] digits: the interval of a datum
    is wider than [10^-16] times its upper end ([decode_ratio]), and each
    digit that does not end the generation makes the scale ten times the
    interval ([generate_total]).  [display_f64_total] states that neither
    runs out.

    ** Not modelled

    Of the formatting machinery of the standard library, what the crate
    does not use: width, precision, [{:e}] and [{:?}]; and the [grisu]
    strategy, an optimisation on machine words that returns the digits of
    [dragon] or falls back to it.  That the digits written are the
    shortest of the interval is not proved, only that they denote a number
    of the interval; nor is a reader that rounds modelled: [read_decimal]
    returns the rational number, and the round trip is stated as "no
    datum is nearer".  The lexer and parser in front of the
    classifier: fragments are given as trees, or as the offset of a
    lexing failure.  The test harness, process start-up and exit: a test
    is its body, run from any state.  Heap allocation: a [String] is a
    value, and only the locals that hold a [Calculator] have slots.  The
    borrow checker: [step] and [well_scoped] admit the calls it admits in
    this crate (a reference to a declared local), and [Dangling] is the
    answer to the others.  The exact threshold of overflow: [run_no_overflow] gives a sufficient
    condition, and [Valid] shows that a sum that overflows is an
    infinity. *)

From Stdlib Require Import ZArith Lia List Bool.
Import ListNotations.

#[local] Open Scope Z_scope.

(** ** Hint databases

    [pow2] collects the facts on powers of two and bit lengths; [b64] the
    evaluation lemmas of the binary64 operations (filled in [Binary64]). *)

Create HintDb pow2 discriminated.
Create HintDb b64 discriminated.
Create Rewrite HintDb pow2.
Create Rewrite HintDb b64.

(** ** Tactics *)

(** Case analysis on the first [match] or [if] scrutinee of the goal. *)
Ltac break_match :=
  match goal with
  | |- context [match ?x with _ => _ end] => destruct x eqn:?
  | |- context [if ?b then _ else _] => destruct b eqn:?
  end.

(** Inversion that leaves only the consequences. *)
Ltac inv H := inversion H; subst; clear H.

(** Boolean hypotheses and goals on [Z] as propositions. *)
Ltac boolZ :=
  repeat match goal with
  | H : andb _ _ = true |- _ => apply andb_true_iff in H; destruct H
  | H : Z.eqb _ _ = true |- _ => apply Z.eqb_eq in H
  | H : Z.eqb _ _ = false |- _ => apply Z.eqb_neq in H
  | H : Z.leb _ _ = true |- _ => apply Z.leb_le in H
  | H : Z.leb _ _ = false |- _ => apply Z.leb_gt in H
  | H : Z.ltb _ _ = true |- _ => apply Z.ltb_lt in H
  | H : Z.ltb _ _ = false |- _ => apply Z.ltb_ge in H
  | |- andb _ _ = true => apply andb_true_iff; split
  | |- Z.eqb _ _ = true => apply Z.eqb_eq
  | |- Z.leb _ _ = true => apply Z.leb_le
  | |- Z.ltb _ _ = true => apply Z.ltb_lt
  end.

(** ** Powers of two *)

Lemma pow2_pos (n : Z) : 0 <= n -> 0 < 2 ^ n.
Proof. intros; apply Z.pow_pos_nonneg; lia. Qed.

Lemma pow2_succ (n : Z) : 0 <= n -> 2 ^ (n + 1) = 2 * 2 ^ n.
Proof. intros; rewrite Z.pow_add_r by lia; lia. Qed.

Lemma pow2_add (n m : Z) : 0 <= n -> 0 <= m -> 2 ^ (n + m) = 2 ^ n * 2 ^ m.
Proof. intros; apply Z.pow_add_r; lia. Qed.

Lemma pow2_le (n m : Z) : 0 <= n <= m -> 2 ^ n <= 2 ^ m.
Proof. intros; apply Z.pow_le_mono_r; lia. Qed.

Lemma pow2_lt (n m : Z) : 0 <= n < m -> 2 ^ n < 2 ^ m.
Proof. intros; apply Z.pow_lt_mono_r; lia. Qed.

(** Cancelling a common power of two. *)
Lemma pow2_mul_cancel (a b n : Z) : 0 <= n -> a * 2 ^ n = b * 2 ^ n -> a = b.
Proof. intros Hn H; pose proof (pow2_pos n Hn); nia. Qed.

#[export] Hint Resolve pow2_pos pow2_le pow2_lt : pow2.
#[export] Hint Extern 3 (_ <= _) => lia : pow2.
#[export] Hint Extern 3 (_ < _) => lia : pow2.
#[export] Hint Extern 3 (_ <= _ <= _) => lia : pow2.
#[export] Hint Extern 3 (_ <= _ < _) => lia : pow2.
#[export] Hint Rewrite pow2_succ pow2_add using lia : pow2.

(** ** Shifting a [positive] to the left

    [Pos.iter xO m d] is how [SpecFloat] multiplies a mantissa by [2^d]. *)

Lemma iter_xO_value (d m : positive) :
  Z.pos (Pos.iter xO m d) = Z.pos m * 2 ^ Z.pos d.
Proof.
  revert m; induction d using Pos.peano_ind; intros m.
  - simpl; lia.
  - rewrite Pos.iter_succ, Pos2Z.inj_xO, IHd, Pos2Z.inj_succ.
    unfold Z.succ; rewrite pow2_succ by lia; lia.
Qed.

(** ** Folds *)

Lemma fold_left_snoc {A B : Type} (f : A -> B -> A) (l : list B) (x : B) (a : A) :
  fold_left f (l ++ [x]) a = f (fold_left f l a) x.
Proof. now rewrite fold_left_app. Qed.
