(* ===== verification/Binary64.v ===== *)
(** * Binary64: the [f64] of the crate as IEEE-754 data

    [lib.rs] stores an [f64] and applies [+=], [-=] and (in its test) [==]
    to it.  This file fixes what those mean: the Standard Library's
    specification of IEEE-754 arithmetic, [SpecFloat], at the parameters of
    binary64, rounding to nearest with ties to even.  Everything here
    computes, so concrete sums are checked by evaluation.  The theorems are
    the algebra that holds on every datum, special values included. *)

From Stdlib Require Import ZArith Lia Bool SpecFloat Setoid Morphisms.
From Stdlib Require FloatOps.
From S2P Require Import Prelude.

#[local] Open Scope Z_scope.

(** ** Data *)

(** Precision (bits of mantissa, the implicit one included) and the
    exponent of the infinities. *)
Definition prec : Z := FloatOps.prec.
Definition emax : Z := FloatOps.emax.

(** A binary64 datum: a signed zero, a signed infinity, NaN, or
    [(-1)^s * m * 2^e]. *)
Definition b64 : Type := spec_float.

Definition b64_zero : b64 := S754_zero false.
Definition b64_nan : b64 := S754_nan.
Definition b64_inf (s : bool) : b64 := S754_infinity s.

(** The data of the format: canonical mantissa, exponent in range. *)
Definition b64_valid (x : b64) : bool := valid_binary prec emax x.

(** ** Operations *)

(** [x + y], as [self.value += num] computes it. *)
Definition b64_add (x y : b64) : b64 := SFadd prec emax x y.

(** [x - y], as [self.value -= num] computes it. *)
Definition b64_sub (x y : b64) : b64 := SFsub prec emax x y.

(** [-x]. *)
Definition b64_opp (x : b64) : b64 := SFopp x.

(** [x == y] on [f64]: IEEE equality, false on NaN, true on zeros of
    different sign. *)
Definition b64_eqb (x y : b64) : bool := SFeqb x y.

(** The value of an integer-valued literal ([5.0] is [b64_of_Z 5]): the
    integer rounded to the format. *)
Definition b64_of_Z (z : Z) : b64 := binary_normalize prec emax z 0 false.

(** ** Classification *)

Definition is_nan (x : b64) : bool :=
  match x with S754_nan => true | _ => false end.

Definition is_inf (x : b64) : bool :=
  match x with S754_infinity _ => true | _ => false end.

Definition is_zero (x : b64) : bool :=
  match x with S754_zero _ => true | _ => false end.

Definition is_finite (x : b64) : bool :=
  match x with S754_zero _ | S754_finite _ _ _ => true | _ => false end.

(** The sign bit; NaN has none in this model. *)
Definition sign_of (x : b64) : bool :=
  match x with
  | S754_zero s | S754_infinity s | S754_finite s _ _ => s
  | S754_nan => false
  end.

(** ** Decidable equality of data *)

Lemma b64_eq_dec (x y : b64) : {x = y} + {x <> y}.
Proof. decide equality; solve [apply bool_dec | apply Pos.eq_dec | apply Z.eq_dec]. Defined.

(** ** The opposite *)

Lemma b64_opp_involutive (x : b64) : b64_opp (b64_opp x) = x.
Proof. destruct x; simpl; now rewrite ?negb_involutive. Qed.

Lemma b64_opp_valid (x : b64) : b64_valid (b64_opp x) = b64_valid x.
Proof. now destruct x. Qed.

Lemma is_nan_opp (x : b64) : is_nan (b64_opp x) = is_nan x.
Proof. now destruct x. Qed.

Lemma is_finite_opp (x : b64) : is_finite (b64_opp x) = is_finite x.
Proof. now destruct x. Qed.

Lemma cond_Zopp_negb (s : bool) (m : Z) : cond_Zopp (negb s) m = - cond_Zopp s m.
Proof. destruct s; simpl; lia. Qed.

Lemma cond_Zopp_mul (s : bool) (a b : Z) : cond_Zopp s a * b = cond_Zopp s (a * b).
Proof. destruct s; simpl; lia. Qed.

Lemma cond_Zopp_abs (s : bool) (a : Z) : 0 < a -> Z.abs (cond_Zopp s a) = a.
Proof. destruct s; simpl; lia. Qed.

Lemma cond_Zopp_sub (s : bool) (a b : Z) : cond_Zopp s a - cond_Zopp s b = cond_Zopp s (a - b).
Proof. destruct s; simpl; lia. Qed.

Lemma cond_Zopp_Zabs (s : bool) (a : Z) : Z.abs (cond_Zopp s a) = Z.abs a.
Proof. destruct s; simpl; lia. Qed.

(** Negating commutes with rounding: the sign is carried through. *)
Lemma b64_opp_binary_round (s : bool) (m : positive) (e : Z) :
  b64_opp (binary_round prec emax s m e) = binary_round prec emax (negb s) m e.
Proof.
  unfold binary_round, binary_round_aux.
  repeat break_match; try reflexivity; congruence.
Qed.

Lemma b64_opp_of_Z (n : Z) : n <> 0 -> b64_opp (b64_of_Z n) = b64_of_Z (- n).
Proof.
  destruct n as [|p|p]; intros Hn; [lia| |]; apply b64_opp_binary_round.
Qed.

(** ** NaN is absorbing *)

Lemma b64_add_nan_l (y : b64) : b64_add b64_nan y = b64_nan.
Proof. reflexivity. Qed.

Lemma b64_add_nan_r (x : b64) : b64_add x b64_nan = b64_nan.
Proof. now destruct x. Qed.

Lemma b64_sub_nan_l (y : b64) : b64_sub b64_nan y = b64_nan.
Proof. reflexivity. Qed.

Lemma b64_sub_nan_r (x : b64) : b64_sub x b64_nan = b64_nan.
Proof. now destruct x. Qed.

#[export] Hint Rewrite b64_add_nan_l b64_add_nan_r b64_sub_nan_l b64_sub_nan_r
  b64_opp_involutive is_nan_opp is_finite_opp : b64.

(** ** Subtraction is addition of the opposite *)

Lemma b64_sub_add_opp (x y : b64) : b64_sub x y = b64_add x (b64_opp y).
Proof.
  destruct x as [sx|sx| |sx mx ex], y as [sy|sy| |sy my ey];
    first [reflexivity | destruct sx, sy; reflexivity].
Qed.

(** ** Addition commutes *)

Lemma b64_add_comm (x y : b64) : b64_add x y = b64_add y x.
Proof.
  destruct x as [sx|sx| |sx mx ex], y as [sy|sy| |sy my ey]; try reflexivity;
    try (destruct sx, sy; reflexivity).
  unfold b64_add, SFadd. now rewrite Z.min_comm, Z.add_comm.
Qed.

(** ** Infinities *)

Lemma b64_add_inf_finite (s : bool) (y : b64) :
  is_finite y = true -> b64_add (b64_inf s) y = b64_inf s.
Proof. destruct y; simpl; congruence. Qed.

Lemma b64_add_inf_same (s : bool) : b64_add (b64_inf s) (b64_inf s) = b64_inf s.
Proof. now destruct s. Qed.

(** Infinities of opposite sign have no sum: the result is NaN. *)
Lemma b64_add_inf_opp (s : bool) : b64_add (b64_inf s) (b64_inf (negb s)) = b64_nan.
Proof. now destruct s. Qed.

Lemma b64_sub_inf_same (s : bool) : b64_sub (b64_inf s) (b64_inf s) = b64_nan.
Proof. now destruct s. Qed.

Lemma b64_sub_inf_finite (s : bool) (y : b64) :
  is_finite y = true -> b64_sub (b64_inf s) y = b64_inf s.
Proof. destruct y; simpl; congruence. Qed.

(** ** Zeros *)

(** Adding a zero of either sign to a datum that is not a zero changes
    nothing. *)
Lemma b64_add_zero_r (x : b64) (s : bool) :
  is_zero x = false -> b64_add x (S754_zero s) = x.
Proof. destruct x; simpl; congruence. Qed.

Lemma b64_add_zero_l (y : b64) (s : bool) :
  is_zero y = false -> b64_add (S754_zero s) y = y.
Proof. intros; rewrite b64_add_comm; now apply b64_add_zero_r. Qed.

(** The sum of two zeros is negative only when both are. *)
Lemma b64_add_zeros (s1 s2 : bool) :
  b64_add (S754_zero s1) (S754_zero s2) = S754_zero (s1 && s2).
Proof. now destruct s1, s2. Qed.

(** ** IEEE equality *)

Lemma b64_eqb_nan_l (y : b64) : b64_eqb b64_nan y = false.
Proof. reflexivity. Qed.

Lemma b64_eqb_nan_r (x : b64) : b64_eqb x b64_nan = false.
Proof. now destruct x. Qed.

Lemma b64_eqb_zeros (s1 s2 : bool) : b64_eqb (S754_zero s1) (S754_zero s2) = true.
Proof. reflexivity. Qed.

(** Every datum but NaN equals itself. *)
Lemma b64_eqb_refl (x : b64) : b64_eqb x x = negb (is_nan x).
Proof.
  destruct x as [s|s| |s m e]; try reflexivity; try (now destruct s).
  unfold b64_eqb, SFeqb, SFcompare.
  rewrite Z.compare_refl, Pos.compare_cont_refl. now destruct s.
Qed.

Lemma Pos_compare_cont_Eq_iff (p q : positive) :
  Pos.compare_cont Eq p q = Eq <-> p = q.
Proof. apply Pos.compare_eq_iff. Qed.

(** On finite data that are not zeros IEEE equality is equality of the
    representation. *)
Lemma b64_eqb_finite (s1 s2 : bool) (m1 m2 : positive) (e1 e2 : Z) :
  b64_eqb (S754_finite s1 m1 e1) (S754_finite s2 m2 e2) = true <->
  (s1 = s2 /\ m1 = m2 /\ e1 = e2).
Proof.
  unfold b64_eqb, SFeqb, SFcompare. split.
  - destruct s1, s2; try discriminate;
      destruct (Z.compare_spec e1 e2); try discriminate;
      destruct (Pos.compare_cont Eq m1 m2) eqn:C; try discriminate;
      apply Pos_compare_cont_Eq_iff in C; auto.
  - intros (-> & -> & ->).
    rewrite Z.compare_refl, Pos.compare_cont_refl. now destruct s2.
Qed.

(** IEEE equality is symmetric. *)
Lemma b64_eqb_sym (x y : b64) : b64_eqb x y = b64_eqb y x.
Proof.
  destruct x as [sx|sx| |sx mx ex], y as [sy|sy| |sy my ey]; try reflexivity;
    try (destruct sx, sy; reflexivity).
  destruct (b64_eqb (S754_finite sx mx ex) (S754_finite sy my ey)) eqn:E1,
           (b64_eqb (S754_finite sy my ey) (S754_finite sx mx ex)) eqn:E2;
    try reflexivity.
  - apply b64_eqb_finite in E1 as (-> & -> & ->).
    now rewrite b64_eqb_refl in E2.
  - apply b64_eqb_finite in E2 as (-> & -> & ->).
    now rewrite b64_eqb_refl in E1.
Qed.

(** Equal representations are IEEE-equal unless they are NaN. *)
Lemma b64_eqb_of_eq (x y : b64) : x = y -> is_nan x = false -> b64_eqb x y = true.
Proof. intros <- H. now rewrite b64_eqb_refl, H. Qed.

(** [==] holds exactly between a datum that is not NaN and itself, and
    between zeros. *)
Lemma b64_eqb_true_iff (x y : b64) :
  b64_eqb x y = true <->
  (x = y /\ is_nan x = false) \/ (is_zero x = true /\ is_zero y = true).
Proof.
  split.
  - destruct x as [sx|sx| |sx mx ex], y as [sy|sy| |sy my ey];
      try discriminate; try (destruct sx; discriminate);
      try (destruct sy; discriminate); intros H.
    + right; split; reflexivity.
    + left; split; [|reflexivity]. destruct sx, sy; reflexivity || discriminate.
    + apply b64_eqb_finite in H as (-> & -> & ->). left; split; reflexivity.
  - intros [[<- Hn]|[Hx Hy]].
    + now apply b64_eqb_of_eq.
    + destruct x, y; try discriminate. reflexivity.
Qed.

(** ** Data up to the sign of zero

    [==] cannot tell [0.0] from [-0.0].  [b64_equiv] is equality up to
    the sign of a zero; the operations respect it, so a datum may be
    replaced by an equivalent one under them. *)

Definition b64_equiv (x y : b64) : Prop :=
  x = y \/ (is_zero x = true /\ is_zero y = true).

#[export] Instance b64_equiv_Equivalence : Equivalence b64_equiv.
Proof.
  split.
  - now left.
  - intros x y [->|[Hx Hy]]; [now left | now right].
  - intros x y z [->|[Hx Hy]] [->|[Hy' Hz]]; unfold b64_equiv; auto.
Qed.

(** Case analysis on an equivalence: the same datum, or two zeros. *)
Ltac equiv_cases H :=
  let s := fresh "s" in let s' := fresh "s" in
  destruct H as [->|[?H ?H]];
  [|match goal with
    | Hx : is_zero ?x = true, Hy : is_zero ?y = true |- _ =>
        destruct x as [s| | |]; try discriminate Hx;
        destruct y as [s'| | |]; try discriminate Hy; clear Hx Hy
    end].

#[export] Instance b64_opp_Proper : Proper (b64_equiv ==> b64_equiv) b64_opp.
Proof. intros x x' Hx. equiv_cases Hx; [reflexivity | now right]. Qed.

#[export] Instance b64_add_Proper :
  Proper (b64_equiv ==> b64_equiv ==> b64_equiv) b64_add.
Proof.
  intros x x' Hx y y' Hy. equiv_cases Hx; equiv_cases Hy; try reflexivity.
  - destruct x' as [sx| | |]; [right; destruct sx, s, s0; now split | now left..].
  - destruct y' as [sy| | |]; [right; destruct sy, s, s0; now split | now left..].
  - right. destruct s, s0, s1, s2; now split.
Qed.

#[export] Instance b64_sub_Proper :
  Proper (b64_equiv ==> b64_equiv ==> b64_equiv) b64_sub.
Proof. intros x x' Hx y y' Hy. rewrite !b64_sub_add_opp. now rewrite Hx, Hy. Qed.

#[export] Instance b64_eqb_Proper : Proper (b64_equiv ==> b64_equiv ==> eq) b64_eqb.
Proof.
  intros x x' Hx y y' Hy. equiv_cases Hx; equiv_cases Hy; reflexivity.
Qed.

#[export] Instance is_nan_Proper : Proper (b64_equiv ==> eq) is_nan.
Proof. intros x x' Hx. now equiv_cases Hx. Qed.

(** What [==] decides, in terms of the equivalence. *)
Lemma b64_eqb_equiv (x y : b64) :
  b64_eqb x y = true <-> b64_equiv x y /\ is_nan x = false.
Proof.
  rewrite b64_eqb_true_iff. unfold b64_equiv. split.
  - intros [[-> Hn]|[Hx Hy]]; [auto|]. split; [auto | now destruct x].
  - intros [[->|[Hx Hy]] Hn]; auto.
Qed.
