(* ===== verification/Rounding.v ===== *)
(** * Rounding: when binary64 arithmetic is exact

    [SpecFloat] rounds a mantissa and an exponent in two moves: it aligns
    the mantissa to the left ([shl_align]) when it has fewer bits than the
    format allows, and shifts it to the right ([shr], keeping a round and
    a sticky bit) when it has more; [binary_round_aux] then rounds to
    nearest even and normalises once more.

    This file proves what that pipeline does on the inputs the calculator
    produces.  The main facts:
    - rounding depends on the value only: multiplying the mantissa by
      [2^k] and lowering the exponent by [k] changes nothing
      ([binary_round_shl]);
    - an input that fits the format comes out as it is
      ([binary_round_fits]);
    - therefore (in [Exact]) the sum of two integer-valued data is the
      rounding of the integer sum, and on integers of magnitude at most
      [2^53] nothing is rounded at all. *)

From Stdlib Require Import ZArith Lia Bool SpecFloat.
From S2P Require Import Prelude Binary64.

#[local] Open Scope Z_scope.

(** ** The constants of the format *)

Lemma prec_eq : prec = 53.
Proof. reflexivity. Qed.

Lemma emax_eq : emax = 1024.
Proof. reflexivity. Qed.

Lemma fexp_eq (k : Z) : fexp prec emax k = Z.max (k - 53) (-1074).
Proof. reflexivity. Qed.

(** From here on [prec] and [emax] are used through these equations only. *)
#[local] Opaque prec emax.

(** ** Iteration and bit length *)

(** [SpecFloat]'s own iterator is the Standard Library's. *)
Lemma iter_pos_iter {A : Type} (f : A -> A) (p : positive) (x : A) :
  iter_pos f p x = Pos.iter f x p.
Proof.
  revert x; induction p as [p IH|p IH|]; intros x; simpl; trivial.
  - now rewrite !IH, <- !Pos.iter_swap.
  - now rewrite !IH.
Qed.

(** [digits2_pos m] is the bit length of [m]. *)
Lemma digits2_pos_bounds (m : positive) :
  2 ^ (Z.pos (digits2_pos m) - 1) <= Z.pos m < 2 ^ Z.pos (digits2_pos m).
Proof.
  induction m as [m IH|m IH|]; simpl digits2_pos;
    [rewrite Pos2Z.inj_succ, Pos2Z.inj_xI | rewrite Pos2Z.inj_succ, Pos2Z.inj_xO
    | simpl; lia];
    unfold Z.succ;
    replace (Z.pos (digits2_pos m) + 1 - 1) with (Z.pos (digits2_pos m) - 1 + 1) by lia;
    rewrite !pow2_succ by lia; lia.
Qed.

(** The bit length is determined by the two powers of two around [m]. *)
Lemma digits2_pos_unique (m : positive) (d : Z) :
  2 ^ (d - 1) <= Z.pos m < 2 ^ d -> Z.pos (digits2_pos m) = d.
Proof.
  intros [Hlo Hhi]. pose proof (digits2_pos_bounds m) as [Dlo Dhi].
  assert (0 < d) by (destruct d; simpl in Hhi; lia).
  destruct (Z.lt_trichotomy (Z.pos (digits2_pos m)) d) as [L|[E|G]]; trivial; exfalso.
  - assert (2 ^ Z.pos (digits2_pos m) <= 2 ^ (d - 1)) by auto with pow2. lia.
  - assert (2 ^ d <= 2 ^ (Z.pos (digits2_pos m) - 1)) by auto with pow2. lia.
Qed.

(** ** Shifting a mantissa to the left *)

(** [m * 2^k] for [k >= 0], as [shl_align] computes it. *)
Definition shl (m : positive) (k : Z) : positive :=
  match k with
  | Z.pos d => Pos.iter xO m d
  | _ => m
  end.

Lemma shl_value (m : positive) (k : Z) : 0 <= k -> Z.pos (shl m k) = Z.pos m * 2 ^ k.
Proof.
  destruct k as [|d|d]; intros Hk; simpl shl; [simpl; lia| |lia].
  apply iter_xO_value.
Qed.

Lemma shl_0 (m : positive) : shl m 0 = m.
Proof. reflexivity. Qed.

Lemma shl_shl (m : positive) (j k : Z) : 0 <= j -> 0 <= k -> shl (shl m j) k = shl m (j + k).
Proof.
  intros Hj Hk. apply Pos2Z.inj. rewrite !shl_value by lia.
  rewrite pow2_add by lia. lia.
Qed.

Lemma digits2_pos_shl (m : positive) (k : Z) :
  0 <= k -> Z.pos (digits2_pos (shl m k)) = Z.pos (digits2_pos m) + k.
Proof.
  intros Hk. apply digits2_pos_unique. rewrite shl_value by lia.
  pose proof (digits2_pos_bounds m) as [Dlo Dhi].
  replace (Z.pos (digits2_pos m) + k - 1) with (Z.pos (digits2_pos m) - 1 + k) by lia.
  rewrite !pow2_add by lia. pose proof (pow2_pos k Hk). nia.
Qed.

(** The left shift is injective in the mantissa. *)
Lemma shl_inj (m m' : positive) (k : Z) : 0 <= k -> shl m k = shl m' k -> m = m'.
Proof.
  intros Hk H. apply (f_equal Z.pos) in H. rewrite !shl_value in H by lia.
  apply pow2_mul_cancel in H; [now apply Pos2Z.inj | lia].
Qed.

(** [shl_align m e t] aligns to the exponent [t] when [t] is below [e], and
    leaves the pair alone otherwise. *)
Lemma shl_align_le (m : positive) (e t : Z) :
  t <= e -> shl_align m e t = (shl m (e - t), t) \/ (t = e /\ shl_align m e t = (m, e)).
Proof.
  intros H. unfold shl_align, shl.
  destruct (t - e) as [|d|d] eqn:E; [right; split; [lia|reflexivity] | lia |].
  left. replace (e - t) with (Z.pos d) by lia. reflexivity.
Qed.

Lemma shl_align_fst (m : positive) (e t : Z) :
  t <= e -> fst (shl_align m e t) = shl m (e - t).
Proof.
  intros H. destruct (shl_align_le m e t H) as [-> | [-> ->]]; trivial.
  now rewrite Z.sub_diag.
Qed.

Lemma shl_align_snd (m : positive) (e t : Z) :
  t <= e -> snd (shl_align m e t) = t.
Proof.
  intros H. destruct (shl_align_le m e t H) as [-> | [-> ->]]; trivial.
Qed.

Lemma shl_align_gt (m : positive) (e t : Z) : e < t -> shl_align m e t = (m, e).
Proof.
  intros H. unfold shl_align. destruct (t - e) eqn:E; trivial; lia.
Qed.

(** ** Shifting to the right

    A shift record is a mantissa with the round bit (the last bit shifted
    out) and the sticky bit (whether any bit before that was set). *)

(** The record of an exact mantissa: nothing shifted out yet. *)
Definition exact_record (m : Z) : shr_record :=
  {| shr_m := m; shr_r := false; shr_s := false |}.

Lemma shr_record_of_loc_exact (m : Z) : shr_record_of_loc m loc_Exact = exact_record m.
Proof. reflexivity. Qed.

Lemma loc_of_exact_record (m : Z) : loc_of_shr_record (exact_record m) = loc_Exact.
Proof. reflexivity. Qed.

(** [shr] in terms of the Standard Library's iterator. *)
Lemma shr_pos (mrs : shr_record) (e : Z) (p : positive) :
  shr mrs e (Z.pos p) = (Pos.iter shr_1 mrs p, e + Z.pos p).
Proof. unfold shr. now rewrite iter_pos_iter. Qed.

Lemma shr_nonpos (mrs : shr_record) (e n : Z) : n <= 0 -> shr mrs e n = (mrs, e).
Proof. destruct n; trivial; lia. Qed.

(** Shifting by [j + k] is shifting by [j], then by [k]. *)
Lemma shr_add (mrs : shr_record) (e j k : Z) :
  0 <= j -> 0 <= k ->
  shr mrs e (j + k) = shr (fst (shr mrs e j)) (snd (shr mrs e j)) k.
Proof.
  intros Hj Hk.
  destruct j as [|j|j]; [now rewrite Z.add_0_l | | lia].
  destruct k as [|k|k]; [now rewrite Z.add_0_r, (shr_nonpos _ _ 0) by lia;
                        destruct (shr mrs e (Z.pos j)) | | lia].
  rewrite <- Pos2Z.inj_add, !shr_pos. cbn [fst snd].
  rewrite Pos.add_comm, Pos.iter_add. f_equal. rewrite Pos2Z.inj_add. lia.
Qed.

(** One shift of an even exact mantissa is exact. *)
Lemma shr_1_xO (p : positive) :
  shr_1 (exact_record (Z.pos p~0)) = exact_record (Z.pos p).
Proof. reflexivity. Qed.

(** Shifting out the [k] zeros that [shl] appended gives the mantissa
    back, exactly. *)
Lemma shr_shl (m : positive) (e k : Z) :
  0 <= k -> shr (exact_record (Z.pos (shl m k))) e k = (exact_record (Z.pos m), e + k).
Proof.
  destruct k as [|d|d]; intros Hk; [simpl; f_equal; lia | | lia].
  rewrite shr_pos. f_equal. simpl shl. clear Hk.
  induction d using Pos.peano_ind.
  - reflexivity.
  - rewrite Pos.iter_succ_r, Pos.iter_succ, shr_1_xO. exact IHd.
Qed.

(** ** The two halves of rounding

    [binary_round] first brings its input to a shift record at the
    exponent the format prescribes ([align]); what remains
    ([round_finish]) rounds the record to nearest even, normalises once
    more and checks the range. *)

(** The exponent the format prescribes for a mantissa [m] at exponent [e]. *)
Definition target (m : positive) (e : Z) : Z :=
  fexp prec emax (Z.pos (digits2_pos m) + e).

Definition align (m : positive) (e : Z) : shr_record * Z :=
  let '(mz, ez) := shl_align m e (target m e) in
  shr_fexp prec emax (Z.pos mz) ez loc_Exact.

Definition round_finish (s : bool) (p : shr_record * Z) : b64 :=
  let '(mrs', e') := p in
  let '(mrs'', e'') :=
    shr_fexp prec emax (round_nearest_even (shr_m mrs') (loc_of_shr_record mrs'))
      e' loc_Exact in
  match shr_m mrs'' with
  | Z0 => S754_zero s
  | Z.pos m => if e'' <=? emax - prec then S754_finite s m e'' else S754_infinity s
  | Z.neg _ => S754_nan
  end.

Lemma binary_round_aux_finish (s : bool) (mx ex : Z) (lx : location) :
  binary_round_aux prec emax s mx ex lx = round_finish s (shr_fexp prec emax mx ex lx).
Proof. reflexivity. Qed.

Lemma binary_round_align (s : bool) (m : positive) (e : Z) :
  binary_round prec emax s m e = round_finish s (align m e).
Proof.
  unfold binary_round, align, target.
  destruct (shl_align m e _) as [mz ez]. apply binary_round_aux_finish.
Qed.

Lemma target_eq (m : positive) (e : Z) :
  target m e = Z.max (Z.pos (digits2_pos m) + e - 53) (-1074).
Proof. apply fexp_eq. Qed.

Lemma target_shl (m : positive) (e k : Z) : 0 <= k -> target (shl m k) (e - k) = target m e.
Proof.
  intros Hk. unfold target. rewrite digits2_pos_shl by lia. f_equal; lia.
Qed.

Lemma target_shl_self (m : positive) (e : Z) :
  target m e <= e -> target (shl m (e - target m e)) (target m e) = target m e.
Proof.
  intros H. transitivity (target (shl m (e - target m e)) (e - (e - target m e))).
  - f_equal; lia.
  - apply target_shl; lia.
Qed.

(** A mantissa already at its prescribed exponent is not shifted. *)
Lemma shr_fexp_at_target (m : positive) (e : Z) :
  target m e = e ->
  shr_fexp prec emax (Z.pos m) e loc_Exact = (exact_record (Z.pos m), e).
Proof.
  intros H. unfold shr_fexp. cbn [Zdigits2]. fold (target m e).
  rewrite H, Z.sub_diag. reflexivity.
Qed.

(** When the prescribed exponent is not above the input's, aligning is a
    left shift and loses nothing. *)
Lemma align_le (m : positive) (e : Z) :
  target m e <= e ->
  align m e = (exact_record (Z.pos (shl m (e - target m e))), target m e).
Proof.
  intros H. unfold align.
  destruct (shl_align_le m e _ H) as [-> | [E ->]].
  - apply shr_fexp_at_target. now apply target_shl_self.
  - rewrite E, Z.sub_diag, shl_0. now apply shr_fexp_at_target.
Qed.

(** Otherwise it is a right shift of the mantissa as given. *)
Lemma align_gt (m : positive) (e : Z) :
  e < target m e ->
  align m e = shr (exact_record (Z.pos m)) e (target m e - e).
Proof.
  intros H. unfold align. rewrite shl_align_gt by exact H. reflexivity.
Qed.

(** ** Rounding depends on the value only *)

(** The record [align] produces is the same for [m * 2^k] at exponent
    [e - k] as for [m] at [e]: the two inputs denote the same number. *)
Lemma align_shl (m : positive) (e k : Z) :
  0 <= k -> align (shl m k) (e - k) = align m e.
Proof.
  intros Hk. pose proof (target_shl m e k Hk) as T.
  destruct (Z.le_gt_cases (target m e) (e - k)) as [H1|H1].
  - rewrite !align_le by lia. rewrite T, shl_shl by lia.
    now replace (k + (e - k - target m e)) with (e - target m e) by lia.
  - rewrite align_gt by lia. rewrite T.
    destruct (Z.le_gt_cases (target m e) e) as [H2|H2].
    + rewrite align_le by lia.
      replace (shl m k) with (shl (shl m (e - target m e)) (target m e - (e - k)))
        by (rewrite shl_shl by lia; f_equal; lia).
      rewrite shr_shl by lia. f_equal; lia.
    + rewrite (align_gt m e) by lia.
      replace (target m e - (e - k)) with (k + (target m e - e)) by lia.
      rewrite shr_add, shr_shl by lia. cbn [fst snd]. do 2 f_equal; lia.
Qed.

(** Multiplying the mantissa by [2^k] and lowering the exponent by [k]
    does not change the result of rounding. *)
Lemma binary_round_shl (s : bool) (m : positive) (e k : Z) :
  0 <= k -> binary_round prec emax s (shl m k) (e - k) = binary_round prec emax s m e.
Proof. intros Hk. now rewrite !binary_round_align, align_shl. Qed.

(** ** Inputs that fit the format *)

(** An exact record at its prescribed exponent is the result, unless the
    exponent is out of range, which is an overflow to infinity. *)
Lemma round_finish_exact (s : bool) (m : positive) (e : Z) :
  target m e = e ->
  round_finish s (exact_record (Z.pos m), e)
  = if e <=? emax - prec then S754_finite s m e else S754_infinity s.
Proof.
  intros H. unfold round_finish.
  rewrite loc_of_exact_record. cbn [shr_m exact_record round_nearest_even].
  now rewrite shr_fexp_at_target.
Qed.

(** When the mantissa has room to its left the input is only re-aligned:
    no bit is lost. *)
Lemma binary_round_fits (s : bool) (m : positive) (e : Z) :
  target m e <= e ->
  binary_round prec emax s m e
  = if target m e <=? emax - prec
    then S754_finite s (shl m (e - target m e)) (target m e)
    else S754_infinity s.
Proof.
  intros H. rewrite binary_round_align, align_le by exact H.
  apply round_finish_exact. now apply target_shl_self.
Qed.

(** A canonical mantissa in range is a fixed point of rounding. *)
Lemma binary_round_canonical (s : bool) (m : positive) (e : Z) :
  bounded prec emax m e = true ->
  binary_round prec emax s m e = S754_finite s m e.
Proof.
  unfold bounded, canonical_mantissa. fold (target m e). intros H. boolZ.
  rewrite binary_round_fits by lia.
  replace (target m e) with e by lia.
  rewrite Z.sub_diag, shl_0.
  now destruct (Z.leb_spec e (emax - prec)); [|lia].
Qed.
