(* ===== verification/Exact.v ===== *)
(** * Exact: binary64 arithmetic on integers

    The literals of the crate ([5.0], [2.0], [10.0], [3.0]) and the
    amounts the specification's examples use are integers.  This file
    relates binary64 data to the integers they denote ([b64_to_Z]) and
    proves that addition and subtraction of data that denote integers
    exactly is the rounding of the exact result ([b64_add_of_Z],
    [b64_sub_of_Z]); every integer of magnitude at most [2^53] is denoted
    exactly ([exact_small]), so below that bound the arithmetic of the
    calculator is integer arithmetic. *)

From Stdlib Require Import ZArith Lia Bool SpecFloat.
From S2P Require Import Prelude Binary64 Rounding.

#[local] Open Scope Z_scope.

(** ** Scaled integers

    [scaled M e n]: the mantissa [M] at exponent [e] denotes the integer
    [n], that is [M * 2^e = n], stated without fractions. *)

Definition scaled (M e n : Z) : Prop :=
  if 0 <=? e then n = M * 2 ^ e else M = n * 2 ^ (- e).

Lemma scaled_nonneg (M e n : Z) : 0 <= e -> scaled M e n <-> n = M * 2 ^ e.
Proof. unfold scaled. now destruct (Z.leb_spec 0 e); [|lia]. Qed.

Lemma scaled_neg (M e n : Z) : e < 0 -> scaled M e n <-> M = n * 2 ^ (- e).
Proof. unfold scaled. now destruct (Z.leb_spec 0 e); [lia|]. Qed.

Lemma scaled_0 (n : Z) : scaled n 0 n.
Proof. apply scaled_nonneg; simpl; lia. Qed.

(** Lowering the exponent by [k] multiplies the mantissa by [2^k]. *)
Lemma scaled_shift (M e n z : Z) :
  z <= e -> scaled M e n -> scaled (M * 2 ^ (e - z)) z n.
Proof.
  intros Hz H.
  destruct (Z.leb_spec 0 z) as [Pz|Nz].
  - apply scaled_nonneg in H; [|lia]. apply scaled_nonneg; [lia|].
    rewrite <- Z.mul_assoc, <- pow2_add by lia.
    now replace (e - z + z) with e by lia.
  - apply scaled_neg; [lia|].
    destruct (Z.leb_spec 0 e) as [Pe|Ne].
    + apply scaled_nonneg in H; [|lia]. subst n.
      replace (e - z) with (e + - z) by lia. rewrite pow2_add by lia. lia.
    + apply scaled_neg in H; [|lia]. subst M.
      rewrite <- Z.mul_assoc, <- pow2_add by lia. f_equal. f_equal. lia.
Qed.

Lemma scaled_add (M1 M2 e n1 n2 : Z) :
  scaled M1 e n1 -> scaled M2 e n2 -> scaled (M1 + M2) e (n1 + n2).
Proof. unfold scaled. destruct (0 <=? e); intros; subst; lia. Qed.

Lemma scaled_opp (M e n : Z) : scaled M e n -> scaled (- M) e (- n).
Proof. unfold scaled. destruct (0 <=? e); intros; subst; lia. Qed.

(** A scaled mantissa and its integer have the same sign. *)
Lemma scaled_sign (M e n : Z) :
  scaled M e n -> (M = 0 <-> n = 0) /\ (0 < M <-> 0 < n) /\ (M < 0 <-> n < 0).
Proof.
  unfold scaled. destruct (Z.leb_spec 0 e) as [P|N]; intros H.
  - pose proof (pow2_pos e P). subst n. nia.
  - assert (0 < 2 ^ (- e)) by auto with pow2. subst M. nia.
Qed.

Lemma scaled_abs (M e n : Z) : scaled M e n -> scaled (Z.abs M) e (Z.abs n).
Proof.
  intros H. pose proof (scaled_sign M e n H) as (_ & Hp & Hn).
  destruct (Z.lt_trichotomy M 0) as [L|[E|G]].
  - rewrite !Z.abs_neq by lia. now apply scaled_opp.
  - subst M. pose proof (scaled_sign 0 e n H) as (Hz & _).
    replace n with 0 in * by lia. exact H.
  - rewrite !Z.abs_eq by lia. exact H.
Qed.

(** ** Rounding a scaled integer

    Rounding [M] at exponent [e] is rounding the integer it denotes at
    exponent [0]. *)

Lemma binary_round_scaled (s : bool) (m p : positive) (e : Z) :
  scaled (Z.pos m) e (Z.pos p) ->
  binary_round prec emax s m e = binary_round prec emax s p 0.
Proof.
  intros H. destruct (Z.leb_spec 0 e) as [P|N].
  - apply scaled_nonneg in H; [|lia].
    rewrite <- (binary_round_shl s m e e P), Z.sub_diag. f_equal.
    apply Pos2Z.inj. rewrite shl_value by lia. lia.
  - apply scaled_neg in H; [|lia].
    rewrite <- (binary_round_shl s p 0 (- e)) by lia.
    f_equal; [|lia]. apply Pos2Z.inj. rewrite shl_value by lia. lia.
Qed.

Lemma binary_normalize_scaled (M e n : Z) (sz : bool) :
  scaled M e n ->
  binary_normalize prec emax M e sz = binary_normalize prec emax n 0 sz.
Proof.
  intros H. pose proof (scaled_sign M e n H) as (Hz & Hp & Hn).
  destruct M as [|m|m], n as [|p|p]; try lia; try reflexivity;
    cbn [binary_normalize]; apply binary_round_scaled.
  - exact H.
  - apply scaled_opp in H. exact H.
Qed.

(** ** The integer a datum denotes *)

(** [Some n] when the datum is a zero or a finite datum whose value is the
    integer [n]; [None] on NaN, infinities and fractions. *)
Definition b64_to_Z (x : b64) : option Z :=
  match x with
  | S754_zero _ => Some 0
  | S754_finite s m e =>
      if 0 <=? e then Some (cond_Zopp s (Z.pos m * 2 ^ e))
      else if Z.pos m mod 2 ^ (- e) =? 0
           then Some (cond_Zopp s (Z.pos m / 2 ^ (- e)))
           else None
  | _ => None
  end.

(** A finite datum denotes [n] exactly when its signed mantissa, at its
    exponent, is [n] scaled. *)
Lemma b64_to_Z_finite (s : bool) (m : positive) (e n : Z) :
  b64_to_Z (S754_finite s m e) = Some n <-> scaled (cond_Zopp s (Z.pos m)) e n.
Proof.
  cbn [b64_to_Z]. destruct (Z.leb_spec 0 e) as [P|N].
  - rewrite scaled_nonneg, cond_Zopp_mul by lia.
    split; [now intros [= <-] | now intros ->].
  - assert (P2 : 0 < 2 ^ (- e)) by auto with pow2.
    assert (A : scaled (cond_Zopp s (Z.pos m)) e n -> Z.pos m = Z.abs n * 2 ^ (- e)).
    { intros H. apply scaled_abs, scaled_neg in H; [|lia].
      now rewrite cond_Zopp_abs in H by lia. }
    destruct (Z.eqb_spec (Z.pos m mod 2 ^ (- e)) 0) as [E|E]; split.
    + intros [= <-]. apply scaled_neg; [lia|]. rewrite cond_Zopp_mul. f_equal.
      rewrite Z.mul_comm. apply Z_div_exact_full_2; [lia | exact E].
    + intros H. f_equal. apply scaled_neg in H as H'; [|lia].
      rewrite (A H), Z.div_mul by lia. rewrite (A H), <- cond_Zopp_mul in H'.
      apply pow2_mul_cancel in H'; [exact H' | lia].
    + discriminate.
    + intros H. exfalso. apply E. rewrite (A H). apply Z.mod_mul; lia.
Qed.

(** ** Integers denoted exactly *)

(** [exact n]: converting the integer [n] to binary64 loses nothing. *)
Definition exact (n : Z) : bool :=
  match b64_to_Z (b64_of_Z n) with
  | Some k => k =? n
  | None => false
  end.

Lemma exact_to_Z (n : Z) : exact n = true <-> b64_to_Z (b64_of_Z n) = Some n.
Proof.
  unfold exact. destruct (b64_to_Z (b64_of_Z n)) as [k|].
  - rewrite Z.eqb_eq. split; [now intros -> | now intros [= ->]].
  - split; discriminate.
Qed.

Lemma b64_of_Z_0 : b64_of_Z 0 = b64_zero.
Proof. reflexivity. Qed.

(** The shape of an exact conversion: [+0] for [0], otherwise a finite
    datum with the sign of [n] whose mantissa, at its exponent, is the
    magnitude of [n] scaled. *)
Lemma exact_shape (n : Z) :
  exact n = true -> n <> 0 ->
  exists s m e, b64_of_Z n = S754_finite s m e /\ scaled (cond_Zopp s (Z.pos m)) e n.
Proof.
  rewrite exact_to_Z. intros H Hn.
  destruct (b64_of_Z n) as [s|s| |s m e] eqn:E; cbn [b64_to_Z] in H;
    try discriminate; [congruence|].
  exists s, m, e. split; [reflexivity|]. now apply b64_to_Z_finite.
Qed.

(** ** Addition and subtraction of exact integers *)

(** The signed mantissa of an exact operand, aligned to a lower exponent
    as [SFadd] aligns it, still denotes the operand. *)
Lemma aligned_scaled (s : bool) (m : positive) (e n z : Z) :
  z <= e -> scaled (cond_Zopp s (Z.pos m)) e n ->
  scaled (cond_Zopp s (Z.pos (fst (shl_align m e z)))) z n.
Proof.
  intros Hz H. rewrite shl_align_fst, shl_value, <- cond_Zopp_mul by lia.
  now apply scaled_shift.
Qed.

(** The sum of two integers converted exactly is the conversion of their
    sum: one rounding, of the exact result. *)
Theorem b64_add_of_Z (a b : Z) :
  exact a = true -> exact b = true ->
  b64_add (b64_of_Z a) (b64_of_Z b) = b64_of_Z (a + b).
Proof.
  intros Ha Hb.
  destruct (Z.eq_dec a 0) as [->|Na]; [|destruct (Z.eq_dec b 0) as [->|Nb]].
  - rewrite Z.add_0_l, b64_of_Z_0. destruct (Z.eq_dec b 0) as [->|Nb]; [reflexivity|].
    now destruct (exact_shape b Hb Nb) as (s & m & e & -> & _).
  - rewrite Z.add_0_r, b64_of_Z_0.
    now destruct (exact_shape a Ha Na) as (s & m & e & -> & _).
  - destruct (exact_shape a Ha Na) as (sa & ma & ea & -> & Sa).
    destruct (exact_shape b Hb Nb) as (sb & mb & eb & -> & Sb).
    unfold b64_add, b64_of_Z; cbn [SFadd]. apply binary_normalize_scaled.
    apply scaled_add; apply aligned_scaled; trivial; lia.
Qed.

(** The opposite of a datum denotes the opposite integer. *)
Lemma b64_to_Z_opp (x : b64) : b64_to_Z (b64_opp x) = option_map Z.opp (b64_to_Z x).
Proof.
  destruct x as [s|s| |s m e]; try reflexivity; cbn [b64_opp SFopp b64_to_Z].
  rewrite !cond_Zopp_negb. repeat break_match; reflexivity.
Qed.

Lemma exact_opp (n : Z) : exact n = true -> exact (- n) = true.
Proof.
  destruct (Z.eq_dec n 0) as [->|Hn]; [trivial|].
  rewrite !exact_to_Z, <- b64_opp_of_Z, b64_to_Z_opp by exact Hn.
  now intros ->.
Qed.

(** The difference of two integers converted exactly is the conversion of
    their difference. *)
Theorem b64_sub_of_Z (a b : Z) :
  exact a = true -> exact b = true ->
  b64_sub (b64_of_Z a) (b64_of_Z b) = b64_of_Z (a - b).
Proof.
  intros Ha Hb. rewrite b64_sub_add_opp.
  destruct (Z.eq_dec b 0) as [->|Nb].
  - rewrite Z.sub_0_r, b64_of_Z_0.
    destruct (Z.eq_dec a 0) as [->|Na]; [reflexivity|].
    now destruct (exact_shape a Ha Na) as (s & m & e & -> & _).
  - rewrite b64_opp_of_Z by exact Nb. rewrite b64_add_of_Z; trivial.
    now apply exact_opp.
Qed.

(** ** Which integers are exact *)

(** Below [2^53] an integer has at most 53 bits. *)
Lemma digits_small (p : positive) : Z.pos p < 2 ^ 53 -> Z.pos (digits2_pos p) <= 53.
Proof.
  intros H. pose proof (digits2_pos_bounds p) as [Lo _].
  destruct (Z.le_gt_cases (Z.pos (digits2_pos p)) 53) as [|G]; trivial.
  assert (2 ^ 53 <= 2 ^ (Z.pos (digits2_pos p) - 1)) by auto with pow2. lia.
Qed.

(** The conversion of a positive integer below [2^53]: the integer with
    zeros appended up to 53 bits, at the exponent that compensates. *)
Lemma binary_round_small (s : bool) (p : positive) :
  Z.pos p < 2 ^ 53 ->
  binary_round prec emax s p 0
  = S754_finite s (shl p (53 - Z.pos (digits2_pos p))) (Z.pos (digits2_pos p) - 53).
Proof.
  intros H. pose proof (digits_small p H) as D.
  assert (T : target p 0 = Z.pos (digits2_pos p) - 53) by (rewrite target_eq; lia).
  rewrite binary_round_fits, T by lia.
  rewrite prec_eq, emax_eq.
  destruct (Z.leb_spec (Z.pos (digits2_pos p) - 53) (1024 - 53)); [|lia].
  do 2 f_equal. lia.
Qed.

(** Every integer of magnitude at most [2^53] converts to binary64
    without loss. *)
Theorem exact_small (n : Z) : Z.abs n <= 2 ^ 53 -> exact n = true.
Proof.
  intros H. destruct (Z.eq_dec (Z.abs n) (2 ^ 53)) as [E|E].
  - destruct (Z.abs_spec n) as [[_ A]|[_ A]]; rewrite A in E.
    + now subst n.
    + now replace n with (- 2 ^ 53) by lia.
  - destruct n as [|p|p]; [reflexivity| |]; apply exact_to_Z;
      unfold b64_of_Z; cbn [binary_normalize]; rewrite binary_round_small by lia;
      apply b64_to_Z_finite; cbn [cond_Zopp];
      rewrite shl_value by (pose proof (digits_small p); lia).
    + replace (53 - Z.pos (digits2_pos p)) with (0 - (Z.pos (digits2_pos p) - 53)) by lia.
      apply scaled_shift; [pose proof (digits_small p); lia | apply scaled_0].
    + rewrite <- Z.mul_opp_l.
      replace (53 - Z.pos (digits2_pos p)) with (0 - (Z.pos (digits2_pos p) - 53)) by lia.
      apply scaled_shift; [pose proof (digits_small p); lia | apply (scaled_0 (Z.neg p))].
Qed.

(** ** Comparing exact integers *)

(** An exact conversion is a number. *)
Lemma exact_not_nan (n : Z) : exact n = true -> is_nan (b64_of_Z n) = false.
Proof. rewrite exact_to_Z. now destruct (b64_of_Z n). Qed.

(** Conversion is injective on the integers it converts exactly. *)
Lemma b64_of_Z_inj (n m : Z) :
  exact n = true -> exact m = true -> b64_of_Z n = b64_of_Z m -> n = m.
Proof. rewrite !exact_to_Z. intros Hn Hm E. rewrite E in Hn. congruence. Qed.

(** On exact integers [==] is equality of the integers. *)
Lemma b64_eqb_of_Z (n m : Z) :
  exact n = true -> exact m = true ->
  b64_eqb (b64_of_Z n) (b64_of_Z m) = (n =? m).
Proof.
  intros Hn Hm. destruct (Z.eqb_spec n m) as [->|Hne].
  - rewrite b64_eqb_refl. now rewrite exact_not_nan.
  - destruct (b64_eqb _ _) eqn:E; trivial. exfalso. apply Hne.
    apply b64_eqb_true_iff in E as [[E _]|[Zn Zm]]; [now apply b64_of_Z_inj|].
    apply exact_to_Z in Hn, Hm.
    destruct (b64_of_Z n), (b64_of_Z m); try discriminate; cbn in Hn, Hm; congruence.
Qed.
