(* ===== verification/Valid.v ===== *)
(** * Valid: every result of rounding is a datum of the format

    A binary64 datum is a [spec_float] whose finite values have a
    canonical mantissa (no more than 53 bits, and exactly 53 above the
    subnormal range) and an exponent in range: [b64_valid].  Primitive
    floats denote valid data only.  This file proves that the model keeps
    up: whatever mantissa and exponent go into [binary_round], a valid
    datum comes out, hence [b64_add], [b64_sub] and [b64_of_Z] return
    valid data on valid arguments. *)

From Stdlib Require Import ZArith Lia Bool SpecFloat.
From S2P Require Import Prelude Binary64 Rounding.

#[local] Open Scope Z_scope.
#[local] Opaque prec emax.

(** ** Canonical mantissas *)

(** The least exponent of the format. *)
Definition emin : Z := -1074.

(** A mantissa [q >= 0] is canonical at exponent [t] when [t] is the
    exponent the format prescribes for it; zero counts at [emin]. *)
Definition canonical (q t : Z) : Prop :=
  match q with
  | Z0 => t = emin
  | Z.pos p => target p t = t
  | Z.neg _ => False
  end.

Lemma canonical_mantissa_target (m : positive) (e : Z) :
  canonical_mantissa prec emax m e = true <-> target m e = e.
Proof. unfold canonical_mantissa. fold (target m e). apply Z.eqb_eq. Qed.

Lemma bounded_iff (m : positive) (e : Z) :
  bounded prec emax m e = true <-> target m e = e /\ e <= 971.
Proof.
  unfold bounded. rewrite andb_true_iff, canonical_mantissa_target, Z.leb_le.
  rewrite prec_eq, emax_eq. lia.
Qed.

(** ** What a right shift leaves *)

Lemma shr_1_m (mrs : shr_record) :
  0 <= shr_m mrs -> shr_m (shr_1 mrs) = shr_m mrs / 2.
Proof.
  destruct mrs as [[|[p|p|]|p] r s]; cbn [shr_1 shr_m]; intros H; try lia.
  - reflexivity.
  - rewrite Pos2Z.inj_xI. apply Z.div_unique with 1; lia.
  - rewrite Pos2Z.inj_xO. apply Z.div_unique with 0; lia.
  - reflexivity.
Qed.

Lemma shr_iter_m (mrs : shr_record) (p : positive) :
  0 <= shr_m mrs -> shr_m (Pos.iter shr_1 mrs p) = shr_m mrs / 2 ^ Z.pos p.
Proof.
  intros H. induction p as [|p IH] using Pos.peano_ind.
  - cbn [Pos.iter]. now rewrite shr_1_m.
  - rewrite Pos.iter_succ, shr_1_m, IH.
    + rewrite Pos2Z.inj_succ, Z.pow_succ_r, Z.div_div by lia.
      f_equal. lia.
    + rewrite IH. apply Z.div_pos; [lia | auto with pow2].
Qed.

(** A right shift by [k] divides the mantissa by [2^k] and raises the
    exponent by [k]. *)
Lemma shr_m_div (mrs : shr_record) (e k : Z) :
  0 <= shr_m mrs -> 0 <= k ->
  shr_m (fst (shr mrs e k)) = shr_m mrs / 2 ^ k /\ snd (shr mrs e k) = e + k.
Proof.
  intros Hm Hk. destruct k as [|p|p]; [| |lia].
  - cbn. rewrite Z.div_1_r. lia.
  - rewrite shr_pos. cbn [fst snd]. now rewrite shr_iter_m.
Qed.

(** The quotient of a [d]-bit mantissa by [2^k], [k < d], has [d - k]
    bits. *)
Lemma digits2_pos_div (m q : positive) (k : Z) :
  0 <= k -> Z.pos q = Z.pos m / 2 ^ k ->
  Z.pos (digits2_pos q) = Z.pos (digits2_pos m) - k.
Proof.
  intros Hk Hq. pose proof (digits2_pos_bounds m) as [Dlo Dhi].
  pose proof (pow2_pos k Hk) as Pk.
  assert (Hd : k < Z.pos (digits2_pos m)).
  { destruct (Z.lt_ge_cases k (Z.pos (digits2_pos m))) as [L|G]; trivial.
    assert (2 ^ Z.pos (digits2_pos m) <= 2 ^ k) by auto with pow2.
    rewrite Z.div_small in Hq by lia. lia. }
  apply digits2_pos_unique. rewrite Hq. split.
  - apply Z.div_le_lower_bound; [lia|].
    rewrite Z.mul_comm, <- pow2_add by lia.
    now replace (Z.pos (digits2_pos m) - k - 1 + k) with (Z.pos (digits2_pos m) - 1) by lia.
  - apply Z.div_lt_upper_bound; [lia|].
    rewrite <- pow2_add by lia.
    now replace (k + (Z.pos (digits2_pos m) - k)) with (Z.pos (digits2_pos m)) by lia.
Qed.

(** ** Aligning gives a canonical mantissa *)

Lemma target_emin (m : positive) (e : Z) : emin <= target m e.
Proof. rewrite target_eq. unfold emin. lia. Qed.

(** The record [align] returns holds a canonical mantissa at the exponent
    prescribed for the input. *)
Lemma align_canonical (m : positive) (e : Z) :
  0 <= shr_m (fst (align m e)) /\ canonical (shr_m (fst (align m e))) (snd (align m e)).
Proof.
  destruct (Z.le_gt_cases (target m e) e) as [H|H].
  - rewrite align_le by exact H. cbn [fst snd shr_m exact_record canonical].
    split; [apply Pos2Z.is_nonneg | now apply target_shl_self].
  - rewrite align_gt by exact H.
    destruct (shr_m_div (exact_record (Z.pos m)) e (target m e - e)
                (Pos2Z.is_nonneg m) ltac:(lia)) as [Hq He].
    rewrite Hq, He. cbn [shr_m exact_record].
    assert (Pk : 0 < 2 ^ (target m e - e)) by auto with pow2.
    pose proof (Z.div_pos (Z.pos m) _ (Pos2Z.is_nonneg m) Pk) as Q0.
    split; [exact Q0|].
    destruct (Z.pos m / 2 ^ (target m e - e)) as [|q|q] eqn:E; cbn [canonical];
      try lia.
    + pose proof (digits2_pos_bounds m) as [Dlo _].
      apply Z.div_small_iff in E; [|lia]. destruct E as [E|E]; [|lia].
      assert (Z.pos (digits2_pos m) - 1 < target m e - e).
      { apply (Z.pow_lt_mono_r_iff 2); lia. }
      rewrite target_eq in *. unfold emin. lia.
    + symmetry in E. apply digits2_pos_div in E; [|lia].
      unfold target. rewrite E. fold (target m e).
      replace (Z.pos (digits2_pos m) - (target m e - e) + (e + (target m e - e)))
        with (Z.pos (digits2_pos m) + e) by lia.
      fold (target m e). lia.
Qed.

(** ** Rounding a canonical mantissa *)

Lemma round_nearest_even_cases (mx : Z) (lx : location) :
  round_nearest_even mx lx = mx \/ round_nearest_even mx lx = mx + 1.
Proof. destruct lx as [|[| |]]; cbn; try destruct (Z.even mx); auto. Qed.

(** A canonical mantissa is not shifted again. *)
Lemma shr_fexp_canonical (q t : Z) :
  canonical q t -> shr_fexp prec emax q t loc_Exact = (exact_record q, t).
Proof.
  destruct q as [|p|p]; cbn [canonical]; intros H; [|now apply shr_fexp_at_target|easy].
  subst t. reflexivity.
Qed.

(** The successor of a [d]-bit mantissa has [d] bits, or is [2^d]. *)
Lemma digits2_pos_succ (p : positive) :
  digits2_pos (Pos.succ p) = digits2_pos p \/ Pos.succ p = shl 1 (Z.pos (digits2_pos p)).
Proof.
  pose proof (digits2_pos_bounds p) as [Dlo Dhi].
  destruct (Z.eq_dec (Z.pos p + 1) (2 ^ Z.pos (digits2_pos p))) as [E|N].
  - right. apply Pos2Z.inj. rewrite shl_value, Pos2Z.inj_succ by lia. lia.
  - left. apply Pos2Z.inj, digits2_pos_unique. rewrite Pos2Z.inj_succ. lia.
Qed.

(** One more than a canonical mantissa is canonical again after the
    second normalisation, at the same exponent or the next, and stands
    for the same number. *)
Lemma shr_fexp_succ (p : positive) (t : Z) :
  target p t = t ->
  exists q t', shr_fexp prec emax (Z.pos p + 1) t loc_Exact = (exact_record (Z.pos q), t')
               /\ target q t' = t' /\ t <= t' /\ Z.pos q * 2 ^ (t' - t) = Z.pos p + 1.
Proof.
  intros H. replace (Z.pos p + 1) with (Z.pos (Pos.succ p)) by lia.
  assert (Same : target (Pos.succ p) t = t ->
                 exists q t', shr_fexp prec emax (Z.pos (Pos.succ p)) t loc_Exact
                              = (exact_record (Z.pos q), t')
                   /\ target q t' = t' /\ t <= t' /\ Z.pos q * 2 ^ (t' - t) = Z.pos (Pos.succ p)).
  { intros T. exists (Pos.succ p), t. rewrite Z.sub_diag.
    repeat split; [now apply shr_fexp_at_target | exact T | lia | lia]. }
  destruct (digits2_pos_succ p) as [E|E]; [apply Same; unfold target in *; now rewrite E|].
  set (d := Z.pos (digits2_pos p)) in *.
  assert (D : Z.pos (digits2_pos (Pos.succ p)) = d + 1)
    by (rewrite E, digits2_pos_shl by lia; change (Z.pos (digits2_pos 1)) with 1; lia).
  assert (T : target (Pos.succ p) t = t \/ target (Pos.succ p) t = t + 1)
    by (rewrite target_eq in *; fold d in H; lia).
  destruct T as [T|T]; [now apply Same|].
  assert (S1 : Pos.succ p = shl (shl 1 (d - 1)) 1)
    by (rewrite shl_shl, E by lia; f_equal; lia).
  exists (shl 1 (d - 1)), (t + 1). repeat split; [| |lia|].
  - unfold shr_fexp. cbn [Zdigits2]. fold (target (Pos.succ p) t). rewrite T.
    replace (t + 1 - t) with 1 by lia. rewrite S1.
    apply (shr_shl (shl 1 (d - 1)) t 1). lia.
  - rewrite target_eq in *. rewrite digits2_pos_shl by lia. rewrite D in T.
    change (Z.pos (digits2_pos 1)) with 1. lia.
  - replace (t + 1 - t) with 1 by lia. rewrite S1.
    now rewrite (shl_value (shl 1 (d - 1)) 1) by lia.
Qed.

(** ** The result of rounding a canonical record *)

(** The second half of rounding, on a canonical record: with [m'] the
    mantissa rounded to nearest even, the result is a zero when [m'] is
    zero, and otherwise a finite datum that stands for [m' * 2^t] with a
    canonical mantissa, replaced by the infinity when its exponent is out
    of range. *)
Lemma round_finish_value (s : bool) (mrs : shr_record) (t : Z) :
  0 <= shr_m mrs -> canonical (shr_m mrs) t ->
  let m' := round_nearest_even (shr_m mrs) (loc_of_shr_record mrs) in
  (m' = 0 /\ round_finish s (mrs, t) = S754_zero s)
  \/ exists q t', t <= t' /\ Z.pos q * 2 ^ (t' - t) = m' /\ target q t' = t'
       /\ round_finish s (mrs, t)
          = if t' <=? emax - prec then S754_finite s q t' else S754_infinity s.
Proof.
  intros H0 C m'. subst m'. unfold round_finish.
  destruct (round_nearest_even_cases (shr_m mrs) (loc_of_shr_record mrs)) as [->| ->].
  - rewrite shr_fexp_canonical by exact C. cbn [shr_m exact_record].
    destruct (shr_m mrs) as [|q|q]; [now left| |easy].
    right. exists q, t. rewrite Z.sub_diag. repeat split; [lia | lia | exact C].
  - right. destruct (shr_m mrs) as [|q|q]; cbn [canonical] in C; [| |easy].
    + subst t. exists 1%positive, emin. now rewrite Z.sub_diag.
    + destruct (shr_fexp_succ q t C) as (q' & t' & -> & T & L & V). cbn [shr_m exact_record].
      now exists q', t'.
Qed.

(** ** The shape of a rounded result *)

(** What rounding can return with sign [s]: a zero, or a finite datum
    with a canonical mantissa, replaced by the infinity when its exponent
    is out of range. *)
Inductive rounded (s : bool) : b64 -> Prop :=
| rounded_zero : rounded s (S754_zero s)
| rounded_finite (q : positive) (t : Z) :
    target q t = t ->
    rounded s (if t <=? emax - prec then S754_finite s q t else S754_infinity s).

Lemma round_finish_rounded (s : bool) (mrs : shr_record) (t : Z) :
  0 <= shr_m mrs -> canonical (shr_m mrs) t -> rounded s (round_finish s (mrs, t)).
Proof.
  intros H0 C.
  destruct (round_finish_value s mrs t H0 C) as [[_ ->]|(q & t' & _ & _ & T & ->)];
    now constructor.
Qed.

Lemma binary_round_rounded (s : bool) (m : positive) (e : Z) :
  rounded s (binary_round prec emax s m e).
Proof.
  rewrite binary_round_align. destruct (align_canonical m e) as [H0 C].
  destruct (align m e) as [mrs t]. now apply round_finish_rounded.
Qed.

(** A rounded datum is valid, is not NaN, and has the sign given. *)
Lemma rounded_valid (s : bool) (x : b64) : rounded s x -> b64_valid x = true.
Proof.
  destruct 1 as [|q t T]; [reflexivity|].
  destruct (Z.leb_spec t (emax - prec)) as [L|G]; [|reflexivity].
  apply bounded_iff. rewrite prec_eq, emax_eq in L. lia.
Qed.

Lemma rounded_not_nan (s : bool) (x : b64) : rounded s x -> is_nan x = false.
Proof. destruct 1 as [|q t T]; [reflexivity | now destruct (t <=? emax - prec)]. Qed.

Lemma rounded_sign (s : bool) (x : b64) : rounded s x -> sign_of x = s.
Proof. destruct 1 as [|q t T]; [reflexivity | now destruct (t <=? emax - prec)]. Qed.

(** ** Rounding returns valid data *)

Theorem binary_round_valid (s : bool) (m : positive) (e : Z) :
  b64_valid (binary_round prec emax s m e) = true.
Proof. apply (rounded_valid s), binary_round_rounded. Qed.

Lemma binary_round_not_nan (s : bool) (m : positive) (e : Z) :
  is_nan (binary_round prec emax s m e) = false.
Proof. apply (rounded_not_nan s), binary_round_rounded. Qed.

Lemma binary_normalize_not_nan (m e : Z) (szero : bool) :
  is_nan (binary_normalize prec emax m e szero) = false.
Proof. destruct m; [reflexivity | apply binary_round_not_nan..]. Qed.

Lemma binary_normalize_valid (m e : Z) (szero : bool) :
  b64_valid (binary_normalize prec emax m e szero) = true.
Proof. destruct m; [reflexivity | apply binary_round_valid..]. Qed.

Lemma b64_of_Z_valid (n : Z) : b64_valid (b64_of_Z n) = true.
Proof. apply binary_normalize_valid. Qed.

(** [b64_add] and [b64_sub] keep validity. *)
Theorem b64_add_valid (x y : b64) :
  b64_valid x = true -> b64_valid y = true -> b64_valid (b64_add x y) = true.
Proof.
  intros Hx Hy.
  destruct x as [sx|sx| |sx mx ex], y as [sy|sy| |sy my ey];
    try (destruct sx, sy; reflexivity); try assumption; try reflexivity.
  apply binary_normalize_valid.
Qed.

Theorem b64_sub_valid (x y : b64) :
  b64_valid x = true -> b64_valid y = true -> b64_valid (b64_sub x y) = true.
Proof.
  intros Hx Hy. rewrite b64_sub_add_opp.
  apply b64_add_valid; [assumption | now rewrite b64_opp_valid].
Qed.

(** ** Where NaN comes from *)

(** Two infinities of opposite signs. *)
Definition opposite_infinities (x y : b64) : bool :=
  match x, y with
  | S754_infinity sx, S754_infinity sy => xorb sx sy
  | _, _ => false
  end.

(** A sum is NaN exactly when an operand is, or the operands are
    infinities of opposite signs: rounding never makes a NaN. *)
Theorem b64_add_nan_iff (x y : b64) :
  is_nan (b64_add x y) = is_nan x || is_nan y || opposite_infinities x y.
Proof.
  destruct x as [sx|sx| |sx mx ex], y as [sy|sy| |sy my ey];
    try (destruct sx, sy; reflexivity); try reflexivity.
  apply binary_normalize_not_nan.
Qed.

Lemma opposite_infinities_opp (x y : b64) :
  opposite_infinities x (b64_opp y)
  = match x, y with
    | S754_infinity sx, S754_infinity sy => negb (xorb sx sy)
    | _, _ => false
    end.
Proof. destruct x as [|sx| |], y as [|sy| |]; try reflexivity. now destruct sx, sy. Qed.

(** Two infinities of the same sign. *)
Definition same_infinities (x y : b64) : bool :=
  match x, y with
  | S754_infinity sx, S754_infinity sy => negb (xorb sx sy)
  | _, _ => false
  end.

(** A difference is NaN exactly when an operand is, or the operands are
    infinities of the same sign. *)
Theorem b64_sub_nan_iff (x y : b64) :
  is_nan (b64_sub x y) = is_nan x || is_nan y || same_infinities x y.
Proof. now rewrite b64_sub_add_opp, b64_add_nan_iff, is_nan_opp, opposite_infinities_opp. Qed.
