(* ===== verification/Accuracy.v ===== *)
(** * Accuracy: the standard model of floating-point arithmetic

    [b64_to_Q] is the rational number a finite datum stands for.  With it
    the error of an operation can be stated the way numerical analysis
    states it: when [x + y] does not overflow, the datum returned is
    [(x + y) * (1 + d)] for some [|d| <= 2^-53].  That is
    [b64_add_accurate]; [b64_sub_accurate] is the same for [x - y].
    Sums of binary64 data never underflow, so there is no absolute error
    term. *)

From Stdlib Require Import ZArith Lia Bool SpecFloat QArith Qabs Qpower Lqa.
From S2P Require Import Prelude Binary64 Rounding Valid Error.

#[local] Open Scope Q_scope.
#[local] Opaque prec emax.

(** ** The number a datum stands for *)

(** The value of a finite datum; zero for the others. *)
Definition b64_to_Q (x : b64) : Q :=
  match x with
  | S754_finite s m e => inject_Z (cond_Zopp s (Z.pos m)) * 2 ^ e
  | _ => 0
  end.

(** The unit roundoff of binary64. *)
Definition unit_roundoff : Q := 2 ^ (-53).

(** ** Powers of two in [Q] *)

Lemma Qpow2_pos (e : Z) : 0 < 2 ^ e.
Proof. now apply Qpower_0_lt. Qed.

Lemma Qpow2_add (a b : Z) : 2 ^ (a + b) == 2 ^ a * 2 ^ b.
Proof. now apply Qpower_plus. Qed.

Lemma Qpow2_inject (k : Z) : (0 <= k)%Z -> inject_Z (2 ^ k) == 2 ^ k.
Proof. intros H. now rewrite Zpower_Qpower. Qed.

(** The same number at a finer scale. *)
Lemma scaled_value (M e b : Z) :
  (b <= e)%Z -> inject_Z M * 2 ^ e == inject_Z (M * 2 ^ (e - b)) * 2 ^ b.
Proof.
  intros H. rewrite inject_Z_mult, Qpow2_inject by lia.
  rewrite <- Qmult_assoc, <- Qpow2_add. now replace (e - b + b)%Z with e by lia.
Qed.

Lemma Qabs_inject_Z (n : Z) : Qabs (inject_Z n) == inject_Z (Z.abs n).
Proof. unfold inject_Z. symmetry. apply Zabs_Qabs. Qed.

(** ** From integers at a scale to rationals *)

(** A relative error bound between integers is the same bound between
    the numbers they stand for at any scale. *)
Lemma close_at_scale (A B b : Z) :
  (2 ^ 53 * Z.abs (A - B) <= Z.abs B)%Z ->
  Qabs (inject_Z A * 2 ^ b - inject_Z B * 2 ^ b)
  <= unit_roundoff * Qabs (inject_Z B * 2 ^ b).
Proof.
  intros H. pose proof (Qpow2_pos b) as Pb.
  setoid_replace (inject_Z A * 2 ^ b - inject_Z B * 2 ^ b)
    with (inject_Z (A - B) * 2 ^ b)
    by (unfold Z.sub; rewrite inject_Z_plus, inject_Z_opp; ring).
  rewrite !Qabs_Qmult, !Qabs_inject_Z, (Qabs_pos (2 ^ b)) by now apply Qlt_le_weak.
  rewrite Qmult_assoc. apply Qmult_le_compat_r; [|now apply Qlt_le_weak].
  apply (Qmult_le_l _ _ (2 ^ 53)); [apply Qpow2_pos|].
  unfold unit_roundoff. rewrite Qmult_assoc, <- Qpow2_add.
  change (2 ^ (53 + -53)) with 1. rewrite Qmult_1_l.
  rewrite <- Qpow2_inject, <- inject_Z_mult by lia. now rewrite <- Zle_Qle.
Qed.

(** An exact result is within any relative error. *)
Lemma exact_is_close (x y : Q) : x == y -> Qabs (x - y) <= unit_roundoff * Qabs y.
Proof.
  intros ->. setoid_replace (y - y) with 0 by ring. cbn [Qabs Z.abs Qnum Qden].
  apply Qmult_le_0_compat; [apply Qlt_le_weak, Qpow2_pos | apply Qabs_nonneg].
Qed.

(** The value of a finite datum at a finer scale. *)
Lemma b64_to_Q_finite (s : bool) (m : positive) (e b : Z) :
  (b <= e)%Z ->
  b64_to_Q (S754_finite s m e) == inject_Z (cond_Zopp s (Z.pos m * 2 ^ (e - b))) * 2 ^ b.
Proof.
  intros H. cbn [b64_to_Q]. now rewrite (scaled_value _ e b), cond_Zopp_mul by exact H.
Qed.

(** ** Rounding is accurate *)

(** Above the least exponent, a rounded result that is finite is within
    relative error [2^-53] of the number that went in. *)
Theorem binary_round_accurate (s : bool) (m : positive) (e : Z) :
  (emin <= e)%Z -> is_finite (binary_round prec emax s m e) = true ->
  Qabs (b64_to_Q (binary_round prec emax s m e) - inject_Z (cond_Zopp s (Z.pos m)) * 2 ^ e)
  <= unit_roundoff * Qabs (inject_Z (cond_Zopp s (Z.pos m)) * 2 ^ e).
Proof.
  intros He. destruct (Z.le_gt_cases (target m e) e) as [Ht|Ht].
  - rewrite binary_round_fits by exact Ht.
    destruct (target m e <=? emax - prec)%Z; [intros _|discriminate].
    apply exact_is_close. rewrite (b64_to_Q_finite _ _ _ (target m e)) by lia.
    rewrite Z.sub_diag, Z.mul_1_r, shl_value by lia.
    now rewrite (scaled_value _ e (target m e)), cond_Zopp_mul by exact Ht.
  - destruct (binary_round_close s m e (conj He Ht)) as (q & t' & L & _ & -> & C).
    destruct (t' <=? emax - prec)%Z; [intros _|discriminate].
    rewrite (b64_to_Q_finite _ _ _ e) by lia. apply close_at_scale.
    now rewrite cond_Zopp_sub, !cond_Zopp_Zabs.
Qed.

Lemma binary_normalize_accurate (n e : Z) :
  (emin <= e)%Z -> is_finite (binary_normalize prec emax n e false) = true ->
  Qabs (b64_to_Q (binary_normalize prec emax n e false) - inject_Z n * 2 ^ e)
  <= unit_roundoff * Qabs (inject_Z n * 2 ^ e).
Proof.
  intros He. destruct n as [|p|p]; cbn [binary_normalize].
  - intros _. apply exact_is_close. cbn [b64_to_Q]. ring.
  - apply (binary_round_accurate false p e He).
  - apply (binary_round_accurate true p e He).
Qed.

(** ** Sums and differences *)

(** The exponent of a valid finite datum is not below the least one. *)
Lemma valid_emin (s : bool) (m : positive) (e : Z) :
  b64_valid (S754_finite s m e) = true -> (emin <= e)%Z.
Proof. intros H. apply bounded_iff in H as [<- _]. apply target_emin. Qed.

(** The sum of two finite data is the rounding of the sum of their
    mantissas, aligned at the smaller exponent. *)
Lemma b64_add_finite (sx sy : bool) (mx my : positive) (ex ey : Z) :
  let ez := Z.min ex ey in
  b64_add (S754_finite sx mx ex) (S754_finite sy my ey)
  = binary_normalize prec emax
      (cond_Zopp sx (Z.pos mx * 2 ^ (ex - ez)) + cond_Zopp sy (Z.pos my * 2 ^ (ey - ez)))%Z
      ez false.
Proof.
  intros ez. unfold b64_add, SFadd. fold ez.
  now rewrite !shl_align_fst, !shl_value by lia.
Qed.

(** The standard model of floating-point arithmetic, for addition:
    on valid finite data, a sum that does not overflow is within relative
    error [2^-53] of the exact sum. *)
Theorem b64_add_accurate (x y : b64) :
  b64_valid x = true -> b64_valid y = true ->
  is_finite x = true -> is_finite y = true -> is_finite (b64_add x y) = true ->
  Qabs (b64_to_Q (b64_add x y) - (b64_to_Q x + b64_to_Q y))
  <= unit_roundoff * Qabs (b64_to_Q x + b64_to_Q y).
Proof.
  intros Vx Vy Fx Fy.
  destruct x as [sx| | |sx mx ex]; try discriminate Fx;
    destruct y as [sy| | |sy my ey]; try discriminate Fy.
  - intros _. apply exact_is_close. destruct sx, sy; cbn; ring.
  - intros _. apply exact_is_close. cbn [b64_add SFadd b64_to_Q]. ring.
  - intros _. apply exact_is_close. cbn [b64_add SFadd b64_to_Q]. ring.
  - rewrite b64_add_finite. cbv zeta. set (ez := Z.min ex ey).
    pose proof (valid_emin _ _ _ Vx). pose proof (valid_emin _ _ _ Vy).
    intros F.
    rewrite (b64_to_Q_finite sx mx ex ez), (b64_to_Q_finite sy my ey ez) by lia.
    rewrite <- Qmult_plus_distr_l, <- inject_Z_plus.
    apply binary_normalize_accurate; [lia | exact F].
Qed.

Lemma b64_to_Q_opp (x : b64) : b64_to_Q (b64_opp x) == - b64_to_Q x.
Proof.
  destruct x as [s|s| |s m e]; cbn [b64_opp SFopp b64_to_Q]; try ring.
  rewrite cond_Zopp_negb, inject_Z_opp. ring.
Qed.

(** The same for subtraction. *)
Theorem b64_sub_accurate (x y : b64) :
  b64_valid x = true -> b64_valid y = true ->
  is_finite x = true -> is_finite y = true -> is_finite (b64_sub x y) = true ->
  Qabs (b64_to_Q (b64_sub x y) - (b64_to_Q x - b64_to_Q y))
  <= unit_roundoff * Qabs (b64_to_Q x - b64_to_Q y).
Proof.
  intros Vx Vy Fx Fy. rewrite b64_sub_add_opp. intros F.
  unfold Qminus at 2 3. rewrite <- b64_to_Q_opp.
  apply b64_add_accurate; rewrite ?b64_opp_valid, ?is_finite_opp; assumption.
Qed.

(** ** Overflow *)

(** The least magnitude that does not fit the format. *)
Definition overflow_threshold : Q := 2 ^ 1024.

(** A canonical mantissa at an exponent out of range stands for at least
    [2^1024]. *)
Lemma canonical_big (q : positive) (t : Z) :
  target q t = t -> (emax - prec < t)%Z -> overflow_threshold <= inject_Z (Z.pos q) * 2 ^ t.
Proof.
  intros T H. pose proof (digits2_pos_bounds q) as [Dlo _].
  rewrite prec_eq, emax_eq in H. rewrite target_eq in T.
  assert (D : Z.pos (digits2_pos q) = 53%Z) by lia. rewrite D in Dlo.
  change (53 - 1)%Z with 52%Z in Dlo.
  apply Qle_trans with (2 ^ 52 * 2 ^ t).
  - rewrite <- Qpow2_add. unfold overflow_threshold.
    apply Qpower_le_compat_l; [lia | discriminate].
  - apply Qmult_le_compat_r; [|apply Qlt_le_weak, Qpow2_pos].
    rewrite <- Qpow2_inject by lia. now rewrite <- Zle_Qle.
Qed.

(** Rounding overflows only when the number that goes in is, up to the
    unit roundoff, at least [2^1024]. *)
Theorem binary_round_overflow (s : bool) (m : positive) (e : Z) :
  (emin <= e)%Z -> is_finite (binary_round prec emax s m e) = false ->
  overflow_threshold <= (1 + unit_roundoff) * (inject_Z (Z.pos m) * 2 ^ e).
Proof.
  intros He. pose proof (Qpow2_pos e) as Pe. pose proof (Qpow2_pos (-53)) as Pu.
  fold unit_roundoff in Pu.
  assert (M0 : 0 <= inject_Z (Z.pos m) * 2 ^ e).
  { apply Qmult_le_0_compat; [|now apply Qlt_le_weak]. now rewrite <- (Zle_Qle 0). }
  destruct (Z.le_gt_cases (target m e) e) as [Ht|Ht].
  - rewrite binary_round_fits by exact Ht.
    destruct (Z.leb_spec (target m e) (emax - prec)) as [L|G]; [discriminate|intros _].
    pose proof (canonical_big _ _ (target_shl_self m e Ht) G) as B.
    rewrite shl_value in B by lia.
    rewrite <- (scaled_value _ e (target m e)) in B by exact Ht. nra.
  - destruct (binary_round_close s m e (conj He Ht)) as (q & t' & L & T & -> & C).
    destruct (Z.leb_spec t' (emax - prec)) as [L'|G]; [discriminate|intros _].
    pose proof (canonical_big q t' T G) as B.
    rewrite (scaled_value _ t' e) in B by lia.
    assert (C' : (2 ^ 53 * Z.abs (Z.pos q * 2 ^ (t' - e) - Z.pos m) <= Z.abs (Z.pos m))%Z)
      by (now rewrite (Z.abs_eq (Z.pos m)) by lia).
    apply (close_at_scale _ _ e) in C'.
    rewrite (Qabs_pos (inject_Z (Z.pos m) * 2 ^ e)) in C' by exact M0.
    apply Qabs_Qle_condition in C' as [_ C']. lra.
Qed.

Lemma binary_normalize_overflow (n e : Z) :
  (emin <= e)%Z -> is_finite (binary_normalize prec emax n e false) = false ->
  overflow_threshold <= (1 + unit_roundoff) * Qabs (inject_Z n * 2 ^ e).
Proof.
  intros He. rewrite Qabs_Qmult, Qabs_inject_Z, (Qabs_pos (2 ^ e))
    by apply Qlt_le_weak, Qpow2_pos.
  destruct n as [|p|p]; cbn [binary_normalize Z.abs]; [discriminate | |];
    now apply binary_round_overflow.
Qed.

(** A sum of valid finite data is finite unless the exact sum is, up to
    the unit roundoff, at least [2^1024] in magnitude. *)
Theorem b64_add_no_overflow (x y : b64) :
  b64_valid x = true -> b64_valid y = true ->
  is_finite x = true -> is_finite y = true ->
  (1 + unit_roundoff) * Qabs (b64_to_Q x + b64_to_Q y) < overflow_threshold ->
  is_finite (b64_add x y) = true.
Proof.
  intros Vx Vy Fx Fy.
  destruct x as [sx| | |sx mx ex]; try discriminate Fx;
    destruct y as [sy| | |sy my ey]; try discriminate Fy; try reflexivity.
  - now destruct sx, sy.
  - rewrite b64_add_finite. cbv zeta. set (ez := Z.min ex ey).
    pose proof (valid_emin _ _ _ Vx). pose proof (valid_emin _ _ _ Vy).
    rewrite (b64_to_Q_finite sx mx ex ez), (b64_to_Q_finite sy my ey ez) by lia.
    rewrite <- Qmult_plus_distr_l, <- inject_Z_plus. intros B.
    destruct (is_finite (binary_normalize _ _ _ _ _)) eqn:E; [reflexivity|].
    apply binary_normalize_overflow in E; [|lia]. apply Qle_not_lt in E. contradiction.
Qed.

Theorem b64_sub_no_overflow (x y : b64) :
  b64_valid x = true -> b64_valid y = true ->
  is_finite x = true -> is_finite y = true ->
  (1 + unit_roundoff) * Qabs (b64_to_Q x - b64_to_Q y) < overflow_threshold ->
  is_finite (b64_sub x y) = true.
Proof.
  intros Vx Vy Fx Fy B. rewrite b64_sub_add_opp.
  apply b64_add_no_overflow; rewrite ?b64_opp_valid, ?is_finite_opp; try assumption.
  now rewrite b64_to_Q_opp.
Qed.
