(* ===== verification/Float64.v ===== *)
(** * Float64: what the calculator asks of its arithmetic

    The calculator uses five things of [f64]: the literal [0.0], [+=],
    [-=], [==] (in [assert_eq!]) and integer-valued literals.  [Float64] is
    that interface together with [to_spec], the IEEE datum an element
    denotes; [Float64Correct] states that each operation denotes the
    operation of [Binary64].  The calculator's theorems are proved against
    these two classes.

    Two implementations discharge the laws: the model itself, and the
    kernel's primitive floats, which are the processor's binary64 and whose
    laws are the Standard Library's [FloatAxioms]. *)

From Stdlib Require Import ZArith Lia Bool SpecFloat.
From Stdlib Require PrimFloat FloatOps FloatAxioms Uint63.
From S2P Require Import Prelude Binary64.

#[local] Open Scope Z_scope.

(** ** The interface *)

Class Float64 (F : Type) : Type := {
  (** the literal [0.0] *)
  f64_zero : F;
  (** [+] and [+=] *)
  f64_add : F -> F -> F;
  (** [-] and [-=] *)
  f64_sub : F -> F -> F;
  (** [==], the [PartialEq] of [f64] *)
  f64_eq : F -> F -> bool;
  (** an integer-valued literal: [f64_lit 5] is [5.0] *)
  f64_lit : Z -> F;
  (** the IEEE datum denoted *)
  to_spec : F -> b64
}.

(** The bound under which an integer literal is converted without
    wrap-around by every implementation below. *)
Definition lit_bound : Z := 2 ^ 63.

Class Float64Correct (F : Type) {ops : Float64 F} : Prop := {
  to_spec_zero : to_spec f64_zero = b64_zero;
  to_spec_add : forall x y : F,
    to_spec (f64_add x y) = b64_add (to_spec x) (to_spec y);
  to_spec_sub : forall x y : F,
    to_spec (f64_sub x y) = b64_sub (to_spec x) (to_spec y);
  to_spec_eq : forall x y : F,
    f64_eq x y = b64_eqb (to_spec x) (to_spec y);
  to_spec_lit : forall n : Z,
    Z.abs n < lit_bound -> to_spec (f64_lit n) = b64_of_Z n
}.

#[export] Hint Rewrite @to_spec_zero @to_spec_add @to_spec_sub @to_spec_eq
  using (solve [typeclasses eauto]) : b64.

(** ** The model as an implementation *)

#[export] Instance Float64_b64 : Float64 b64 := {
  f64_zero := b64_zero;
  f64_add := b64_add;
  f64_sub := b64_sub;
  f64_eq := b64_eqb;
  f64_lit := b64_of_Z;
  to_spec := fun x => x
}.

#[export] Instance Float64Correct_b64 : Float64Correct b64.
Proof. constructor; reflexivity. Qed.

(** ** Primitive floats as an implementation *)

(** An integer literal on the processor: the unsigned conversion of the
    magnitude, negated for a negative literal. *)
Definition prim_lit (n : Z) : PrimFloat.float :=
  let m := PrimFloat.of_uint63 (Uint63.of_Z (Z.abs n)) in
  if n <? 0 then PrimFloat.opp m else m.

#[export] Instance Float64_prim : Float64 PrimFloat.float := {
  f64_zero := PrimFloat.zero;
  f64_add := PrimFloat.add;
  f64_sub := PrimFloat.sub;
  f64_eq := PrimFloat.eqb;
  f64_lit := prim_lit;
  to_spec := FloatOps.Prim2SF
}.

Lemma uint63_to_of_Z (n : Z) : 0 <= n < lit_bound -> Uint63.to_Z (Uint63.of_Z n) = n.
Proof.
  intros H. rewrite Uint63.of_Z_spec. apply Z.mod_small. exact H.
Qed.

Lemma prim_lit_spec (n : Z) :
  Z.abs n < lit_bound -> FloatOps.Prim2SF (prim_lit n) = b64_of_Z n.
Proof.
  intros H. unfold prim_lit.
  destruct (Z.ltb_spec n 0) as [Hneg|Hpos].
  - rewrite FloatAxioms.opp_spec, FloatAxioms.of_uint63_spec, uint63_to_of_Z by lia.
    change (b64_opp (b64_of_Z (Z.abs n)) = b64_of_Z n).
    rewrite b64_opp_of_Z by lia. f_equal; lia.
  - rewrite FloatAxioms.of_uint63_spec, uint63_to_of_Z by lia.
    unfold b64_of_Z. f_equal; lia.
Qed.

#[export] Instance Float64Correct_prim : Float64Correct PrimFloat.float.
Proof.
  constructor.
  - reflexivity.
  - exact FloatAxioms.add_spec.
  - exact FloatAxioms.sub_spec.
  - exact FloatAxioms.eqb_spec.
  - exact prim_lit_spec.
Qed.

(** Every primitive float denotes a datum of the format, and denotation is
    injective: two primitive floats with the same datum are the same. *)
Lemma prim_to_spec_valid (x : PrimFloat.float) : b64_valid (to_spec x) = true.
Proof. exact (FloatAxioms.Prim2SF_valid x). Qed.

Lemma prim_to_spec_inj (x y : PrimFloat.float) : to_spec x = to_spec y -> x = y.
Proof. exact (FloatAxioms.Prim2SF_inj x y). Qed.
