(* ===== verification/Calculator.v ===== *)
(** * Calculator: the struct of [lib.rs] and its methods

    [Calculator] holds one [f64]; [new] starts it at [0.0]; [add] and
    [subtract] update it in place and return the same object so that calls
    chain; [get_value] reads it.  A method of signature
    [(&mut self, f64) -> &mut Self] is modelled as a function from the
    struct before the call to the struct after it: the borrow is unique, so
    the returned reference and [self] are the one object, and
    [calc.add(a).subtract(b)] is [subtract (add calc a) b].

    The definitions are generic in the arithmetic ([Float64]), so they are
    stated once and run both on the IEEE model and on primitive floats.
    [Operation], [apply_op] and [run] are the operation sequences of the
    specification, applied through the methods. *)

From Stdlib Require Import ZArith Lia Bool List Permutation SpecFloat.
From Stdlib Require PrimFloat FloatOps FloatAxioms.
From S2P Require Import Prelude Binary64 Rounding Exact Valid Float64.
Import ListNotations.

#[local] Open Scope Z_scope.

(** An operation of the specification's expression language, over any
    type of amounts. *)
Inductive Operation (A : Type) : Type :=
| Add (amount : A)
| Subtract (amount : A).

Arguments Add {A} amount.
Arguments Subtract {A} amount.

Definition map_op {A B : Type} (f : A -> B) (op : Operation A) : Operation B :=
  match op with
  | Add a => Add (f a)
  | Subtract a => Subtract (f a)
  end.

Section Impl.
Context {F : Type} {ops : Float64 F}.

(** [pub struct Calculator { value: f64 }] *)
Record Calculator : Type := { value : F }.

(** [Calculator::new]: the field starts at [0.0]. *)
Definition new : Calculator := {| value := f64_zero |}.

(** [add]: [self.value += num; self]. *)
Definition add (self : Calculator) (num : F) : Calculator :=
  {| value := f64_add (value self) num |}.

(** [subtract]: [self.value -= num; self]. *)
Definition subtract (self : Calculator) (num : F) : Calculator :=
  {| value := f64_sub (value self) num |}.

(** [get_value]: the field, the struct unchanged. *)
Definition get_value (self : Calculator) : F := value self.

(** One operation, through the method it names. *)
Definition apply_op (self : Calculator) (op : Operation F) : Calculator :=
  match op with
  | Add amount => add self amount
  | Subtract amount => subtract self amount
  end.

(** A sequence of operations, left to right. *)
Definition run (l : list (Operation F)) (self : Calculator) : Calculator :=
  fold_left apply_op l self.

(** The IEEE datum a calculator holds. *)
Definition denote (self : Calculator) : b64 := to_spec (get_value self).

End Impl.

Arguments Calculator F : clear implicits.

(** ** The exact calculator

    What the specification's invariant describes: the accumulator as a
    number, here an integer, with exact addition and subtraction. *)

Definition apply_exact (acc : Z) (op : Operation Z) : Z :=
  match op with
  | Add k => acc + k
  | Subtract k => acc - k
  end.

Definition run_exact (l : list (Operation Z)) (acc : Z) : Z :=
  fold_left apply_exact l acc.

(** The signed amount of an operation, and the net amount of a sequence:
    the sum of the amounts added less the sum of the amounts subtracted. *)
Definition signed (op : Operation Z) : Z :=
  match op with
  | Add k => k
  | Subtract k => - k
  end.

Definition net (l : list (Operation Z)) : Z :=
  fold_right (fun op s => signed op + s) 0 l.

Lemma run_exact_net (l : list (Operation Z)) (acc : Z) :
  run_exact l acc = acc + net l.
Proof.
  unfold run_exact, net. revert acc; induction l as [|op l IH]; intros acc;
    cbn [fold_left fold_right]; [lia|].
  rewrite IH. destruct op; cbn [apply_exact signed]; lia.
Qed.

Lemma net_perm (l1 l2 : list (Operation Z)) : Permutation l1 l2 -> net l1 = net l2.
Proof.
  induction 1 as [|op l1 l2 _ IH|a b l|l1 l2 l3 _ IH1 _ IH2];
    unfold net in *; cbn [fold_right]; lia.
Qed.

(** ** Behaviour of the methods on any correct arithmetic *)

Section Laws.
Context {F : Type} {ops : Float64 F} {ok : Float64Correct F}.

Implicit Types (c : Calculator F) (x : F) (l : list (Operation F)).

Lemma denote_new : denote (new (F := F)) = b64_zero.
Proof. apply to_spec_zero. Qed.

Lemma denote_add c x : denote (add c x) = b64_add (denote c) (to_spec x).
Proof. apply to_spec_add. Qed.

Lemma denote_subtract c x : denote (subtract c x) = b64_sub (denote c) (to_spec x).
Proof. apply to_spec_sub. Qed.

Lemma run_nil c : run [] c = c.
Proof. reflexivity. Qed.

Lemma run_cons op l c : run (op :: l) c = run l (apply_op c op).
Proof. reflexivity. Qed.

Lemma run_app l1 l2 c : run (l1 ++ l2) c = run l2 (run l1 c).
Proof. apply fold_left_app. Qed.

Lemma run_snoc l op c : run (l ++ [op]) c = apply_op (run l c) op.
Proof. apply fold_left_snoc. Qed.

End Laws.

(** The datum after a chain of method calls, in terms of the operations
    of [Binary64]. *)
Ltac denote_ops :=
  unfold denote, get_value; cbn [apply_op add subtract new value];
  autorewrite with b64.

(** ** Simulation by the IEEE model

    Whatever the implementation of the arithmetic, a run denotes the run of
    the same operations, denoted, on the model. *)

Section Simulation.
Context {F : Type} {ops : Float64 F} {ok : Float64Correct F}.

(** The model calculator a calculator denotes. *)
Definition abstract (c : Calculator F) : Calculator b64 :=
  {| value := to_spec (value c) |}.

Lemma abstract_new : abstract new = new.
Proof. unfold abstract, new; simpl. now rewrite to_spec_zero. Qed.

Lemma abstract_apply_op (c : Calculator F) (op : Operation F) :
  abstract (apply_op c op) = apply_op (abstract c) (map_op to_spec op).
Proof.
  destruct op; cbv [abstract apply_op map_op add subtract value]; f_equal;
    [apply to_spec_add | apply to_spec_sub].
Qed.

(** Running a sequence and abstracting is abstracting and running the
    denoted sequence. *)
Lemma abstract_run (l : list (Operation F)) (c : Calculator F) :
  abstract (run l c) = run (map (map_op to_spec) l) (abstract c).
Proof.
  revert c; induction l as [|op l IH]; intros c; [reflexivity|].
  simpl map. rewrite !run_cons, IH. now rewrite abstract_apply_op.
Qed.


End Simulation.

(** ** Refinement of the exact calculator

    Integer amounts, and an accumulator that stays within the range where
    every integer is a binary64 value: the calculator then computes the
    exact integer result. *)

(** The safe range: magnitude at most [2^53]. *)
Definition safe (n : Z) : bool := Z.abs n <=? 2 ^ 53.

Definition amount_of {A : Type} (op : Operation A) : A :=
  match op with Add a | Subtract a => a end.

(** A sequence is safe from an accumulator when the accumulator before
    each operation and the amount of each operation are in the safe range.
    The final result need not be. *)
Fixpoint safe_run (l : list (Operation Z)) (acc : Z) : bool :=
  match l with
  | [] => true
  | op :: l' => safe acc && safe (amount_of op) && safe_run l' (apply_exact acc op)
  end.

Lemma safe_exact (n : Z) : safe n = true -> exact n = true.
Proof. unfold safe; intros H; boolZ. now apply exact_small. Qed.

Lemma safe_lit_bound (n : Z) : safe n = true -> Z.abs n < lit_bound.
Proof.
  unfold safe, lit_bound; intros H; boolZ.
  assert (2 ^ 53 < 2 ^ 63) by auto with pow2. lia.
Qed.

Section Refinement.
Context {F : Type} {ops : Float64 F} {ok : Float64Correct F}.

(** The operations of an integer sequence as the calculator receives
    them: each amount a literal. *)
Definition literal_ops (l : list (Operation Z)) : list (Operation F) :=
  map (map_op f64_lit) l.

(** One operation on safe operands is the exact operation, rounded once. *)
Lemma apply_op_exact (c : Calculator F) (acc : Z) (op : Operation Z) :
  denote c = b64_of_Z acc -> safe acc = true -> safe (amount_of op) = true ->
  denote (apply_op c (map_op f64_lit op)) = b64_of_Z (apply_exact acc op).
Proof.
  intros Hc Ha Hk. destruct op as [k|k]; cbn [map_op apply_op apply_exact amount_of] in *.
  - rewrite denote_add, Hc, to_spec_lit by now apply safe_lit_bound.
    apply b64_add_of_Z; now apply safe_exact.
  - rewrite denote_subtract, Hc, to_spec_lit by now apply safe_lit_bound.
    apply b64_sub_of_Z; now apply safe_exact.
Qed.

Lemma run_exact_from (l : list (Operation Z)) (c : Calculator F) (acc : Z) :
  denote c = b64_of_Z acc -> safe_run l acc = true ->
  denote (run (literal_ops l) c) = b64_of_Z (run_exact l acc).
Proof.
  revert c acc; induction l as [|op l IH]; intros c acc Hc Hs; [exact Hc|].
  cbn [safe_run] in Hs. boolZ.
  cbn [literal_ops map]. rewrite run_cons. apply IH; [|assumption].
  now apply apply_op_exact.
Qed.

(** [add] of an integer literal to a calculator that holds an
    integer, both within [2^53] in magnitude, leaves the exact sum,
    converted: the addition does not round. *)
Theorem add_exact (c : Calculator F) (acc k : Z) :
  denote c = b64_of_Z acc -> safe acc = true -> safe k = true ->
  denote (add c (f64_lit k)) = b64_of_Z (acc + k).
Proof. exact (fun Hc Ha Hk => apply_op_exact c acc (Add k) Hc Ha Hk). Qed.

(** [subtract] of an integer literal from a calculator that holds an
    integer, both within [2^53] in magnitude, leaves the exact difference,
    converted. *)
Theorem subtract_exact (c : Calculator F) (acc k : Z) :
  denote c = b64_of_Z acc -> safe acc = true -> safe k = true ->
  denote (subtract c (f64_lit k)) = b64_of_Z (acc - k).
Proof. exact (fun Hc Ha Hk => apply_op_exact c acc (Subtract k) Hc Ha Hk). Qed.

(** C1. From [new], a sequence of additions and subtractions of integer
    amounts whose running total and amounts stay within [2^53] in
    magnitude leaves in the calculator the binary64 conversion of the
    exact integer result: no rounding error accumulates. *)
Theorem run_exact_refinement (l : list (Operation Z)) :
  safe_run l 0 = true ->
  denote (run (literal_ops l) new) = b64_of_Z (run_exact l 0).
Proof. intros H. apply run_exact_from; [apply denote_new | exact H]. Qed.

(** When the result is in the safe range too, the value read back is the
    exact integer. *)
Corollary run_exact_value (l : list (Operation Z)) :
  safe_run l 0 = true -> safe (run_exact l 0) = true ->
  b64_to_Z (to_spec (get_value (run (literal_ops l) new))) = Some (run_exact l 0).
Proof.
  intros H Hr. fold (denote (run (literal_ops l) (new (F := F)))).
  rewrite (run_exact_from l new 0 denote_new H).
  now apply exact_to_Z, safe_exact.
Qed.


(** C13. Within the safe range the order of the operations does not
    matter: two orders of the same operations that both stay in the safe
    range leave the same value. *)
Theorem run_order_safe (l1 l2 : list (Operation Z)) :
  Permutation l1 l2 -> safe_run l1 0 = true -> safe_run l2 0 = true ->
  denote (run (literal_ops l1) new) = denote (run (literal_ops l2) new).
Proof.
  intros P H1 H2.
  rewrite (run_exact_from l1 new 0 denote_new H1), (run_exact_from l2 new 0 denote_new H2).
  now rewrite !run_exact_net, (net_perm l1 l2 P).
Qed.

End Refinement.

(** ** The invariant: the calculator holds a datum of the format

    [f64] has no values but the data of binary64.  On primitive floats
    that holds by construction; on the model it is an invariant that
    every method keeps. *)

Section Invariant.
Context {F : Type} {ops : Float64 F} {ok : Float64Correct F}.

(** The calculator holds a valid binary64 datum. *)
Definition wf (c : Calculator F) : bool := b64_valid (denote c).

(** The amounts of a sequence are valid data. *)
Definition valid_amounts (l : list (Operation F)) : bool :=
  forallb (fun op => b64_valid (to_spec (amount_of op))) l.

Lemma new_wf : wf (new (F := F)) = true.
Proof. unfold wf. now rewrite denote_new. Qed.

Lemma apply_op_wf (c : Calculator F) (op : Operation F) :
  wf c = true -> b64_valid (to_spec (amount_of op)) = true -> wf (apply_op c op) = true.
Proof.
  unfold wf. destruct op; cbn [apply_op amount_of]; intros Hc Hx;
    rewrite ?denote_add, ?denote_subtract; now auto using b64_add_valid, b64_sub_valid.
Qed.

(** [add] keeps the invariant: adding a valid datum to a calculator
    that holds one leaves a valid datum, whatever rounding, overflow or
    special value is involved. *)
Theorem add_wf (c : Calculator F) (x : F) :
  wf c = true -> b64_valid (to_spec x) = true -> wf (add c x) = true.
Proof. exact (apply_op_wf c (Add x)). Qed.

(** [subtract] keeps the invariant: subtracting a valid datum
    from a calculator that holds one leaves a valid datum. *)
Theorem subtract_wf (c : Calculator F) (x : F) :
  wf c = true -> b64_valid (to_spec x) = true -> wf (subtract c x) = true.
Proof. exact (apply_op_wf c (Subtract x)). Qed.

Lemma run_wf_from (l : list (Operation F)) (c : Calculator F) :
  wf c = true -> valid_amounts l = true -> wf (run l c) = true.
Proof.
  revert c; induction l as [|op l IH]; intros c Hc Hl; [exact Hc|].
  cbn [valid_amounts forallb] in Hl. apply andb_true_iff in Hl as [Hop Hl].
  rewrite run_cons. apply IH; [now apply apply_op_wf | exact Hl].
Qed.


End Invariant.

(** ** The model predicts the processor

    The simulation in the other direction: a valid state of the model
    calculator is the abstraction of a state of the calculator on
    primitive floats, and running the model predicts, bit for bit, what
    the processor computes. *)

(** The primitive float of a datum. *)
Definition concrete_op (op : Operation b64) : Operation PrimFloat.float :=
  map_op FloatOps.SF2Prim op.

Definition concrete (c : Calculator b64) : Calculator PrimFloat.float :=
  {| value := FloatOps.SF2Prim (value c) |}.

Lemma abstract_concrete (c : Calculator b64) : wf c = true -> abstract (concrete c) = c.
Proof.
  destruct c as [v]. unfold wf, denote, get_value, abstract, concrete. cbn [value to_spec Float64_b64 Float64_prim].
  intros H. f_equal. now apply FloatAxioms.Prim2SF_SF2Prim.
Qed.

Lemma to_spec_concrete_op (op : Operation b64) :
  b64_valid (amount_of op) = true -> map_op to_spec (concrete_op op) = op.
Proof.
  destruct op as [x|x]; cbn [amount_of concrete_op map_op to_spec Float64_prim]; intros H;
    f_equal; now apply FloatAxioms.Prim2SF_SF2Prim.
Qed.

(** Two calculators on primitive floats with the same abstraction are
    the same. *)
Lemma abstract_inj (c1 c2 : Calculator PrimFloat.float) :
  abstract c1 = abstract c2 -> c1 = c2.
Proof.
  destruct c1 as [v1], c2 as [v2]. unfold abstract. cbn [value].
  intros [= H]. f_equal. now apply prim_to_spec_inj.
Qed.

Lemma concrete_apply_op (c : Calculator b64) (op : Operation b64) :
  wf c = true -> b64_valid (amount_of op) = true ->
  apply_op (concrete c) (concrete_op op) = concrete (apply_op c op).
Proof.
  intros Hc Hop. apply abstract_inj.
  rewrite abstract_apply_op, to_spec_concrete_op by exact Hop.
  rewrite !abstract_concrete; [reflexivity | now apply apply_op_wf | exact Hc].
Qed.

Lemma concrete_run_from (l : list (Operation b64)) (c : Calculator b64) :
  wf c = true -> valid_amounts l = true ->
  run (map concrete_op l) (concrete c) = concrete (run l c).
Proof.
  revert c; induction l as [|op l IH]; intros c Hc Hl; [reflexivity|].
  cbn [valid_amounts forallb] in Hl. apply andb_true_iff in Hl as [Hop Hl].
  cbn [map]. rewrite !run_cons, concrete_apply_op by assumption.
  apply IH; [now apply apply_op_wf | exact Hl].
Qed.

(** The processor computes what the model computes: from [new], a
    sequence of operations on primitive floats, each the primitive float
    of a valid datum, leaves the primitive float of the datum the model
    leaves. *)
Theorem run_concrete (l : list (Operation b64)) :
  valid_amounts l = true ->
  run (map concrete_op l) new = concrete (run l new).
Proof. exact (concrete_run_from l new eq_refl). Qed.

(** ** Special values: the error paths of the arithmetic

    The methods have no error result; what goes wrong shows in the value:
    NaN once an operation had no result, an infinity after an overflow. *)

Section Special.
Context {F : Type} {ops : Float64 F} {ok : Float64Correct F}.

Implicit Types (c : Calculator F) (x : F) (l : list (Operation F)).

(** [subtract] is [add] of the opposite, on every datum. *)
Theorem subtract_add_opp c x :
  denote (subtract c x) = b64_add (denote c) (b64_opp (to_spec x)).
Proof. denote_ops. apply b64_sub_add_opp. Qed.

Lemma is_nan_true (d : b64) : is_nan d = true <-> d = b64_nan.
Proof. destruct d; split; intros; reflexivity || discriminate. Qed.

Lemma apply_op_nan c (op : Operation F) :
  is_nan (denote c) = true -> is_nan (denote (apply_op c op)) = true.
Proof.
  rewrite !is_nan_true. destruct op; denote_ops; now intros ->.
Qed.

Lemma apply_op_nan_amount c (op : Operation F) :
  is_nan (to_spec (amount_of op)) = true -> is_nan (denote (apply_op c op)) = true.
Proof.
  rewrite !is_nan_true. destruct op; cbn [amount_of]; denote_ops; intros ->;
    now autorewrite with b64.
Qed.

Lemma run_from_nan l c :
  is_nan (denote c) = true -> is_nan (denote (run l c)) = true.
Proof.
  revert c; induction l as [|op l IH]; intros c H; [exact H|].
  rewrite run_cons. now apply IH, apply_op_nan.
Qed.

(** NaN is absorbing: once a sequence of operations has left NaN in
    the calculator, no continuation of the sequence brings it back to a
    number. *)
Theorem run_nan_absorbing l1 l2 c :
  is_nan (denote (run l1 c)) = true -> is_nan (denote (run (l1 ++ l2) c)) = true.
Proof. rewrite run_app. apply run_from_nan. Qed.

(** One NaN amount anywhere in a sequence makes the result NaN,
    whatever the calculator held and whatever follows. *)
Theorem run_nan_amount l c (op : Operation F) :
  In op l -> is_nan (to_spec (amount_of op)) = true ->
  is_nan (denote (run l c)) = true.
Proof.
  intros Hin Hop. apply in_split in Hin as (l1 & l2 & ->).
  rewrite run_app, run_cons. now apply run_from_nan, apply_op_nan_amount.
Qed.

(** C23. Where NaN comes from in [add]: the calculator held NaN, the
    amount is NaN, or the two are infinities of opposite signs.  Rounding
    and overflow never make a NaN. *)
Theorem add_nan_iff c x :
  is_nan (denote (add c x))
  = is_nan (denote c) || is_nan (to_spec x) || opposite_infinities (denote c) (to_spec x).
Proof. rewrite denote_add. apply b64_add_nan_iff. Qed.

(** Where NaN comes from in [subtract]: the calculator held NaN,
    the amount is NaN, or the two are infinities of the same sign. *)
Theorem subtract_nan_iff c x :
  is_nan (denote (subtract c x))
  = is_nan (denote c) || is_nan (to_spec x) || same_infinities (denote c) (to_spec x).
Proof. rewrite denote_subtract. apply b64_sub_nan_iff. Qed.

(** The amounts of a sequence are finite: neither NaN nor infinite. *)
Definition finite_amounts l : bool :=
  forallb (fun op => is_finite (to_spec (amount_of op))) l.

Lemma finite_not_special (d e : b64) :
  is_finite e = true ->
  is_nan e = false /\ opposite_infinities d e = false /\ same_infinities d e = false.
Proof. destruct e, d; try discriminate; auto. Qed.

Lemma apply_op_not_nan c (op : Operation F) :
  is_nan (denote c) = false -> is_finite (to_spec (amount_of op)) = true ->
  is_nan (denote (apply_op c op)) = false.
Proof.
  intros Hc Hop. destruct (finite_not_special (denote c) _ Hop) as (Hn & Ho & Hs).
  destruct op; cbn [apply_op amount_of] in *;
    rewrite ?denote_add, ?denote_subtract, ?b64_add_nan_iff, ?b64_sub_nan_iff, Hc, Hn, ?Ho, ?Hs;
    reflexivity.
Qed.

Lemma run_not_nan_from l c :
  is_nan (denote c) = false -> finite_amounts l = true ->
  is_nan (denote (run l c)) = false.
Proof.
  revert c; induction l as [|op l IH]; intros c Hc Hl; [exact Hc|].
  cbn [finite_amounts forallb] in Hl. apply andb_true_iff in Hl as [Hop Hl].
  rewrite run_cons. apply IH; [now apply apply_op_not_nan | exact Hl].
Qed.

(** C27. Finite amounts never lead to NaN: from [new], whatever finite
    amounts are added and subtracted, the calculator holds a number or,
    after an overflow, an infinity. *)
Theorem run_not_nan l :
  finite_amounts l = true -> is_nan (denote (run l new)) = false.
Proof. apply run_not_nan_from. now rewrite denote_new. Qed.

(** C34. Adding an infinity and subtracting it again leaves NaN, whatever
    the calculator held before: the two operations do not cancel. *)
Theorem add_subtract_inf c x (s : bool) :
  to_spec x = b64_inf s -> denote (subtract (add c x) x) = b64_nan.
Proof.
  denote_ops. intros ->.
  destruct (to_spec (value c)) as [s'|s'| |s' m e], s; try destruct s'; reflexivity.
Qed.

(** ** Overflow *)

(** The greatest finite datum, [f64::MAX]: [(2^53 - 1) * 2^971]. *)
Definition f64_max : b64 := S754_finite false 9007199254740991 971.

Lemma apply_op_inf c (op : Operation F) (s : bool) :
  denote c = b64_inf s -> is_finite (to_spec (amount_of op)) = true ->
  denote (apply_op c op) = b64_inf s.
Proof.
  intros Hc Hop. destruct op; cbn [apply_op amount_of] in *;
    rewrite ?denote_add, ?denote_subtract, Hc;
    [now apply b64_add_inf_finite | now apply b64_sub_inf_finite].
Qed.

(** An infinity stays, whatever finite amounts follow. *)
Lemma run_from_inf l c (s : bool) :
  denote c = b64_inf s -> finite_amounts l = true -> denote (run l c) = b64_inf s.
Proof.
  revert c; induction l as [|op l IH]; intros c Hc Hl; [exact Hc|].
  cbn [finite_amounts forallb] in Hl. apply andb_true_iff in Hl as [Hop Hl].
  rewrite run_cons. apply IH; [now apply apply_op_inf | exact Hl].
Qed.

(** C25. Overflow is for ever: [add(f64::MAX).add(f64::MAX)] leaves
    [+inf], finite as the amounts are, and no sequence of finite amounts
    after it brings the calculator back to a number, whatever the
    algebraic sum of the amounts is. *)
Theorem run_overflow_absorbing x l :
  to_spec x = f64_max -> finite_amounts l = true ->
  denote (run l (add (add new x) x)) = b64_inf false.
Proof.
  intros Hx Hl. apply run_from_inf; [|exact Hl].
  rewrite !denote_add, denote_new, Hx. now vm_compute.
Qed.

End Special.

(** ** Integer sequences on any implementation and on the model

    A sequence of integer literals denotes the same datum on every correct
    implementation, so its result can be computed on the model. *)

Definition literals_ok (l : list (Operation Z)) : bool :=
  forallb (fun op => Z.abs (amount_of op) <? lit_bound) l.

Section Transfer.
Context {F : Type} {ops : Float64 F} {ok : Float64Correct F}.

Lemma literal_ops_to_spec (l : list (Operation Z)) :
  literals_ok l = true ->
  map (map_op to_spec) (literal_ops (F := F) l) = literal_ops (F := b64) l.
Proof.
  unfold literals_ok, literal_ops. induction l as [|op l IH]; [reflexivity|].
  cbn [forallb map]. intros H. boolZ. f_equal; [|now apply IH].
  destruct op; cbn [map_op amount_of] in *; f_equal; now apply to_spec_lit.
Qed.

(** The result of an integer sequence from [new] on any correct
    implementation is its result on the model. *)
Theorem run_literals_model (l : list (Operation Z)) :
  literals_ok l = true ->
  denote (run (literal_ops l) (new (F := F)))
  = get_value (run (literal_ops (F := b64) l) new).
Proof.
  intros H.
  transitivity (get_value (abstract (run (literal_ops l) (new (F := F)))));
    [reflexivity|].
  now rewrite abstract_run, abstract_new, literal_ops_to_spec.
Qed.

(** ** Where floating point departs from the exact calculator *)

(** Two sequences with the same operations in a different order. *)
Definition order_a : list (Operation Z) := [Add (2 ^ 53); Add 1; Subtract (2 ^ 53)].
Definition order_b : list (Operation Z) := [Add (2 ^ 53); Subtract (2 ^ 53); Add 1].

(** C2. The result depends on the order of the operations: two
    permutations of the same three operations, whose exact results agree,
    leave different values, [0.0] and [1.0]. *)
Theorem run_order_matters :
  Permutation order_a order_b /\
  run_exact order_a 0 = run_exact order_b 0 /\
  denote (run (literal_ops order_a) (new (F := F))) = b64_of_Z 0 /\
  denote (run (literal_ops order_b) (new (F := F))) = b64_of_Z 1.
Proof.
  split; [apply perm_skip, perm_swap|]. split; [reflexivity|].
  split; rewrite run_literals_model by reflexivity; reflexivity.
Qed.

(** C3. The bound of the exactness theorem is tight: one step past
    [2^53] the sum is rounded, and subtracting what was added does not
    restore the value. *)
Theorem add_subtract_not_inverse :
  denote (run (literal_ops [Add (2 ^ 53); Add 1]) (new (F := F))) = b64_of_Z (2 ^ 53) /\
  denote (run (literal_ops [Add (2 ^ 53); Add 1; Subtract 1]) (new (F := F)))
  = b64_of_Z (2 ^ 53 - 1).
Proof. split; rewrite run_literals_model by reflexivity; reflexivity. Qed.

End Transfer.

(** The chained call of the crate's test on the processor's floats:
    [new().add(5.0).subtract(2.0)] holds [3.0]. *)
Lemma run_exact_refinement_witness :
  denote (run (literal_ops [Add 5; Subtract 2]) (new (F := PrimFloat.float)))
  = b64_of_Z (run_exact [Add 5; Subtract 2] 0).
Proof.
  exact (run_exact_refinement (ok := Float64Correct_prim) [Add 5; Subtract 2] eq_refl).
Defined.


Lemma run_nan_absorbing_witness :
  is_nan (denote (run ([Add b64_nan] ++ [Add b64_zero]) (new (F := b64)))) = true.
Proof.
  exact (run_nan_absorbing (ok := Float64Correct_b64)
           [Add b64_nan] [Add b64_zero] new eq_refl).
Defined.

Lemma run_nan_amount_witness :
  is_nan (denote (run [Add (b64_of_Z 1); Subtract b64_nan; Add (b64_of_Z 2)]
                      (new (F := b64)))) = true.
Proof.
  exact (run_nan_amount (ok := Float64Correct_b64)
           [Add (b64_of_Z 1); Subtract b64_nan; Add (b64_of_Z 2)] new
           (Subtract b64_nan) (or_intror (or_introl eq_refl)) eq_refl).
Defined.

Lemma add_subtract_inf_witness :
  denote (subtract (add (new (F := PrimFloat.float)) PrimFloat.infinity) PrimFloat.infinity)
  = b64_nan.
Proof.
  exact (add_subtract_inf (ok := Float64Correct_prim) new PrimFloat.infinity false eq_refl).
Defined.

Lemma run_order_matters_witness :
  Permutation order_a order_b /\
  run_exact order_a 0 = run_exact order_b 0 /\
  denote (run (literal_ops order_a) (new (F := PrimFloat.float))) = b64_of_Z 0 /\
  denote (run (literal_ops order_b) (new (F := PrimFloat.float))) = b64_of_Z 1.
Proof. exact (run_order_matters (ok := Float64Correct_prim)). Defined.

Lemma add_subtract_not_inverse_witness :
  denote (run (literal_ops [Add (2 ^ 53); Add 1]) (new (F := PrimFloat.float)))
  = b64_of_Z (2 ^ 53) /\
  denote (run (literal_ops [Add (2 ^ 53); Add 1; Subtract 1]) (new (F := PrimFloat.float)))
  = b64_of_Z (2 ^ 53 - 1).
Proof. exact (add_subtract_not_inverse (ok := Float64Correct_prim)). Defined.

Lemma add_exact_witness :
  denote (add (new (F := PrimFloat.float)) (f64_lit 5)) = b64_of_Z (0 + 5).
Proof. exact (add_exact (ok := Float64Correct_prim) new 0 5 eq_refl eq_refl eq_refl). Defined.

Lemma subtract_exact_witness :
  denote (subtract (add (new (F := PrimFloat.float)) (f64_lit 5)) (f64_lit 2))
  = b64_of_Z (5 - 2).
Proof.
  exact (subtract_exact (ok := Float64Correct_prim) (add new (f64_lit 5)) 5 2
           eq_refl eq_refl eq_refl).
Defined.


Lemma run_order_safe_witness :
  denote (run (literal_ops [Add 10; Subtract 3]) (new (F := PrimFloat.float)))
  = denote (run (literal_ops [Subtract 3; Add 10]) (new (F := PrimFloat.float))).
Proof.
  exact (run_order_safe (ok := Float64Correct_prim) [Add 10; Subtract 3] [Subtract 3; Add 10]
           (perm_swap _ _ []) eq_refl eq_refl).
Defined.

Lemma subtract_add_opp_witness :
  denote (subtract (new (F := PrimFloat.float)) (f64_lit 2))
  = b64_add (denote (new (F := PrimFloat.float))) (b64_opp (to_spec (f64_lit (F := PrimFloat.float) 2))).
Proof. exact (subtract_add_opp (ok := Float64Correct_prim) new (f64_lit 2)). Defined.

Lemma add_wf_witness : wf (add (new (F := b64)) (b64_of_Z 5)) = true.
Proof. exact (add_wf (ok := Float64Correct_b64) new (b64_of_Z 5) eq_refl eq_refl). Defined.

Lemma subtract_wf_witness : wf (subtract (new (F := b64)) (b64_inf false)) = true.
Proof.
  exact (subtract_wf (ok := Float64Correct_b64) new (b64_inf false) eq_refl eq_refl).
Defined.


Lemma run_concrete_witness :
  run (map concrete_op [Add (b64_of_Z 5); Subtract (b64_of_Z 2)]) new
  = concrete (run [Add (b64_of_Z 5); Subtract (b64_of_Z 2)] new).
Proof. exact (run_concrete [Add (b64_of_Z 5); Subtract (b64_of_Z 2)] eq_refl). Defined.

Lemma add_nan_iff_witness :
  is_nan (denote (add (add (new (F := PrimFloat.float)) PrimFloat.infinity)
                    PrimFloat.neg_infinity)) = true.
Proof.
  exact (add_nan_iff (ok := Float64Correct_prim)
           (add new PrimFloat.infinity) PrimFloat.neg_infinity).
Defined.

Lemma subtract_nan_iff_witness :
  is_nan (denote (subtract (new (F := PrimFloat.float)) (f64_lit 2))) = false.
Proof. exact (subtract_nan_iff (ok := Float64Correct_prim) new (f64_lit 2)). Defined.

(** The amounts sum to zero and the calculator holds [+inf]. *)
Lemma run_overflow_absorbing_witness :
  denote (run [Subtract f64_max; Subtract f64_max] (add (add (new (F := b64)) f64_max) f64_max))
  = b64_inf false.
Proof.
  exact (run_overflow_absorbing (ok := Float64Correct_b64) f64_max
           [Subtract f64_max; Subtract f64_max] eq_refl eq_refl).
Defined.

(** Where overflow starts: [f64::MAX + 2^970] is half way to [2^1024]
    and rounds to [+inf]; with the datum just below [2^970] the sum
    rounds back to [f64::MAX]. *)
Example add_overflow_threshold :
  let c := add (new (F := b64)) f64_max in
  denote (add c (S754_finite false 4503599627370496 918)) = b64_inf false /\
  denote (add c (S754_finite false 9007199254740991 917)) = f64_max.
Proof. now vm_compute. Qed.

Lemma run_not_nan_witness :
  is_nan (denote (run [Add (f64_lit 5); Subtract (f64_lit 2)] (new (F := PrimFloat.float))))
  = false.
Proof.
  exact (run_not_nan (ok := Float64Correct_prim) [Add (f64_lit 5); Subtract (f64_lit 2)]
           eq_refl).
Defined.
