(* ===== verification/Bound.v ===== *)
(** * Bound: how far the calculator is from the exact sum

    The specification asks that the calculator hold the algebraic sum of
    what was added less what was subtracted.  In binary64 that holds up
    to rounding.  This file says how far off the calculator can be:
    [add_accurate] and [subtract_accurate], each call has relative error
    at most [2^-53]; [run_error_bound], after [n] calls the value is
    within [((1 + 2^-53)^n - 1)] times the sum of the magnitudes of the
    amounts, as long as no call overflows. *)

From Stdlib Require Import ZArith Lia Bool List SpecFloat QArith Qabs Qpower Lqa.
From S2P Require Import Prelude Binary64 Valid Accuracy Float64 Calculator.
Import ListNotations.

#[local] Open Scope Q_scope.

(** ** Accumulation of relative errors *)

(** One step of the error analysis, on magnitudes: [w] bounds the exact
    result of the call, [e1] its rounding error, [x1] the value after the
    call, [r1] the error of the calls that follow. *)
Lemma error_step (u g A B e1 x1 w r1 : Q) :
  0 <= u -> 1 <= g -> 0 <= A -> 0 <= B ->
  w <= B -> e1 <= u * w -> x1 <= w + e1 -> r1 <= (g - 1) * (x1 + A) ->
  r1 + e1 <= ((1 + u) * g - 1) * (B + A).
Proof.
  intros Hu Hg HA HB Hw He Hx Hr.
  assert (U : u * w <= u * B) by nra.
  assert (G : (g - 1) * (x1 + A) <= (g - 1) * (B + u * B + A)) by nra.
  assert (P : 0 <= u * g * A) by (repeat apply Qmult_le_0_compat; lra).
  lra.
Qed.

(** One step of the overflow analysis: when the bound on all that is to
    come is below the threshold [T], so is the exact result [w] of this
    call with its rounding, and so is the bound on what comes after. *)
Lemma overflow_step (u g V a A w T : Q) :
  0 <= u -> 1 <= g -> 0 <= V -> 0 <= a -> 0 <= A -> 0 <= w ->
  w <= V + a -> (1 + u) * g * (V + (a + A)) < T ->
  (1 + u) * w < T /\ g * ((1 + u) * (V + a) + A) < T.
Proof.
  intros Hu Hg HV Ha HA Hw Hb HT.
  assert (P1 : 0 <= u * A) by (apply Qmult_le_0_compat; lra).
  assert (P2 : 0 <= (g - 1) * ((1 + u) * (V + a + A))) by (apply Qmult_le_0_compat; nra).
  assert (P3 : 0 <= g * (u * A)) by (apply Qmult_le_0_compat; lra).
  split; nra.
Qed.

Lemma unit_roundoff_pos : 0 <= unit_roundoff.
Proof. apply Qlt_le_weak, Qpow2_pos. Qed.

(** [(1 + 2^-53)^n], the factor by which [n] roundings can inflate. *)
Fixpoint growth (n : nat) : Q :=
  match n with
  | O => 1
  | S n' => (1 + unit_roundoff) * growth n'
  end.

Lemma growth_ge_1 (n : nat) : 1 <= growth n.
Proof.
  induction n as [|n IH]; cbn [growth]; [lra|].
  pose proof unit_roundoff_pos. nra.
Qed.

Lemma growth_power (n : nat) : growth n == (1 + unit_roundoff) ^ Z.of_nat n.
Proof.
  induction n as [|n IH]; [reflexivity|].
  cbn [growth]. rewrite IH, Nat2Z.inj_succ, <- Z.add_1_l.
  rewrite Qpower_plus; [reflexivity|]. pose proof unit_roundoff_pos. lra.
Qed.

Section Bound.
Context {F : Type} {ops : Float64 F} {ok : Float64Correct F}.

(** ** Values *)

(** The number a calculator holds and the number an amount stands for. *)
Definition value_of (c : Calculator F) : Q := b64_to_Q (denote c).

Definition amount_value (x : F) : Q := b64_to_Q (to_spec x).

(** What an operation contributes to the sum. *)
Definition op_value (op : Operation F) : Q :=
  match op with
  | Add x => amount_value x
  | Subtract x => - amount_value x
  end.

(** The algebraic sum of the specification, and the sum of the
    magnitudes. *)
Definition exact_sum (l : list (Operation F)) : Q :=
  fold_right (fun op s => op_value op + s) 0 l.

Definition abs_sum (l : list (Operation F)) : Q :=
  fold_right (fun op s => Qabs (op_value op) + s) 0 l.

(** No overflow: the calculator holds a finite datum before and after
    every operation of the sequence. *)
Fixpoint finite_run (l : list (Operation F)) (c : Calculator F) : bool :=
  is_finite (denote c)
  && match l with
     | [] => true
     | op :: l' => finite_run l' (apply_op c op)
     end.

Lemma finite_run_head (l : list (Operation F)) (c : Calculator F) :
  finite_run l c = true -> is_finite (denote c) = true.
Proof. destruct l; cbn [finite_run]; intros H; now apply andb_true_iff in H. Qed.

Lemma abs_sum_nonneg (l : list (Operation F)) : 0 <= abs_sum l.
Proof.
  induction l as [|op l IH]; cbn [abs_sum fold_right]; [lra|].
  fold (abs_sum l). pose proof (Qabs_nonneg (op_value op)). lra.
Qed.

(** ** One call *)

Lemma apply_op_accurate (c : Calculator F) (op : Operation F) :
  wf c = true -> b64_valid (to_spec (amount_of op)) = true ->
  is_finite (denote c) = true -> is_finite (to_spec (amount_of op)) = true ->
  is_finite (denote (apply_op c op)) = true ->
  Qabs (value_of (apply_op c op) - (value_of c + op_value op))
  <= unit_roundoff * Qabs (value_of c + op_value op).
Proof.
  unfold wf, value_of. destruct op as [x|x]; cbn [apply_op amount_of op_value];
    rewrite ?denote_add, ?denote_subtract; intros Vc Vx Fc Fx Fr.
  - now apply b64_add_accurate.
  - now apply b64_sub_accurate.
Qed.

(** C20. [add] is accurate: on finite data, when the sum does not
    overflow, the value after the call is within relative error [2^-53]
    of the exact sum of the value before and the amount. *)
Theorem add_accurate (c : Calculator F) (x : F) :
  wf c = true -> b64_valid (to_spec x) = true ->
  is_finite (denote c) = true -> is_finite (to_spec x) = true ->
  is_finite (denote (add c x)) = true ->
  Qabs (value_of (add c x) - (value_of c + amount_value x))
  <= unit_roundoff * Qabs (value_of c + amount_value x).
Proof. exact (apply_op_accurate c (Add x)). Qed.

(** [subtract] is accurate: on finite data, when the difference
    does not overflow, the value after the call is within relative error
    [2^-53] of the exact difference of the value before and the amount. *)
Theorem subtract_accurate (c : Calculator F) (x : F) :
  wf c = true -> b64_valid (to_spec x) = true ->
  is_finite (denote c) = true -> is_finite (to_spec x) = true ->
  is_finite (denote (subtract c x)) = true ->
  Qabs (value_of (subtract c x) - (value_of c - amount_value x))
  <= unit_roundoff * Qabs (value_of c - amount_value x).
Proof. exact (apply_op_accurate c (Subtract x)). Qed.

(** ** A sequence of calls *)

Lemma run_error_from (l : list (Operation F)) (c : Calculator F) :
  wf c = true -> valid_amounts l = true -> finite_amounts l = true ->
  finite_run l c = true ->
  Qabs (value_of (run l c) - (value_of c + exact_sum l))
  <= (growth (length l) - 1) * (Qabs (value_of c) + abs_sum l).
Proof.
  revert c; induction l as [|op l IH]; intros c Wc Vl Fl Rl.
  - rewrite run_nil. cbn [exact_sum abs_sum fold_right length growth].
    setoid_replace (value_of c - (value_of c + 0)) with 0 by ring.
    change (Qabs 0) with 0. pose proof (Qabs_nonneg (value_of c)). lra.
  - cbn [valid_amounts finite_amounts forallb] in Vl, Fl.
    apply andb_true_iff in Vl as [Vop Vl], Fl as [Fop Fl].
    cbn [finite_run] in Rl. apply andb_true_iff in Rl as [Fc Rl].
    pose proof (finite_run_head _ _ Rl) as Fc'.
    pose proof (apply_op_accurate c op Wc Vop Fc Fop Fc') as Step.
    specialize (IH (apply_op c op) (apply_op_wf c op Wc Vop) Vl Fl Rl).
    rewrite run_cons. cbn [exact_sum abs_sum fold_right length growth].
    fold (exact_sum l) (abs_sum l).
    set (v := value_of c) in *. set (a := op_value op) in *.
    set (v' := value_of (apply_op c op)) in *. set (r := value_of (run l (apply_op c op))) in *.
    eapply Qle_trans.
    { setoid_replace (r - (v + (a + exact_sum l)))
        with ((r - (v' + exact_sum l)) + (v' - (v + a))) by ring.
      apply Qabs_triangle. }
    setoid_replace (Qabs v + (Qabs a + abs_sum l)) with ((Qabs v + Qabs a) + abs_sum l)
      by ring.
    apply (error_step unit_roundoff (growth (length l)) (abs_sum l) (Qabs v + Qabs a)
             (Qabs (v' - (v + a))) (Qabs v') (Qabs (v + a)));
      try assumption.
    + apply unit_roundoff_pos.
    + apply growth_ge_1.
    + apply abs_sum_nonneg.
    + pose proof (Qabs_nonneg v). pose proof (Qabs_nonneg a). lra.
    + apply Qabs_triangle.
    + setoid_replace v' with ((v + a) + (v' - (v + a))) at 1 by ring. apply Qabs_triangle.
Qed.

(** The accumulated error from [new], when no call overflows. *)
Lemma run_error_finite (l : list (Operation F)) :
  valid_amounts l = true -> finite_amounts l = true -> finite_run l new = true ->
  Qabs (value_of (run l new) - exact_sum l) <= (growth (length l) - 1) * abs_sum l.
Proof.
  intros Vl Fl Rl. pose proof (run_error_from l new new_wf Vl Fl Rl) as H.
  assert (V0 : value_of (new (F := F)) == 0)
    by (unfold value_of; now rewrite denote_new).
  rewrite V0 in H. setoid_replace (0 + exact_sum l) with (exact_sum l) in H by ring.
  change (Qabs 0) with 0 in H.
  now setoid_replace (0 + abs_sum l) with (abs_sum l) in H by ring.
Qed.

(** ** When no call overflows *)

Lemma apply_op_no_overflow (c : Calculator F) (op : Operation F) :
  wf c = true -> b64_valid (to_spec (amount_of op)) = true ->
  is_finite (denote c) = true -> is_finite (to_spec (amount_of op)) = true ->
  (1 + unit_roundoff) * Qabs (value_of c + op_value op) < overflow_threshold ->
  is_finite (denote (apply_op c op)) = true.
Proof.
  unfold wf, value_of. destruct op as [x|x]; cbn [apply_op amount_of op_value];
    rewrite ?denote_add, ?denote_subtract; intros Vc Vx Fc Fx B.
  - now apply b64_add_no_overflow.
  - now apply b64_sub_no_overflow.
Qed.

(** From a finite calculator of magnitude at most [V], a sequence whose
    magnitudes, inflated by the roundings, stay below the threshold never
    overflows. *)
Lemma finite_run_from (l : list (Operation F)) (c : Calculator F) (V : Q) :
  wf c = true -> valid_amounts l = true -> finite_amounts l = true ->
  is_finite (denote c) = true -> Qabs (value_of c) <= V ->
  growth (length l) * (V + abs_sum l) < overflow_threshold ->
  finite_run l c = true.
Proof.
  revert c V; induction l as [|op l IH]; intros c V Wc Vl Fl Fc HV HT;
    cbn [finite_run]; rewrite Fc; [reflexivity|]. cbn [andb].
  cbn [valid_amounts finite_amounts forallb] in Vl, Fl.
  apply andb_true_iff in Vl as [Vop Vl], Fl as [Fop Fl].
  cbn [length growth abs_sum fold_right] in HT. fold (abs_sum l) in HT.
  set (v := value_of c) in *. set (a := op_value op) in *.
  pose proof (Qabs_nonneg v). pose proof (Qabs_nonneg a). pose proof (Qabs_triangle v a).
  destruct (overflow_step unit_roundoff (growth (length l)) V (Qabs a) (abs_sum l)
              (Qabs (v + a)) overflow_threshold) as [S1 S2];
    auto using unit_roundoff_pos, growth_ge_1, abs_sum_nonneg, Qabs_nonneg; try lra.
  pose proof (apply_op_no_overflow c op Wc Vop Fc Fop S1) as Fc'.
  pose proof (apply_op_accurate c op Wc Vop Fc Fop Fc') as Acc. fold v a in Acc.
  apply (IH _ ((1 + unit_roundoff) * (V + Qabs a)));
    [now apply apply_op_wf | assumption | assumption | exact Fc' | | exact S2].
  set (v' := value_of (apply_op c op)) in *.
  assert (T : Qabs v' <= Qabs (v + a) + Qabs (v' - (v + a))).
  { setoid_replace v' with ((v + a) + (v' - (v + a))) at 1 by ring. apply Qabs_triangle. }
  pose proof unit_roundoff_pos. nra.
Qed.

Lemma finite_run_new (l : list (Operation F)) :
  valid_amounts l = true -> finite_amounts l = true ->
  (1 + unit_roundoff) ^ Z.of_nat (length l) * abs_sum l < overflow_threshold ->
  finite_run l new = true.
Proof.
  intros Vl Fl HT. apply (finite_run_from l new 0); try assumption.
  - apply new_wf.
  - unfold denote. cbn. now rewrite to_spec_zero.
  - unfold value_of. rewrite denote_new. cbn. lra.
  - rewrite growth_power. now setoid_replace (0 + abs_sum l) with (abs_sum l) by ring.
Qed.

(** A run without overflow holds a finite datum after each of its
    prefixes. *)
Lemma finite_run_prefix (l1 l2 : list (Operation F)) (c : Calculator F) :
  finite_run (l1 ++ l2) c = true -> is_finite (denote (run l1 c)) = true.
Proof.
  revert c; induction l1 as [|op l1 IH]; intros c H; [now apply finite_run_head in H|].
  cbn [app finite_run] in H. apply andb_true_iff in H as [_ H].
  rewrite run_cons. now apply IH.
Qed.

(** C19. No overflow below the threshold: from [new], in a sequence of
    [n] calls with valid finite amounts whose magnitudes sum, inflated by
    [(1 + 2^-53)^n], to less than [2^1024], the calculator holds a finite
    value after every call. *)
Theorem run_no_overflow (l1 l2 : list (Operation F)) :
  valid_amounts (l1 ++ l2) = true -> finite_amounts (l1 ++ l2) = true ->
  (1 + unit_roundoff) ^ Z.of_nat (length (l1 ++ l2)) * abs_sum (l1 ++ l2)
  < overflow_threshold ->
  is_finite (denote (run l1 new)) = true.
Proof.
  intros Vl Fl HT. apply (finite_run_prefix l1 l2). now apply finite_run_new.
Qed.

(** C18. The accumulated error of the calculator: from [new], after a
    sequence of [n] calls with valid finite amounts whose magnitudes sum,
    inflated by [(1 + 2^-53)^n], to less than [2^1024], the value differs
    from the algebraic sum of the amounts by at most
    [((1 + 2^-53)^n - 1)] times the sum of their magnitudes. *)
Theorem run_error_bound (l : list (Operation F)) :
  valid_amounts l = true -> finite_amounts l = true ->
  (1 + unit_roundoff) ^ Z.of_nat (length l) * abs_sum l < overflow_threshold ->
  Qabs (value_of (run l new) - exact_sum l)
  <= ((1 + unit_roundoff) ^ Z.of_nat (length l) - 1) * abs_sum l.
Proof.
  intros Vl Fl HT. rewrite <- growth_power.
  apply run_error_finite; try assumption. now apply finite_run_new.
Qed.

End Bound.

(** The theorems at the chained call of the crate's test, on the
    processor's floats. *)
Lemma add_accurate_witness :
  Qabs (value_of (add (new (F := PrimFloat.float)) (f64_lit 5))
        - (value_of (new (F := PrimFloat.float)) + amount_value (f64_lit (F := PrimFloat.float) 5)))
  <= unit_roundoff
     * Qabs (value_of (new (F := PrimFloat.float)) + amount_value (f64_lit (F := PrimFloat.float) 5)).
Proof.
  exact (add_accurate (ok := Float64Correct_prim) new (f64_lit 5)
           eq_refl eq_refl eq_refl eq_refl eq_refl).
Defined.

Lemma subtract_accurate_witness :
  Qabs (value_of (subtract (add (new (F := PrimFloat.float)) (f64_lit 5)) (f64_lit 2))
        - (value_of (add (new (F := PrimFloat.float)) (f64_lit 5))
           - amount_value (f64_lit (F := PrimFloat.float) 2)))
  <= unit_roundoff
     * Qabs (value_of (add (new (F := PrimFloat.float)) (f64_lit 5))
             - amount_value (f64_lit (F := PrimFloat.float) 2)).
Proof.
  exact (subtract_accurate (ok := Float64Correct_prim) (add new (f64_lit 5)) (f64_lit 2)
           eq_refl eq_refl eq_refl eq_refl eq_refl).
Defined.

Lemma run_error_bound_witness :
  Qabs (value_of (run [Add (f64_lit 5); Subtract (f64_lit 2)] (new (F := PrimFloat.float)))
        - exact_sum [Add (f64_lit (F := PrimFloat.float) 5); Subtract (f64_lit 2)])
  <= ((1 + unit_roundoff) ^ Z.of_nat (length [Add (f64_lit (F := PrimFloat.float) 5); Subtract (f64_lit 2)]) - 1)
     * abs_sum [Add (f64_lit (F := PrimFloat.float) 5); Subtract (f64_lit 2)].
Proof.
  exact (run_error_bound (ok := Float64Correct_prim) [Add (f64_lit 5); Subtract (f64_lit 2)]
           eq_refl eq_refl eq_refl).
Defined.

Lemma run_no_overflow_witness :
  is_finite (denote (run [Add (f64_lit 5)] (new (F := PrimFloat.float)))) = true.
Proof.
  exact (run_no_overflow (ok := Float64Correct_prim) [Add (f64_lit 5)] [Subtract (f64_lit 2)]
           eq_refl eq_refl eq_refl).
Defined.
