(* ===== verification/Observe.v ===== *)
(** * Observe: calculators up to the sign of zero

    What can be observed of a calculator is its value, and [==] cannot
    tell [0.0] from [-0.0].  Two calculators are equivalent when their
    values are equal up to the sign of a zero; the methods respect the
    equivalence, so equivalent calculators stay equivalent whatever is
    done to them. *)

From Stdlib Require Import ZArith Bool List SpecFloat Setoid Morphisms.
From S2P Require Import Prelude Binary64 Float64 Calculator.
Import ListNotations.


Section Observation.
Context {F : Type} {ops : Float64 F} {ok : Float64Correct F}.

Definition calc_equiv (c1 c2 : Calculator F) : Prop :=
  b64_equiv (denote c1) (denote c2).

Definition amount_equiv (x y : F) : Prop := b64_equiv (to_spec x) (to_spec y).

(** The same method with equivalent amounts. *)
Definition op_equiv (o1 o2 : Operation F) : Prop :=
  match o1, o2 with
  | Add x, Add y | Subtract x, Subtract y => amount_equiv x y
  | _, _ => False
  end.

#[export] Instance calc_equiv_Equivalence : Equivalence calc_equiv.
Proof.
  split; unfold calc_equiv.
  - intros c. reflexivity.
  - intros c1 c2 H. now symmetry.
  - intros c1 c2 c3 H1 H2. now transitivity (denote c2).
Qed.

#[export] Instance amount_equiv_Equivalence : Equivalence amount_equiv.
Proof.
  split; unfold amount_equiv.
  - intros x. reflexivity.
  - intros x y H. now symmetry.
  - intros x y z H1 H2. now transitivity (to_spec y).
Qed.

#[export] Instance add_Proper : Proper (calc_equiv ==> amount_equiv ==> calc_equiv) add.
Proof.
  intros c1 c2 Hc x y Hx. unfold calc_equiv, amount_equiv in *.
  rewrite !denote_add. now rewrite Hc, Hx.
Qed.

#[export] Instance subtract_Proper :
  Proper (calc_equiv ==> amount_equiv ==> calc_equiv) subtract.
Proof.
  intros c1 c2 Hc x y Hx. unfold calc_equiv, amount_equiv in *.
  rewrite !denote_subtract. now rewrite Hc, Hx.
Qed.

#[export] Instance apply_op_Proper : Proper (calc_equiv ==> op_equiv ==> calc_equiv) apply_op.
Proof.
  intros c1 c2 Hc [x|x] [y|y] Ho; cbn [op_equiv apply_op] in *; try easy; now rewrite Hc, Ho.
Qed.


End Observation.

