(* ===== verification/Greet.v ===== *)
(** * Greet: [greet] of [lib.rs] and the formatting it calls

    [greet] is [format!("Hello, {}!", name)].  A Rust [String] is a vector
    of bytes; [str] is that here.  The macro is expanded by the compiler
    into the literal pieces between the placeholders and the list of
    arguments ([parse_template]); at run time the pieces and the arguments
    are written alternately ([write]).

    Theorems: [greet] as a concatenation, its length, that it is injective,
    and the round trip with [ungreet], which strips the prefix and the
    suffix again. *)

From Stdlib Require Import List Bool String Lia.
From Stdlib.Strings Require Import Byte.
From S2P Require Import Prelude.
Import ListNotations.

(** ** Strings as bytes *)

Definition str : Type := list byte.

(** The bytes of a literal. *)
Definition bytes (s : string) : str := list_byte_of_string s.

(** ** The format machinery *)

Definition open_brace : byte := "{"%byte.
Definition close_brace : byte := "}"%byte.

(** Appending a byte to the first piece. *)
Definition push (c : byte) (ps : list str) : list str :=
  match ps with
  | [] => [[c]]
  | p :: ps' => (c :: p) :: ps'
  end.

(** The compiler's reading of a format string into literal pieces: [{}]
    ends a piece, [{{] and [}}] stand for one brace, a brace in any other
    position is refused ([None]). *)
Fixpoint parse_template (s : str) : option (list str) :=
  match s with
  | [] => Some [[]]
  | c :: r =>
      if Byte.eqb c open_brace then
        match r with
        | d :: r' =>
            if Byte.eqb d close_brace then option_map (cons []) (parse_template r')
            else if Byte.eqb d open_brace then option_map (push open_brace) (parse_template r')
            else None
        | [] => None
        end
      else if Byte.eqb c close_brace then
        match r with
        | d :: r' =>
            if Byte.eqb d close_brace then option_map (push close_brace) (parse_template r')
            else None
        | [] => None
        end
      else option_map (push c) (parse_template r)
  end.

(** The run-time half: piece, argument, piece, argument, ..., and the
    piece that is left. *)
Fixpoint write (pieces args : list str) : str :=
  match pieces, args with
  | p :: ps, a :: rest => p ++ a ++ write ps rest
  | p :: _, [] => p
  | [], _ => []
  end.

(** What the compiler checks: one argument per placeholder. *)
Definition arity_ok (pieces args : list str) : bool :=
  Nat.eqb (List.length pieces) (S (List.length args)).

(** ** [greet] *)

(** The pieces of ["Hello, {}!"]. *)
Definition greet_pieces : list str := [bytes "Hello, "; bytes "!"].

(** [pub fn greet(name: &str) -> String { format!("Hello, {}!", name) }] *)
Definition greet (name : str) : str := write greet_pieces [name].

(** ** Stripping a prefix and a suffix *)

Fixpoint strip_prefix (p s : str) : option str :=
  match p, s with
  | [], _ => Some s
  | x :: p', y :: s' => if Byte.eqb x y then strip_prefix p' s' else None
  | _ :: _, [] => None
  end.

Definition strip_suffix (p s : str) : option str :=
  option_map (@rev byte) (strip_prefix (rev p) (rev s)).

(** The inverse of [greet]: the name inside a greeting. *)
Definition ungreet (s : str) : option str :=
  match strip_prefix (bytes "Hello, ") s with
  | Some r => strip_suffix (bytes "!") r
  | None => None
  end.

(** ** The template *)

(** The pieces of [greet] are the compiler's reading of its format
    string, and the call has the argument the placeholder asks for. *)
Lemma greet_template :
  parse_template (bytes "Hello, {}!") = Some greet_pieces.
Proof. reflexivity. Qed.

Lemma greet_arity (name : str) : arity_ok greet_pieces [name] = true.
Proof. reflexivity. Qed.

Lemma byte_eqb_refl (b : byte) : Byte.eqb b b = true.
Proof. now apply byte_dec_lb. Qed.

Lemma byte_eqb_eq (a b : byte) : Byte.eqb a b = true <-> a = b.
Proof. split; [apply byte_dec_bl | apply byte_dec_lb]. Qed.

(** A string with no brace is one literal piece. *)
Lemma parse_template_plain (s : str) :
  forallb (fun c => negb (Byte.eqb c open_brace) && negb (Byte.eqb c close_brace)) s = true ->
  parse_template s = Some [s].
Proof.
  induction s as [|c s IH]; [reflexivity|]. cbn [forallb parse_template].
  intros H. apply andb_true_iff in H as [Hc Hs]. apply andb_true_iff in Hc as [Ho Hcl].
  apply negb_true_iff in Ho, Hcl. rewrite Ho, Hcl, (IH Hs). reflexivity.
Qed.

(** Writing a single piece with no argument is the piece. *)
Lemma write_single (p : str) : write [p] [] = p.
Proof. reflexivity. Qed.

(** ** [greet] as a concatenation *)

Lemma greet_eq (name : str) : greet name = bytes "Hello, " ++ name ++ bytes "!".
Proof. reflexivity. Qed.

(** The greeting is eight bytes longer than the name. *)
Lemma greet_length (name : str) : List.length (greet name) = List.length name + 8.
Proof. rewrite greet_eq, !length_app. simpl. lia. Qed.

(** [greet] is injective: the greeting determines the name. *)
Theorem greet_inj (a b : str) : greet a = greet b -> a = b.
Proof.
  rewrite !greet_eq. intros H.
  apply app_inv_head in H. now apply app_inv_tail in H.
Qed.

(** ** Prefix and suffix *)

Lemma strip_prefix_app (p s : str) : strip_prefix p (p ++ s) = Some s.
Proof.
  induction p as [|x p IH]; [reflexivity|].
  cbn [app strip_prefix]. now rewrite byte_eqb_refl.
Qed.

Lemma strip_prefix_some (p s r : str) : strip_prefix p s = Some r -> s = p ++ r.
Proof.
  revert s; induction p as [|x p IH]; intros s; cbn [strip_prefix].
  - now intros [= ->].
  - destruct s as [|y s]; [discriminate|].
    destruct (Byte.eqb x y) eqn:E; [|discriminate].
    apply byte_eqb_eq in E as ->. intros H. cbn [app]. f_equal. now apply IH.
Qed.

Lemma strip_suffix_app (p s : str) : strip_suffix p (s ++ p) = Some s.
Proof.
  unfold strip_suffix. rewrite rev_app_distr, strip_prefix_app. cbn [option_map].
  now rewrite rev_involutive.
Qed.

Lemma strip_suffix_some (p s r : str) : strip_suffix p s = Some r -> s = r ++ p.
Proof.
  unfold strip_suffix. destruct (strip_prefix (rev p) (rev s)) as [t|] eqn:E; [|discriminate].
  cbn [option_map]. intros [= <-]. apply strip_prefix_some in E.
  apply (f_equal (@rev byte)) in E. now rewrite rev_involutive, rev_app_distr, rev_involutive in E.
Qed.

(** ** The round trip *)

(** C10. [ungreet] is the inverse of [greet]: it recovers the name from a
    greeting, and whatever it accepts is the greeting of what it returns. *)
Theorem ungreet_greet (name s : str) : ungreet s = Some name <-> s = greet name.
Proof.
  unfold ungreet. rewrite greet_eq. split.
  - destruct (strip_prefix (bytes "Hello, ") s) as [r|] eqn:E; [|discriminate].
    intros H. apply strip_prefix_some in E. apply strip_suffix_some in H. congruence.
  - intros ->. now rewrite strip_prefix_app, strip_suffix_app.
Qed.
