(* ===== verification/Tests.v ===== *)
(** * Tests: the unit tests of [lib.rs]

    The module [tests] of [lib.rs] holds two tests, each a sequence of
    statements that ends in [assert_eq!].  The macro compares with [==] and
    panics when the comparison is false; a test passes when it returns
    without a panic.  [outcome] is that result, [assert_eq] the macro, and
    each test a value of [outcome].

    Theorems: both tests pass, the calculator test on every correct
    implementation of the arithmetic; and what [assert_eq!] means on
    [f64], where [==] is not reflexive. *)

From Stdlib Require Import ZArith Lia Bool List String SpecFloat Setoid Morphisms.
From Stdlib.Strings Require Import Byte.
From S2P Require Import Prelude Binary64 Rounding Exact Float64 Calculator Observe Greet.
Import ListNotations.

#[local] Open Scope Z_scope.

(** How a test ends. *)
Inductive outcome : Type :=
| Pass
| Panic.

(** [assert_eq!(left, right)]: panics unless [left == right]. *)
Definition assert_eq {A : Type} (eq : A -> A -> bool) (left right : A) : outcome :=
  if eq left right then Pass else Panic.

(** [==] on strings: byte by byte. *)
Fixpoint str_eq (a b : str) : bool :=
  match a, b with
  | [], [] => true
  | x :: a', y :: b' => Byte.eqb x y && str_eq a' b'
  | _, _ => false
  end.

Section CalculatorTest.
Context {F : Type} {ops : Float64 F}.

(** [fn test_calculator()]: a calculator from [new], [add(5.0)] chained
    with [subtract(2.0)], and the value compared with [3.0]. *)
Definition test_calculator : outcome :=
  let calc := new in
  let calc := subtract (add calc (f64_lit 5)) (f64_lit 2) in
  assert_eq f64_eq (get_value calc) (f64_lit 3).

(** The test with the two amounts and the expected value as parameters. *)
Definition calculator_case (a b expected : Z) : outcome :=
  let calc := new in
  let calc := subtract (add calc (f64_lit a)) (f64_lit b) in
  assert_eq f64_eq (get_value calc) (f64_lit expected).

End CalculatorTest.

(** [fn test_greet()]: [greet("World")] compared with ["Hello, World!"]. *)
Definition test_greet : outcome :=
  assert_eq str_eq (greet (bytes "World")) (bytes "Hello, World!").

(** ** Equality of strings *)

Lemma str_eq_true (a b : str) : str_eq a b = true <-> a = b.
Proof.
  revert b; induction a as [|x a IH]; intros [|y b]; cbn [str_eq];
    try (split; congruence).
  rewrite andb_true_iff, byte_eqb_eq, IH. split; [intros [-> ->] | intros [= -> ->]]; auto.
Qed.

(** ** What [assert_eq!] decides *)

Lemma assert_eq_pass {A : Type} (eq : A -> A -> bool) (l r : A) :
  assert_eq eq l r = Pass <-> eq l r = true.
Proof. unfold assert_eq. destruct (eq l r); split; congruence. Qed.

Section Laws.
Context {F : Type} {ops : Float64 F} {ok : Float64Correct F}.

(** C35. [assert_eq!] on [f64] passes exactly when the two sides denote
    the same datum and it is not NaN, or both are zeros (of any sign): a
    NaN result fails every such assertion, also against NaN. *)
Theorem assert_eq_f64 (l r : F) :
  assert_eq f64_eq l r = Pass <->
  (to_spec l = to_spec r /\ is_nan (to_spec l) = false) \/
  (is_zero (to_spec l) = true /\ is_zero (to_spec r) = true).
Proof. rewrite assert_eq_pass, to_spec_eq. apply b64_eqb_true_iff. Qed.

(** No assertion tells equivalent calculators apart: when two
    calculators hold values equal up to the sign of a zero, and so do the
    expected values, [assert_eq!] on [get_value] has the same outcome. *)
Theorem assert_eq_equiv (c1 c2 : Calculator F) (v1 v2 : F) :
  calc_equiv c1 c2 -> amount_equiv v1 v2 ->
  assert_eq f64_eq (get_value c1) v1 = assert_eq f64_eq (get_value c2) v2.
Proof.
  unfold calc_equiv, amount_equiv, denote, assert_eq. intros Hc Hv.
  rewrite !to_spec_eq. now rewrite Hc, Hv.
Qed.

(** The chained call of the test holds the exact difference. *)
Lemma denote_add_subtract (a b : Z) :
  safe a = true -> safe b = true ->
  denote (subtract (add new (f64_lit a)) (f64_lit b)) = b64_of_Z (a - b).
Proof.
  intros Ha Hb.
  apply (run_exact_from (F := F) [Add a; Subtract b] new 0 denote_new).
  cbn [safe_run amount_of apply_exact]. now rewrite Z.add_0_l, Ha, Hb.
Qed.

(** On safe operands the comparison of the test is the comparison of the
    integers. *)
Lemma calculator_case_eqb (a b expected : Z) :
  safe a = true -> safe b = true -> safe (a - b) = true -> safe expected = true ->
  calculator_case (F := F) a b expected = assert_eq Z.eqb (a - b) expected.
Proof.
  intros Ha Hb Hab He. unfold calculator_case, assert_eq. rewrite to_spec_eq.
  change (to_spec (get_value ?c)) with (denote c).
  rewrite denote_add_subtract, to_spec_lit by auto using safe_lit_bound.
  now rewrite b64_eqb_of_Z by now apply safe_exact.
Qed.

(** C11. The calculator test generalised: for amounts [a] and [b] within
    [2^53] in magnitude whose difference is too, adding [a] and
    subtracting [b] passes the assertion against [expected] exactly when
    [expected = a - b]. *)
Theorem calculator_case_passes (a b expected : Z) :
  safe a = true -> safe b = true -> safe (a - b) = true -> safe expected = true ->
  calculator_case (F := F) a b expected = Pass <-> a - b = expected.
Proof.
  intros Ha Hb Hab He.
  now rewrite calculator_case_eqb, assert_eq_pass, Z.eqb_eq by assumption.
Qed.

(** C5. [test_calculator] passes on every correct implementation of the
    arithmetic. *)
Theorem test_calculator_passes : test_calculator (F := F) = Pass.
Proof.
  change (calculator_case (F := F) 5 2 3 = Pass).
  rewrite calculator_case_eqb by reflexivity. reflexivity.
Qed.

End Laws.

(** [test_greet] passes: [greet("World")] is ["Hello, World!"],
    byte for byte. *)
Theorem test_greet_passes : test_greet = Pass.
Proof. apply assert_eq_pass, str_eq_true. reflexivity. Qed.

(** The assertion of the calculator test on the processor's floats, where
    both sides denote [3.0]. *)
Lemma assert_eq_f64_witness :
  assert_eq f64_eq
    (get_value (subtract (add new (f64_lit 5)) (f64_lit 2))) (f64_lit (F := PrimFloat.float) 3)
  = Pass.
Proof.
  exact (proj2 (assert_eq_f64 (ok := Float64Correct_prim)
                  (get_value (subtract (add new (f64_lit 5)) (f64_lit 2))) (f64_lit 3))
               (or_introl (conj eq_refl eq_refl))).
Defined.

Lemma calculator_case_passes_witness :
  calculator_case (F := PrimFloat.float) 10 3 7 = Pass.
Proof.
  exact (proj2 (calculator_case_passes (ok := Float64Correct_prim) 10 3 7
                  eq_refl eq_refl eq_refl eq_refl) eq_refl).
Defined.

Lemma test_calculator_passes_witness : test_calculator (F := PrimFloat.float) = Pass.
Proof. exact (test_calculator_passes (ok := Float64Correct_prim)). Defined.

Lemma assert_eq_equiv_witness :
  assert_eq f64_eq (get_value (new (F := b64))) (b64_of_Z 0)
  = assert_eq f64_eq (get_value {| value := S754_zero true |}) (b64_of_Z 0).
Proof.
  exact (assert_eq_equiv (ok := Float64Correct_b64) new {| value := S754_zero true |}
           (b64_of_Z 0) (b64_of_Z 0) (or_intror (conj eq_refl eq_refl)) (or_introl eq_refl)).
Defined.
