(* ===== verification/Main.v ===== *)
(** * Main: [main.rs]

    [main] builds a calculator, chains [add(10.0)] and [subtract(3.0)],
    prints the value, builds a greeting and prints it.  Standard output is
    the state: the bytes written so far.  [println] appends a formatted
    line and a newline.

    How [println!] writes an [f64] is the Rust standard library's business
    (shortest digits that read back as the same number); [main] is
    therefore parameterised by that function, and the theorem on its
    output assumes of it only that an integer-valued datum in the safe
    range is written as the decimal digits of the integer.  [Display.v]
    models the function of the standard library and proves that it does
    so. *)

From Stdlib Require Import ZArith Lia Bool List String SpecFloat.
From Stdlib Require Import DecimalString DecimalZ.
From Stdlib.Strings Require Import Byte.
From S2P Require Import Prelude Binary64 Rounding Exact Float64 Calculator Greet Tests.
Import ListNotations.

#[local] Open Scope Z_scope.

(** The line feed. *)
Definition newline : byte := "010"%byte.

(** [println!]: the formatted text, then a line feed, after what was
    written before. *)
Definition println (pieces args : list str) (out : str) : str :=
  out ++ write pieces args ++ [newline].

(** The decimal digits of an integer, with a minus sign when negative. *)
Definition decimal (n : Z) : str := bytes (NilZero.string_of_int (Z.to_int n)).

Section Main.
Context {F : Type} {ops : Float64 F}.

(** The [Display] of [f64]. *)
Variable display : F -> str.

(** [fn main()], as a function of what standard output held before. *)
Definition main (out : str) : str :=
  let calc := new in
  let calc := subtract (add calc (f64_lit 10)) (f64_lit 3) in
  let out := println [bytes "Calculator result: "; []] [display (get_value calc)] out in
  let message := greet (bytes "Rust MCP") in
  println [[]; []] [message] out.

End Main.

(** A [Display] for the model that covers the integers: digits for an
    integer-valued datum, nothing otherwise. *)
Definition display_integer (x : b64) : str :=
  match b64_to_Z x with
  | Some n => decimal n
  | None => []
  end.

(** The pieces of the two [println!] calls are the compiler's reading of
    their format strings. *)
Lemma main_templates :
  parse_template (bytes "Calculator result: {}") = Some [bytes "Calculator result: "; []] /\
  parse_template (bytes "{}") = Some [[]; []].
Proof. split; reflexivity. Qed.

Section Output.
Context {F : Type} {ops : Float64 F} {ok : Float64Correct F}.
Variable display : F -> str.

(** What is assumed of [Display]: nonzero integers in the safe range are
    written as their decimal digits. *)
Hypothesis display_integers : forall (x : F) (n : Z),
  to_spec x = b64_of_Z n -> safe n = true -> n <> 0 -> display x = decimal n.

(** The value [main] prints denotes 7. *)
Lemma main_value :
  to_spec (get_value (subtract (add new (f64_lit (F := F) 10)) (f64_lit 3))) = b64_of_Z 7.
Proof. now apply (denote_add_subtract 10 3). Qed.

(** C6. [main] appends exactly two lines to standard output:
    ["Calculator result: 7"] and ["Hello, Rust MCP!"]. *)
Theorem main_output (out : str) :
  main display out
  = out ++ bytes "Calculator result: 7" ++ [newline]
        ++ bytes "Hello, Rust MCP!" ++ [newline].
Proof.
  unfold main, println. cbn [write].
  rewrite (display_integers _ 7 main_value) by easy.
  rewrite <- !app_assoc. reflexivity.
Qed.

End Output.

Lemma display_integer_integers (x : b64) (n : Z) :
  to_spec x = b64_of_Z n -> safe n = true -> n <> 0 -> display_integer x = decimal n.
Proof.
  cbn [to_spec Float64_b64]. intros -> Hs _. unfold display_integer.
  now rewrite (proj1 (exact_to_Z n) (safe_exact n Hs)).
Qed.

(** [main] on the model with the integer [Display], from an empty
    standard output. *)
Lemma main_output_witness :
  main display_integer []
  = [] ++ bytes "Calculator result: 7" ++ [newline] ++ bytes "Hello, Rust MCP!" ++ [newline].
Proof. exact (main_output (ok := Float64Correct_b64) display_integer display_integer_integers []). Defined.
