(* ===== verification/Display.v ===== *)
(** * Display: how an [f64] is written

    [println!("Calculator result: {}", calc.get_value())] writes an [f64]
    through the [Display] of the standard library: the shortest decimal
    that reads back as the datum, in positional notation, never with an
    exponent.  This file follows the library's [core::num::flt2dec]:

    - [decode] takes the mantissa and exponent of a finite datum to the
      number [mant * 2^exp] with the distances [minus] and [plus] to the
      ends of the interval of reals that round to it, and whether the ends
      belong to the interval ([inclusive]: the mantissa is even);
    - [format_shortest] is the digit generation of the library's [dragon]
      strategy on integers of any size: the scaling factor [k] with
      [10^(k-1) < high <= 10^k], one digit per step of [generate] until
      the digits written or their successor fall in the interval, and
      [round_up] when the successor is the one;
    - [digits_to_dec_str] places the decimal point; [display_f64] adds the
      sign and writes the three special data.

    The library estimates [k] from the number of bits of the upper end
    and corrects the estimate by one; [scaling] searches the bound from
    [k_min] upwards, and the text written is the same.  The library's
    default strategy ([grisu]) computes the digits of [dragon] on machine
    words, or gives up and calls it.  Width, precision and the other
    format traits ([{:e}], [{:?}]) are not used by the crate.

    Theorems:
    - the search for [k] finds the tight bound on every datum of the
      format ([scaled_by_tight], [decode_in_reach]);
    - termination: the generation stops within 17 digits on every datum of
      the format, so the fuel of [format_shortest] is never exhausted
      ([display_f64_total]);
    - soundness: the digits generated, increased by one when the
      generation says so, denote a number of the interval of [decode]
      ([generate_sound], [round_up_spec], [format_shortest_sound]);
      [Readback.v] states it over the rationals;
    - integers: an integer of magnitude at most [2^53] is written as its
      decimal digits, as the Standard Library's [Z.to_int] gives them
      ([display_f64_integer]);
    - [main] prints ["Calculator result: 7"]: the hypothesis of
      [Main.main_output] on [Display] holds of [display_f64]
      ([main_prints]). *)

From Stdlib Require Import ZArith Lia Bool List String SpecFloat.
From Stdlib Require Import DecimalString DecimalPos.
From Stdlib.Strings Require Import Byte.
From S2P Require Import Prelude Binary64 Rounding Exact Valid Float64 Calculator Greet Main.
Import ListNotations.

#[local] Open Scope Z_scope.

(** ** The interval of a finite datum *)

Record Decoded : Type :=
  { mant : Z; minus : Z; plus : Z; exp : Z; inclusive : bool }.

(** The least mantissa of a normal datum. *)
Definition min_normal_mantissa : Z := 2 ^ 52.

(** A finite datum of mantissa [m] and exponent [e].  The mantissa is
    doubled so that half the gap to a neighbour is a unit; at the least
    normal mantissa the gap below is half the gap above, and the mantissa
    is doubled twice. *)
Definition decode (m : positive) (e : Z) : Decoded :=
  let even := Z.even (Z.pos m) in
  if Z.pos m <? min_normal_mantissa then
    {| mant := 2 * Z.pos m; minus := 1; plus := 1; exp := e - 1; inclusive := true |}
  else if Z.pos m =? min_normal_mantissa then
    {| mant := 4 * Z.pos m; minus := 1; plus := 2; exp := e - 2; inclusive := even |}
  else
    {| mant := 2 * Z.pos m; minus := 1; plus := 1; exp := e - 1; inclusive := even |}.

(** ** The digits *)

(** [a] comes before [b]: [a <= b] when the ends of the interval belong to
    it, [a < b] when they do not. *)
Definition before (incl : bool) (a b : Z) : bool :=
  if incl then a <=? b else a <? b.

(** The least [k] from [k] on with [high] not after [power] times ten to
    the steps made. *)
Fixpoint scaling (fuel : nat) (incl : bool) (high power : Z) (k : Z) : Z :=
  match fuel with
  | O => k
  | S fuel' =>
      if before incl power high then scaling fuel' incl high (10 * power) (k + 1) else k
  end.

(** Where the search starts, and how far it may go: every datum of the
    format lies between [10^k_min] and [10^(k_min + k_fuel)]. *)
Definition k_min : Z := -330.
Definition k_fuel : nat := 700.

(** One digit per step: the quotient of [mant] by [scale] is the digit,
    the remainder goes on, ten times larger, until the digits written
    ([down]) or their successor ([up]) are in the interval.  The result is
    the digits and whether the last one is to be increased. *)
Fixpoint generate (fuel : nat) (incl : bool) (scale mant minus plus : Z) :
    option (list Z * bool) :=
  match fuel with
  | O => None
  | S fuel' =>
      let d := mant / scale in
      let mant := mant mod scale in
      let down := before incl mant minus in
      let up := before incl scale (mant + plus) in
      if down || up then Some ([d], up && (negb down || (scale <=? 2 * mant)))
      else
        match generate fuel' incl scale (10 * mant) (10 * minus) (10 * plus) with
        | Some (ds, u) => Some (d :: ds, u)
        | None => None
        end
  end.

(** The successor of a string of digits of the same length, and whether
    it overflowed ([99] to [00] with a carry). *)
Fixpoint round_up (ds : list Z) : list Z * bool :=
  match ds with
  | [] => ([], true)
  | d :: ds' =>
      let '(ds'', carry) := round_up ds' in
      if carry then (if d =? 9 then (0 :: ds'', true) else (d + 1 :: ds'', false))
      else (d :: ds'', false)
  end.

(** The digits the generation may take: 17 suffice for binary64. *)
Definition digits_fuel : nat := 17.

(** The number in fractional form: [v = mant / scale]. *)
Definition fractional (d : Decoded) : Z * Z * Z * Z :=
  if exp d <? 0 then (mant d, minus d, plus d, 2 ^ (- exp d))
  else (mant d * 2 ^ exp d, minus d * 2 ^ exp d, plus d * 2 ^ exp d, 1).

(** The fractional form divided by [10^(k-1)]. *)
Definition scaled_by (k : Z) (f : Z * Z * Z * Z) : Z * Z * Z * Z :=
  let '(m, mi, pl, sc) := f in
  if 0 <=? k - 1 then (m, mi, pl, sc * 10 ^ (k - 1))
  else (m * 10 ^ (1 - k), mi * 10 ^ (1 - k), pl * 10 ^ (1 - k), sc).

(** The [k] of a number in fractional form. *)
Definition scaling_factor (incl : bool) (f : Z * Z * Z * Z) : Z :=
  let '(m, mi, pl, sc) := f in
  scaling k_fuel incl ((m + pl) * 10 ^ (- k_min)) sc k_min.

(** The shortest digits [d1 ... dn] and the exponent [k] with
    [0.d1...dn * 10^k] in the interval. *)
Definition format_shortest (d : Decoded) : option (list Z * Z) :=
  let f := fractional d in
  let k := scaling_factor (inclusive d) f in
  let '(m, mi, pl, sc) := scaled_by k f in
  match generate digits_fuel (inclusive d) sc m mi pl with
  | Some (ds, up) =>
      if up then
        let '(ds', carry) := round_up ds in
        if carry then Some (1 :: ds', k + 1) else Some (ds', k)
      else Some (ds, k)
  | None => None
  end.

(** ** The text *)

Definition digit_byte (d : Z) : byte :=
  match Byte.of_N (Z.to_N (48 + d)) with
  | Some b => b
  | None => "0"%byte
  end.

Definition zeros (n : Z) : str := repeat "0"%byte (Z.to_nat n).

(** The digits with the decimal point at position [k]: zeros after the
    point when [k <= 0], zeros before it when [k] is past the digits. *)
Definition digits_to_dec_str (ds : list Z) (k : Z) : str :=
  let buf := map digit_byte ds in
  let len := Z.of_nat (List.length ds) in
  if k <=? 0 then bytes "0." ++ zeros (- k) ++ buf
  else if k <? len then firstn (Z.to_nat k) buf ++ bytes "." ++ skipn (Z.to_nat k) buf
  else buf ++ zeros (k - len).

Definition sign_str (s : bool) : str := if s then bytes "-" else [].

(** [impl Display for f64], without a precision. *)
Definition display_f64 (x : b64) : str :=
  match x with
  | S754_nan => bytes "NaN"
  | S754_infinity s => sign_str s ++ bytes "inf"
  | S754_zero s => sign_str s ++ bytes "0"
  | S754_finite s m e =>
      match format_shortest (decode m e) with
      | Some (ds, k) => sign_str s ++ digits_to_dec_str ds k
      | None => []
      end
  end.

(** ** The shape of a finite datum *)

Lemma bounded_shape (m : positive) (e : Z) :
  bounded prec emax m e = true ->
  Z.pos m < 2 ^ 53 /\ -1074 <= e <= 971 /\ (2 ^ 52 <= Z.pos m \/ e = -1074).
Proof.
  rewrite bounded_iff, target_eq. intros [T E].
  pose proof (digits2_pos_bounds m) as [Lo Hi].
  set (d := Z.pos (digits2_pos m)) in *.
  assert (D : d <= 53 /\ (d = 53 \/ e = -1074)) by lia. destruct D as [D1 D2].
  assert (2 ^ d <= 2 ^ 53) by auto with pow2.
  repeat split; try lia.
  destruct D2 as [->|]; [left | now right]. exact Lo.
Qed.

(** The interval of a decoded datum: its parts are positive. *)
Lemma decode_pos (m : positive) (e : Z) :
  0 < mant (decode m e) /\ 0 < minus (decode m e) /\ 0 < plus (decode m e).
Proof. unfold decode. repeat break_match; cbn; lia. Qed.

Lemma fractional_pos (d : Decoded) :
  0 < mant d -> 0 < minus d -> 0 < plus d ->
  let '(m, mi, pl, sc) := fractional d in 0 < m /\ 0 < mi /\ 0 < pl /\ 0 < sc.
Proof.
  intros Hm Hmi Hpl. unfold fractional. destruct (Z.ltb_spec (exp d) 0).
  - assert (0 < 2 ^ (- exp d)) by auto with pow2. lia.
  - assert (0 < 2 ^ exp d) by auto with pow2. repeat split; try lia; now apply Z.mul_pos_pos.
Qed.

(** ** Comparisons *)

Lemma before_true (incl : bool) (a b : Z) : before incl a b = true -> a <= b.
Proof. unfold before. destruct incl; intros H; boolZ; lia. Qed.

Lemma before_false (incl : bool) (a b : Z) : before incl a b = false -> b <= a.
Proof. unfold before. destruct incl; intros H; boolZ; lia. Qed.

Lemma before_lt (incl : bool) (a b : Z) : a < b -> before incl a b = true.
Proof. unfold before. destruct incl; intros H; boolZ; lia. Qed.

Lemma before_gt (incl : bool) (a b : Z) : b < a -> before incl a b = false.
Proof. unfold before. destruct incl; intros H; boolZ; lia. Qed.

Lemma before_mul (incl : bool) (a b c : Z) :
  0 < c -> before incl (a * c) (b * c) = before incl a b.
Proof.
  intros H. unfold before. destruct incl.
  - destruct (Z.leb_spec a b), (Z.leb_spec (a * c) (b * c)); trivial; nia.
  - destruct (Z.ltb_spec a b), (Z.ltb_spec (a * c) (b * c)); trivial; nia.
Qed.

(** A comparison is kept by a shift and a positive scaling of both
    sides. *)
Lemma before_affine (incl : bool) (c a b a' b' : Z) :
  0 < c -> b' - a' = c * (b - a) -> before incl a' b' = before incl a b.
Proof.
  intros Hc E. unfold before. destruct incl.
  - destruct (Z.leb_spec a b), (Z.leb_spec a' b'); trivial; nia.
  - destruct (Z.ltb_spec a b), (Z.ltb_spec a' b'); trivial; nia.
Qed.

(** ** The search for [k] *)

Lemma pow10_pos (n : Z) : 0 <= n -> 0 < 10 ^ n.
Proof. intros H. now apply Z.pow_pos_nonneg. Qed.

Lemma pow10_succ (n : Z) : 0 <= n -> 10 ^ (n + 1) = 10 * 10 ^ n.
Proof. intros H. now rewrite Z.pow_add_r, Z.mul_comm by lia. Qed.

Lemma pow10_S (n : nat) : 10 ^ Z.of_nat (S n) = 10 * 10 ^ Z.of_nat n.
Proof. rewrite Nat2Z.inj_succ, <- Z.add_1_r. apply pow10_succ. lia. Qed.

Lemma pow10_add (a b : Z) : 0 <= a -> 0 <= b -> 10 ^ (a + b) = 10 ^ a * 10 ^ b.
Proof. intros. now apply Z.pow_add_r. Qed.

(** With enough fuel the search returns the least number of steps after
    which [high] is not after the power. *)
Lemma scaling_spec (fuel : nat) (incl : bool) (high power k : Z) :
  (exists j, (j <= fuel)%nat /\ before incl (power * 10 ^ Z.of_nat j) high = false) ->
  exists j, scaling fuel incl high power k = k + Z.of_nat j /\
            before incl (power * 10 ^ Z.of_nat j) high = false /\
            forall i, (i < j)%nat -> before incl (power * 10 ^ Z.of_nat i) high = true.
Proof.
  revert power k. induction fuel as [|fuel IH]; intros power k (j & Hj & Hb); cbn [scaling].
  - assert (j = 0%nat) as -> by lia. exists 0%nat.
    split; [cbn; lia|]. split; [exact Hb | intros i Hi; lia].
  - destruct (before incl power high) eqn:E.
    + destruct j as [|j]; [cbn in Hb; rewrite Z.mul_1_r in Hb; congruence|].
      destruct (IH (10 * power) (k + 1)) as (j' & R & F & T).
      { exists j. split; [lia|]. rewrite <- Hb. f_equal.
        rewrite Nat2Z.inj_succ, <- Z.add_1_r, pow10_succ by lia. ring. }
      exists (S j'). rewrite R, Nat2Z.inj_succ, <- Z.add_1_r, pow10_succ by lia.
      split; [lia|]. split; [rewrite <- F; f_equal; ring|].
      intros [|i] Hi; [cbn; now rewrite Z.mul_1_r|].
      rewrite Nat2Z.inj_succ, <- Z.add_1_r, pow10_succ by lia.
      rewrite <- (T i) by lia. f_equal. ring.
    + exists 0%nat. split; [cbn; lia|]. split; [|intros i Hi; lia].
      cbn. now rewrite Z.mul_1_r.
Qed.

(** The bounds of the format, in decimal. *)
Lemma pow2_1076_lt : 2 ^ 1076 < 10 ^ 330.
Proof. now vm_compute. Qed.

Lemma pow2_1026_lt : 2 ^ 1026 * 10 ^ 330 < 10 ^ 700.
Proof. now vm_compute. Qed.

Lemma pow2_54_lt : 2 ^ 54 + 2 < 2 * 10 ^ 16.
Proof. now vm_compute. Qed.

(** A number in fractional form is within the reach of the search when
    its scale is below [10^330] and its upper end below [10^370]. *)
Definition in_reach (f : Z * Z * Z * Z) : Prop :=
  let '(m, mi, pl, sc) := f in
  0 < m /\ 0 < mi /\ 0 < pl /\ 0 < sc /\
  sc < 10 ^ 330 /\ (m + pl) * 10 ^ 330 < sc * 10 ^ 700.

(** The search returns [J - 329] for the least [J] with the upper end,
    at the scale of [10^330], not after the scale times [10^(J+1)]. *)
Lemma scaling_factor_spec (incl : bool) (m mi pl sc : Z) :
  in_reach (m, mi, pl, sc) ->
  exists J, 0 <= J /\ scaling_factor incl (m, mi, pl, sc) = J - 329 /\
            before incl (sc * 10 ^ J) ((m + pl) * 10 ^ 330) = true /\
            before incl (sc * (10 * 10 ^ J)) ((m + pl) * 10 ^ 330) = false.
Proof.
  intros (Hm & Hmi & Hpl & Hsc & Hlo & Hhi).
  unfold scaling_factor, k_min, k_fuel. change (- -330) with 330.
  destruct (scaling_spec 700 incl ((m + pl) * 10 ^ 330) sc (-330)) as (j & -> & F & T).
  { exists 700%nat. split; [lia|]. apply before_gt. exact Hhi. }
  destruct j as [|j].
  { exfalso. change (Z.of_nat 0) with 0 in F. rewrite Z.pow_0_r, Z.mul_1_r in F.
    apply before_false in F. revert Hlo F. generalize (10 ^ 330). intros t Hlo F. nia. }
  specialize (T j (Nat.lt_succ_diag_r j)). rewrite pow10_S in F.
  exists (Z.of_nat j). repeat split; trivial; lia.
Qed.

(** After scaling by the [k] found, the upper end of the interval lies
    between the scale and ten times the scale. *)
Lemma scaled_by_tight (incl : bool) (f : Z * Z * Z * Z) :
  in_reach f ->
  let '(m, mi, pl, sc) := f in
  let '(m', mi', pl', sc') := scaled_by (scaling_factor incl f) f in
  0 < sc' /\ 0 < mi' /\ 0 < pl' /\ 0 <= m' /\
  before incl sc' (m' + pl') = true /\
  before incl (10 * sc') (m' + pl') = false /\
  (m' + pl') * (mi + pl) = (m + pl) * (mi' + pl').
Proof.
  destruct f as [[[m mi] pl] sc]. intros R.
  destruct (scaling_factor_spec incl m mi pl sc R) as (J & HJ & -> & T & F).
  destruct R as (Hm & Hmi & Hpl & Hsc & _ & _).
  unfold scaled_by. replace (J - 329 - 1) with (J - 330) by lia.
  replace (1 - (J - 329)) with (330 - J) by lia.
  destruct (Z.leb_spec 0 (J - 330)) as [P|N].
  - assert (P1 : 0 < 10 ^ (J - 330)) by (apply pow10_pos; lia).
    assert (P2 : 0 < 10 ^ 330) by (apply pow10_pos; lia).
    replace J with (J - 330 + 330) in T, F by lia. rewrite pow10_add in T, F by lia.
    revert P1 P2 T F. generalize (10 ^ (J - 330)) (10 ^ 330). intros u t P1 P2 T F.
    rewrite (before_affine incl t (sc * u) (m + pl)) in T by (trivial; ring).
    rewrite (before_affine incl t (10 * (sc * u)) (m + pl)) in F by (trivial; ring).
    repeat split; try nia; assumption.
  - assert (P1 : 0 < 10 ^ (330 - J)) by (apply pow10_pos; lia).
    assert (P2 : 0 < 10 ^ J) by (apply pow10_pos; lia).
    replace 330 with (330 - J + J) in T, F by lia. rewrite pow10_add in T, F by lia.
    revert P1 P2 T F. generalize (10 ^ (330 - J)) (10 ^ J). intros u w P1 P2 T F.
    rewrite (before_affine incl w sc (m * u + pl * u)) in T by (trivial; ring).
    rewrite (before_affine incl w (10 * sc) (m * u + pl * u)) in F by (trivial; ring).
    repeat split; try nia; assumption.
Qed.

(** ** The generation of digits ends *)

Lemma generate_S (fuel : nat) (incl : bool) (sc m mi pl : Z) :
  generate (S fuel) incl sc m mi pl
  = if before incl (m mod sc) mi || before incl sc (m mod sc + pl)
    then Some ([m / sc], before incl sc (m mod sc + pl)
                          && (negb (before incl (m mod sc) mi) || (sc <=? 2 * (m mod sc))))
    else match generate fuel incl sc (10 * (m mod sc)) (10 * mi) (10 * pl) with
         | Some (ds, u) => Some (m / sc :: ds, u)
         | None => None
         end.
Proof. reflexivity. Qed.

(** Each step that goes on finds the interval ten times narrower than
    the scale: after [n] steps with [scale < 10^n * (minus + plus)] the
    generation has stopped. *)
Lemma generate_total (n : nat) (incl : bool) (sc m mi pl : Z) :
  sc < 10 ^ Z.of_nat n * (mi + pl) ->
  exists ds up, generate (S n) incl sc m mi pl = Some (ds, up).
Proof.
  revert m mi pl. induction n as [|n IH]; intros m mi pl H; rewrite generate_S;
    destruct (before incl (m mod sc) mi) eqn:D, (before incl sc (m mod sc + pl)) eqn:U;
    cbn [orb]; eauto; apply before_false in D, U.
  - change (Z.of_nat 0) with 0 in H. rewrite Z.pow_0_r in H. lia.
  - destruct (IH (10 * (m mod sc)) (10 * mi) (10 * pl)) as (ds & up & ->); [|eauto].
    rewrite Nat2Z.inj_succ, <- Z.add_1_r, pow10_succ in H by lia. lia.
Qed.

Lemma one_lt_pow10_330 : 1 < 10 ^ 330.
Proof. now vm_compute. Qed.

Lemma pow10_330_lt_700 : 10 ^ 330 < 10 ^ 700.
Proof. now vm_compute. Qed.

(** The upper end of the interval of a datum is below [2^1026]. *)
Lemma reach_bound (a x : Z) :
  0 < a <= 2 ^ 55 -> 0 <= x <= 970 -> a * 2 ^ x * 10 ^ 330 < 10 ^ 700.
Proof.
  intros Ha Hx.
  assert (P : 0 < 2 ^ x) by (apply pow2_pos; lia).
  assert (X : 2 ^ x <= 2 ^ 970) by (apply pow2_le; lia).
  assert (T : 0 < 10 ^ 330) by (apply pow10_pos; lia).
  pose proof pow2_1026_lt as B.
  assert (E : 2 ^ 1026 = 2 ^ 55 * 2 ^ 970 * 2) by now vm_compute.
  rewrite E in B. clear E. revert Ha P X T B.
  generalize (10 ^ 330) (10 ^ 700) (2 ^ 55) (2 ^ 970) (2 ^ x). intros t u p q y Ha P X T B.
  assert (a * y <= p * q) by nia. nia.
Qed.

(** The fractional form of a datum of the format is within the reach of
    the search for [k]. *)
Lemma decode_in_reach (m : positive) (e : Z) :
  bounded prec emax m e = true -> in_reach (fractional (decode m e)).
Proof.
  intros H. apply bounded_shape in H as (Hm & He & _).
  pose proof (decode_pos m e) as (P1 & P2 & P3).
  pose proof (fractional_pos _ P1 P2 P3) as P.
  assert (A : mant (decode m e) + plus (decode m e) <= 2 ^ 55 /\
              e - 2 <= exp (decode m e) <= e - 1).
  { change (2 ^ 55) with (4 * 2 ^ 53).
    unfold decode, min_normal_mantissa. repeat break_match; cbn; boolZ; lia. }
  destruct A as (A & E1 & E2). revert P. unfold fractional, in_reach.
  set (d := decode m e) in *. clearbody d.
  destruct (Z.ltb_spec (exp d) 0) as [N|N]; intros (Q1 & Q2 & Q3 & Q4);
    (split; [exact Q1|]); (split; [exact Q2|]); (split; [exact Q3|]); (split; [exact Q4|]); split.
  - assert (2 ^ (- exp d) <= 2 ^ 1076) by auto with pow2.
    pose proof pow2_1076_lt. lia.
  - assert (1 <= 2 ^ (- exp d)) by (change 1 with (2 ^ 0); auto with pow2).
    pose proof (reach_bound (mant d + plus d) 0) as B.
    rewrite Z.pow_0_r, Z.mul_1_r in B.
    specialize (B ltac:(lia) ltac:(lia)).
    assert (T : 0 < 10 ^ 330) by (apply pow10_pos; lia).
    revert B T. generalize (10 ^ 330) (10 ^ 700). intros t u B T. nia.
  - exact one_lt_pow10_330.
  - rewrite Z.mul_1_l, <- Z.mul_add_distr_r. apply reach_bound; lia.
Qed.

(** The interval is wider than [10^-16] times its upper end. *)
Lemma decode_ratio (m : positive) (e : Z) :
  Z.pos m < 2 ^ 53 ->
  let '(m', mi, pl, _) := fractional (decode m e) in
  m' + pl < 10 ^ 16 * (mi + pl).
Proof.
  intros Hm.
  assert (A : mant (decode m e) + plus (decode m e)
              < 10 ^ 16 * (minus (decode m e) + plus (decode m e))).
  { pose proof pow2_54_lt as B. change (2 ^ 54) with (4 * 2 ^ 52) in B.
    change (2 ^ 53) with (2 * 2 ^ 52) in Hm.
    unfold decode, min_normal_mantissa. revert B Hm.
    generalize (2 ^ 52) (10 ^ 16). intros p t B Hm.
    repeat break_match; cbn [mant minus plus]; boolZ; lia. }
  unfold fractional. destruct (Z.ltb_spec (exp (decode m e)) 0); [exact A|].
  assert (0 < 2 ^ exp (decode m e)) by auto with pow2.
  set (t := 10 ^ 16) in *. clearbody t. nia.
Qed.

(** The digits of every finite datum of the format are found within the
    fuel: 17 digits, the most a binary64 needs. *)
Lemma format_shortest_Some (m : positive) (e : Z) :
  bounded prec emax m e = true ->
  exists ds k, format_shortest (decode m e) = Some (ds, k).
Proof.
  intros H. pose proof (decode_in_reach m e H) as R.
  pose proof (decode_ratio m e (proj1 (bounded_shape m e H))) as Q.
  unfold format_shortest.
  pose proof (scaled_by_tight (inclusive (decode m e)) _ R) as T.
  destruct (fractional (decode m e)) as [[[m0 mi] pl] sc].
  destruct (scaled_by _ _) as [[[m' mi'] pl'] sc'].
  destruct T as (P1 & P2 & P3 & P4 & T & _ & E). destruct R as (R1 & R2 & R3 & _).
  destruct (generate_total 16 (inclusive (decode m e)) sc' m' mi' pl') as (ds & up & G).
  { apply before_true in T. change (Z.of_nat 16) with 16.
    revert Q. generalize (10 ^ 16). intros t Q.
    apply Z.le_lt_trans with (m' + pl'); [exact T|].
    apply Z.mul_lt_mono_pos_r with (mi + pl); [lia|]. rewrite E. nia. }
  change digits_fuel with 17%nat. rewrite G.
  destruct up; [destruct (round_up ds) as [ds' []]|]; eauto.
Qed.

(** ** The digits lie in the interval *)


(** A decimal digit, and the number a string of digits denotes. *)
Definition digit (d : Z) : Prop := 0 <= d <= 9.

Fixpoint digits_value (ds : list Z) : Z :=
  match ds with
  | [] => 0
  | d :: ds' => d * 10 ^ Z.of_nat (List.length ds') + digits_value ds'
  end.

(** The last step of the generation: the digit alone when the digits
    written are in the interval and their successor is not or is further,
    the digit to be increased otherwise; either way within the
    interval. *)
Lemma generate_stop (incl : bool) (S M Mi Pl : Z) (up : bool) :
  0 < S -> 0 < Mi -> 0 < Pl ->
  before incl (M mod S) Mi || before incl S (M mod S + Pl) = true ->
  up = before incl S (M mod S + Pl)
       && (negb (before incl (M mod S) Mi) || (S <=? 2 * (M mod S))) ->
  let w := M / S + (if up then 1 else 0) in
  before incl ((M - Mi) * 10) (10 * (w * S)) = true /\
  before incl (10 * (w * S)) ((M + Pl) * 10) = true.
Proof.
  intros HS HMi HPl Stop Hup. cbn zeta.
  pose proof (Z.div_mod M S ltac:(lia)) as E. pose proof (Z.mod_pos_bound M S HS) as B.
  revert Stop Hup E B. generalize (M / S) (M mod S). intros d r Stop Hup E B.
  destruct up.
  - symmetry in Hup. apply andb_true_iff in Hup as [U _]. split.
    + apply before_lt. nia.
    + rewrite <- U. apply (before_affine incl 10); lia.
  - assert (D : before incl r Mi = true).
    { destruct (before incl r Mi); [reflexivity|].
      destruct (before incl S (r + Pl)); discriminate. }
    split.
    + rewrite <- D. apply (before_affine incl 10); lia.
    + apply before_lt. nia.
Qed.

(** The digits generated, increased by one when the generation says so,
    denote a number of the interval: with [n] digits,
    [(M - Mi) / S <= w / 10^(n-1) <= (M + Pl) / S], the ends excluded when
    the interval excludes them. *)
Lemma generate_sound (fuel : nat) (incl : bool) (S : Z) :
  0 < S -> forall (M Mi Pl : Z) (ds : list Z) (up : bool),
  0 < Mi -> 0 < Pl ->
  generate fuel incl S M Mi Pl = Some (ds, up) ->
  let n := Z.of_nat (List.length ds) in
  let w := digits_value ds + (if up then 1 else 0) in
  before incl ((M - Mi) * 10 ^ n) (10 * (w * S)) = true /\
  before incl (10 * (w * S)) ((M + Pl) * 10 ^ n) = true.
Proof.
  intros HS. induction fuel as [|fuel IH]; intros M Mi Pl ds up HMi HPl G; [discriminate|].
  rewrite generate_S in G.
  destruct (before incl (M mod S) Mi || before incl S (M mod S + Pl)) eqn:Stop.
  - injection G as <- <-. cbn [List.length digits_value].
    change (10 ^ Z.of_nat 1) with 10. change (10 ^ Z.of_nat 0) with 1.
    rewrite Z.mul_1_r, Z.add_0_r. now apply generate_stop.
  - destruct (generate fuel incl S _ _ _) as [[ds' u]|] eqn:G'; [|discriminate].
    injection G as <- <-. apply IH in G' as [Lo Hi]; [|lia..].
    cbn [List.length digits_value]. rewrite pow10_S.
    pose proof (Z.div_mod M S ltac:(lia)) as E.
    revert Lo Hi E. generalize (M / S) (M mod S) (10 ^ Z.of_nat (List.length ds')).
    intros d r t Lo Hi E. split.
    + rewrite <- Lo. apply (before_affine incl 1); lia.
    + rewrite <- Hi. apply (before_affine incl 1); lia.
Qed.

(** The digits generated are digits. *)
Lemma generate_digits (fuel : nat) (incl : bool) (S : Z) :
  0 < S -> forall (M Mi Pl : Z) (ds : list Z) (up : bool),
  0 <= M < 10 * S ->
  generate fuel incl S M Mi Pl = Some (ds, up) -> Forall digit ds.
Proof.
  intros HS. induction fuel as [|fuel IH]; intros M Mi Pl ds up HM G; [discriminate|].
  rewrite generate_S in G.
  assert (D : digit (M / S))
    by (split; [apply Z.div_pos; lia | apply Z.lt_succ_r, Z.div_lt_upper_bound; lia]).
  pose proof (Z.mod_pos_bound M S HS) as B.
  destruct (before incl (M mod S) Mi || before incl S (M mod S + Pl)).
  - injection G as <- <-. constructor; [exact D | constructor].
  - destruct (generate fuel incl S _ _ _) as [[ds' u]|] eqn:G'; [|discriminate].
    injection G as <- <-. constructor; [exact D|]. apply IH in G'; [exact G' | lia].
Qed.

(** The successor of a string of digits: one more, or all zeros and a
    carry of [10^n]. *)
Lemma round_up_spec (ds : list Z) :
  Forall digit ds ->
  let '(ds', carry) := round_up ds in
  List.length ds' = List.length ds /\ Forall digit ds' /\
  digits_value ds' + (if carry then 10 ^ Z.of_nat (List.length ds) else 0)
  = digits_value ds + 1.
Proof.
  induction 1 as [|d ds Hd F IH]; cbn [round_up]; [now repeat split|].
  destruct (round_up ds) as [ds' carry]. destruct IH as (L & F' & V).
  unfold digit in Hd. cbn [List.length]. rewrite pow10_S.
  destruct carry; [destruct (Z.eqb_spec d 9) as [->|N]|];
    cbn [List.length digits_value]; rewrite L;
    (split; [reflexivity|]); (split; [constructor; [unfold digit; lia | exact F']|]);
    revert V; generalize (10 ^ Z.of_nat (List.length ds)); intros t V; lia.
Qed.

(** The digits found denote a number of the interval.  With [k0] the
    scaling factor and the number scaled by it, the digits [ds] with
    their exponent [k] stand for [ds / 10^(n-1)] at the scale of [k0],
    where [n] is the number of digits, less one when the successor took
    one digit more. *)
Lemma format_shortest_sound (d : Decoded) (ds : list Z) (k : Z) :
  in_reach (fractional d) -> format_shortest d = Some (ds, k) ->
  let k0 := scaling_factor (inclusive d) (fractional d) in
  let '(m', mi', pl', sc') := scaled_by k0 (fractional d) in
  let n := Z.of_nat (List.length ds) - (k - k0) in
  0 < sc' /\ 0 <= n /\ Forall digit ds /\
  before (inclusive d) ((m' - mi') * 10 ^ n) (10 * (digits_value ds * sc')) = true /\
  before (inclusive d) (10 * (digits_value ds * sc')) ((m' + pl') * 10 ^ n) = true.
Proof.
  intros R. unfold format_shortest.
  pose proof (scaled_by_tight (inclusive d) _ R) as T.
  set (k0 := scaling_factor (inclusive d) (fractional d)) in *. clearbody k0. cbv zeta.
  destruct (fractional d) as [[[m mi] pl] sc].
  destruct (scaled_by _ _) as [[[m' mi'] pl'] sc'].
  destruct T as (Hsc & Hmi & Hpl & Hm & _ & F & _). apply before_false in F.
  destruct (generate digits_fuel _ sc' m' mi' pl') as [[gs up]|] eqn:G; [|discriminate].
  assert (HM : 0 <= m' < 10 * sc') by lia.
  pose proof (generate_digits _ _ _ Hsc _ _ _ _ _ HM G) as D.
  apply generate_sound in G as [Lo Hi]; trivial.
  destruct up.
  - pose proof (round_up_spec gs D) as U. destruct (round_up gs) as [gs' carry].
    destruct U as (L & D' & V). rewrite <- V in Lo, Hi. destruct carry; intros [= <- <-].
    + cbn [List.length digits_value]. rewrite L, Nat2Z.inj_succ.
      replace (Z.succ (Z.of_nat (List.length gs)) - (_ + 1 - _))
        with (Z.of_nat (List.length gs)) by lia.
      rewrite Z.mul_1_l, (Z.add_comm (10 ^ _)).
      repeat split; trivial; [lia | constructor; [unfold digit; lia | exact D']].
    + rewrite L, Z.sub_diag, Z.sub_0_r, Z.add_0_r in *. repeat split; trivial. lia.
  - intros [= <- <-]. rewrite Z.add_0_r in Lo, Hi. rewrite Z.sub_diag, Z.sub_0_r.
    repeat split; trivial. lia.
Qed.

Lemma format_shortest_digits (d : Decoded) (ds : list Z) (k : Z) :
  in_reach (fractional d) -> format_shortest d = Some (ds, k) -> Forall digit ds.
Proof.
  intros R G. pose proof (format_shortest_sound d ds k R G) as S. cbv zeta in S.
  destruct (scaled_by _ _) as [[[m' mi'] pl'] sc']. apply S.
Qed.

(** ** Integers *)

Lemma digits_value_zeros (j : nat) : digits_value (repeat 0 j) = 0.
Proof. induction j as [|j IH]; cbn [repeat digits_value]; [reflexivity | now rewrite IH]. Qed.

(** Digits after digits. *)
Lemma digits_value_app (a b : list Z) :
  digits_value (a ++ b)
  = digits_value a * 10 ^ Z.of_nat (List.length b) + digits_value b.
Proof.
  induction a as [|d a IH]; cbn [app digits_value]; [lia|].
  rewrite IH, length_app, Nat2Z.inj_add, pow10_add by lia. ring.
Qed.

(** Zeros appended multiply by ten each. *)
Lemma digits_value_app_zeros (ds : list Z) (j : nat) :
  digits_value (ds ++ repeat 0 j) = digits_value ds * 10 ^ Z.of_nat j.
Proof.
  induction ds as [|d ds IH]; cbn [app digits_value]; [apply digits_value_zeros|].
  rewrite IH, length_app, repeat_length, Nat2Z.inj_add, pow10_add by lia. ring.
Qed.

(** One step on a number in the form [r * U / (T * U)] whose interval is
    narrower than the unit [U]: the digit is [r / T], and the generation
    stops exactly when nothing remains. *)
Lemma generate_int_step (fuel : nat) (incl : bool) (T U r mi pl : Z) :
  0 < T -> 0 < mi < U -> 0 < pl < U -> 0 <= r ->
  generate (S fuel) incl (T * U) (r * U) mi pl
  = if r mod T =? 0 then Some ([r / T], false)
    else match generate fuel incl (T * U) (10 * (r mod T * U)) (10 * mi) (10 * pl) with
         | Some (ds, u) => Some (r / T :: ds, u)
         | None => None
         end.
Proof.
  intros HT Hmi Hpl Hr. rewrite generate_S.
  rewrite Z.mul_mod_distr_r, Z.div_mul_cancel_r by lia.
  pose proof (Z.mod_pos_bound r T HT) as B.
  assert (A : before incl (T * U) (r mod T * U + pl) = false) by (apply before_gt; nia).
  rewrite A. destruct (Z.eqb_spec (r mod T) 0) as [E|E].
  - rewrite E, Z.mul_0_l, (before_lt incl 0 mi) by lia. reflexivity.
  - rewrite (before_gt incl (r mod T * U) mi) by nia. reflexivity.
Qed.

(** [ds] are the digits of [r] on [n+1] positions, up to the last one
    that is not zero. *)
Definition digits_upto (n : nat) (r : Z) (ds : list Z) : Prop :=
  Z.of_nat (List.length ds) <= Z.of_nat (S n) /\ Forall digit ds /\
  hd 0 ds = r / 10 ^ Z.of_nat n /\
  digits_value ds * 10 ^ (Z.of_nat (S n) - Z.of_nat (List.length ds)) = r.

Lemma digit_div (n : nat) (r : Z) : 0 <= r < 10 ^ Z.of_nat (S n) -> digit (r / 10 ^ Z.of_nat n).
Proof.
  rewrite pow10_S. intros H. assert (0 < 10 ^ Z.of_nat n) by (apply pow10_pos; lia).
  split; [apply Z.div_pos; lia | apply Z.lt_succ_r, Z.div_lt_upper_bound; lia].
Qed.

Lemma digits_upto_one (n : nat) (r : Z) :
  0 <= r < 10 ^ Z.of_nat (S n) -> r mod 10 ^ Z.of_nat n = 0 ->
  digits_upto n r [r / 10 ^ Z.of_nat n].
Proof.
  intros Hr E. assert (HT : 0 < 10 ^ Z.of_nat n) by (apply pow10_pos; lia).
  pose proof (Z.div_mod r (10 ^ Z.of_nat n) ltac:(lia)) as D.
  unfold digits_upto. cbn [List.length hd digits_value].
  repeat split; [lia | constructor; [now apply digit_div | constructor] |].
  replace (Z.of_nat (S n) - Z.of_nat 1) with (Z.of_nat n) by lia.
  change (Z.of_nat 0) with 0. rewrite Z.pow_0_r. lia.
Qed.

Lemma digits_upto_cons (n : nat) (r : Z) (ds : list Z) :
  0 <= r < 10 ^ Z.of_nat (S (S n)) ->
  digits_upto n (r mod 10 ^ Z.of_nat (S n)) ds ->
  digits_upto (S n) r (r / 10 ^ Z.of_nat (S n) :: ds).
Proof.
  intros Hr (L & F & _ & V). assert (HT : 0 < 10 ^ Z.of_nat (S n)) by (apply pow10_pos; lia).
  pose proof (Z.div_mod r (10 ^ Z.of_nat (S n)) ltac:(lia)) as D.
  unfold digits_upto. cbn [List.length hd digits_value].
  repeat split; [lia | constructor; [now apply digit_div | exact F] |].
  replace (Z.of_nat (S (S n)) - Z.of_nat (S (List.length ds)))
    with (Z.of_nat (S n) - Z.of_nat (List.length ds)) by lia.
  rewrite Z.mul_add_distr_r, V, <- Z.mul_assoc, <- pow10_add by lia.
  replace (Z.of_nat (List.length ds) + (Z.of_nat (S n) - Z.of_nat (List.length ds)))
    with (Z.of_nat (S n)) by lia.
  lia.
Qed.

(** On an integer below [10^(n+1)] whose interval is narrower than the
    unit, the generation writes the digits of the integer up to the last
    one that is not zero, and does not round up. *)
Lemma generate_int (n : nat) (incl : bool) : forall (fuel : nat) (U r mi pl : Z),
  (n < fuel)%nat -> 0 < mi < U -> 0 < pl < U -> 0 <= r < 10 ^ Z.of_nat (S n) ->
  exists ds, generate fuel incl (10 ^ Z.of_nat n * U) (r * U) mi pl = Some (ds, false) /\
             digits_upto n r ds.
Proof.
  induction n as [|n IH]; intros fuel U r mi pl Hf Hmi Hpl Hr;
    (destruct fuel as [|fuel]; [lia|]);
    rewrite generate_int_step by (try apply pow10_pos; lia).
  - change (Z.of_nat 0) with 0. rewrite Z.pow_0_r, Z.mod_1_r. cbn [Z.eqb].
    eexists. split; [reflexivity|]. apply (digits_upto_one 0 r Hr), Z.mod_1_r.
  - destruct (Z.eqb_spec (r mod 10 ^ Z.of_nat (S n)) 0) as [Z0|NZ].
    { eexists. split; [reflexivity|]. now apply digits_upto_one. }
    assert (HT : 0 < 10 ^ Z.of_nat (S n)) by (apply pow10_pos; lia).
    pose proof (Z.mod_pos_bound r (10 ^ Z.of_nat (S n)) HT) as B.
    replace (10 ^ Z.of_nat (S n) * U) with (10 ^ Z.of_nat n * (10 * U))
      by (rewrite pow10_S; ring).
    replace (10 * (r mod 10 ^ Z.of_nat (S n) * U))
      with (r mod 10 ^ Z.of_nat (S n) * (10 * U)) by ring.
    destruct (IH fuel (10 * U) (r mod 10 ^ Z.of_nat (S n)) (10 * mi) (10 * pl))
      as (ds & -> & Hds); try lia.
    eexists. split; [reflexivity|]. now apply digits_upto_cons.
Qed.

Lemma pow10_346_lt : 10 ^ 16 * 10 ^ 330 < 10 ^ 700.
Proof. now vm_compute. Qed.

Lemma pow2_55_lt : 2 ^ 55 < 10 ^ 330.
Proof. now vm_compute. Qed.

Lemma pow2_53_lt : 2 ^ 53 < 10 ^ 16.
Proof. now vm_compute. Qed.

Lemma pow10_lt_inv (a b : Z) : 0 <= b -> 10 ^ a < 10 ^ b -> a < b.
Proof. intros Hb H. apply (Z.pow_lt_mono_r_iff 10); lia. Qed.

(** The fractional form of an integer-valued datum below [2^53]: the
    integer over [1], both multiplied by a power of two, with an interval
    narrower than that power. *)
Lemma fractional_integer (m : positive) (e p : Z) :
  -53 <= e <= 0 -> 2 ^ 52 <= Z.pos m -> Z.pos m = p * 2 ^ (- e) ->
  exists S pl, fractional (decode m e) = (p * S, 1, pl, S) /\
               0 < pl < S /\ 1 < S /\ S <= 2 ^ 55.
Proof.
  intros He Hm E. unfold decode, min_normal_mantissa.
  assert (P : 1 <= 2 ^ (- e)) by (change 1 with (2 ^ 0); apply pow2_le; lia).
  destruct (Z.ltb_spec (Z.pos m) (2 ^ 52)) as [|_]; [lia|].
  destruct (Z.eqb_spec (Z.pos m) (2 ^ 52)) as [_|_]; unfold fractional;
    cbn [exp mant minus plus].
  - destruct (Z.ltb_spec (e - 2) 0) as [_|]; [|lia].
    replace (- (e - 2)) with (- e + 2) by lia.
    assert (2 ^ (- e + 2) <= 2 ^ 55) as B by (apply pow2_le; lia).
    rewrite pow2_add in B |- * by lia. change (2 ^ 2) with 4 in B |- *.
    exists (2 ^ (- e) * 4), 2.
    replace (4 * Z.pos m) with (p * (2 ^ (- e) * 4)) by lia. split; [reflexivity | lia].
  - destruct (Z.ltb_spec (e - 1) 0) as [_|]; [|lia].
    replace (- (e - 1)) with (- e + 1) by lia.
    assert (2 ^ (- e + 1) <= 2 ^ 55) as B by (apply pow2_le; lia).
    rewrite pow2_add in B |- * by lia. change (2 ^ 1) with 2 in B |- *.
    exists (2 ^ (- e) * 2), 1.
    replace (2 * Z.pos m) with (p * (2 ^ (- e) * 2)) by lia. split; [reflexivity | lia].
Qed.

Lemma integer_in_reach (p pl S : Z) :
  0 < pl < S -> S <= 2 ^ 55 -> 0 < p < 10 ^ 16 -> in_reach (p * S, 1, pl, S).
Proof.
  intros Hpl HS Hp. pose proof pow10_346_lt as A. pose proof pow2_55_lt as B.
  assert (T : 0 < 10 ^ 330) by (apply pow10_pos; lia).
  unfold in_reach. revert A B T Hp HS. generalize (10 ^ 330) (10 ^ 700) (10 ^ 16) (2 ^ 55).
  intros t u q w A B T Hp HS.
  repeat split; try lia; [nia|].
  apply Z.lt_trans with (S * (q * t)); [|nia].
  replace (S * (q * t)) with (q * S * t) by ring.
  apply Z.mul_lt_mono_pos_r; [exact T | nia].
Qed.

(** The digits of an integer-valued datum are those of the integer up to
    the last one that is not zero, and [k] is the number of digits of the
    integer. *)
Lemma format_shortest_integer (d : Decoded) (p pl S : Z) :
  fractional d = (p * S, 1, pl, S) ->
  0 < pl < S -> 1 < S -> S <= 2 ^ 55 -> 0 < p < 10 ^ 16 ->
  exists ds k, format_shortest d = Some (ds, k) /\ 0 < k /\
               digits_upto (Z.to_nat (k - 1)) p ds /\ 0 < hd 0 ds.
Proof.
  intros Hf Hpl HS HS' Hp. unfold format_shortest.
  pose proof (scaled_by_tight (inclusive d) _ (integer_in_reach p pl S Hpl HS' Hp)) as T.
  rewrite Hf. set (k := scaling_factor (inclusive d) (p * S, 1, pl, S)) in *. clearbody k.
  unfold scaled_by in *. destruct (Z.leb_spec 0 (k - 1)) as [K|K];
    destruct T as (_ & _ & _ & _ & T & F & _); apply before_true in T; apply before_false in F.
  - assert (P : 0 < 10 ^ (k - 1)) by (apply pow10_pos; lia).
    assert (Lo : 10 ^ (k - 1) <= p) by nia.
    assert (Hi : p < 10 * 10 ^ (k - 1)) by nia.
    assert (K16 : k - 1 < 16) by (apply pow10_lt_inv; lia).
    destruct (generate_int (Z.to_nat (k - 1)) (inclusive d) 17 S p 1 pl)
      as (ds & G & Hds); try lia; [rewrite pow10_S, Z2Nat.id by lia; lia|].
    rewrite Z2Nat.id in G by lia. rewrite (Z.mul_comm S). change digits_fuel with 17%nat.
    rewrite G. exists ds, k. repeat split; try apply Hds; [lia|].
    destruct Hds as (_ & _ & -> & _). rewrite Z2Nat.id by lia. apply Z.div_str_pos. lia.
  - exfalso. assert (P : 10 <= 10 ^ (1 - k)).
    { replace (1 - k) with (- k + 1) by lia. rewrite pow10_succ by lia.
      assert (0 < 10 ^ (- k)) by (apply pow10_pos; lia). lia. }
    revert P F. generalize (10 ^ (1 - k)). intros u P F.
    assert (S <= p * S) by nia.
    assert (S * 10 <= p * S * u) by (apply Z.mul_le_mono_nonneg; lia).
    assert (0 < pl * u) by nia. lia.
Qed.

(** ** The digits of the Standard Library *)

(** A string of digits as a decimal numeral of the Standard Library. *)
Definition digit_uint (d : Z) (u : Decimal.uint) : Decimal.uint :=
  match d with
  | 0 => Decimal.D0 u | 1 => Decimal.D1 u | 2 => Decimal.D2 u | 3 => Decimal.D3 u
  | 4 => Decimal.D4 u | 5 => Decimal.D5 u | 6 => Decimal.D6 u | 7 => Decimal.D7 u
  | 8 => Decimal.D8 u | _ => Decimal.D9 u
  end.

Fixpoint uint_of (ds : list Z) : Decimal.uint :=
  match ds with
  | [] => Decimal.Nil
  | d :: ds' => digit_uint d (uint_of ds')
  end.

Lemma digit_inv (d : Z) :
  digit d ->
  d = 0 \/ d = 1 \/ d = 2 \/ d = 3 \/ d = 4 \/ d = 5 \/ d = 6 \/ d = 7 \/ d = 8 \/ d = 9.
Proof. unfold digit. lia. Qed.

(** Case analysis on a digit. *)
Ltac digit_cases H :=
  destruct (digit_inv _ H) as [->|[->|[->|[->|[->|[->|[->|[->|[->| ->]]]]]]]]].

Lemma of_uint_acc_value (ds : list Z) :
  Forall digit ds ->
  forall acc, Z.pos (Pos.of_uint_acc (uint_of ds) acc)
              = Z.pos acc * 10 ^ Z.of_nat (List.length ds) + digits_value ds.
Proof.
  induction 1 as [|d ds Hd _ IH]; intros acc; cbn [uint_of digits_value List.length].
  - change (Z.of_nat 0) with 0. rewrite Z.pow_0_r. cbn [Pos.of_uint_acc]. lia.
  - rewrite pow10_S. digit_cases Hd; cbn [digit_uint Pos.of_uint_acc]; rewrite IH;
      rewrite ?Pos2Z.inj_add, Pos2Z.inj_mul; ring.
Qed.

(** The numeral denotes the number the digits denote. *)
Lemma of_uint_value (ds : list Z) :
  Forall digit ds -> Z.of_N (Pos.of_uint (uint_of ds)) = digits_value ds.
Proof.
  induction 1 as [|d ds Hd F IH]; cbn [uint_of digits_value]; [reflexivity|].
  digit_cases Hd; cbn [digit_uint Pos.of_uint]; [rewrite IH; lia|..];
    cbn [Z.of_N]; now rewrite of_uint_acc_value.
Qed.

(** Digits that start with a digit other than zero are the numeral of the
    number they denote. *)
Lemma to_uint_digits (p : positive) (ds : list Z) :
  Forall digit ds -> 0 < hd 0 ds -> digits_value ds = Z.pos p ->
  Pos.to_uint p = uint_of ds.
Proof.
  intros F H V.
  assert (E : Pos.of_uint (uint_of ds) = Npos p)
    by (apply N2Z.inj; now rewrite of_uint_value, V).
  change (Pos.to_uint p) with (N.to_uint (Npos p)). rewrite <- E, Unsigned.to_of.
  destruct F as [|d ds Hd F]; cbn [hd] in H; [lia|].
  digit_cases Hd; [lia|..]; reflexivity.
Qed.

Lemma digit_byte_uint (ds : list Z) :
  Forall digit ds -> bytes (NilEmpty.string_of_uint (uint_of ds)) = map digit_byte ds.
Proof.
  induction 1 as [|d ds Hd _ IH]; [reflexivity|]. cbn [uint_of map].
  rewrite <- IH. now digit_cases Hd.
Qed.

(** The decimal digits of an integer are any digits that denote it and
    do not start with zero. *)
Lemma decimal_digits (p : positive) (ds : list Z) :
  Forall digit ds -> 0 < hd 0 ds -> digits_value ds = Z.pos p ->
  forall s, decimal (cond_Zopp s (Z.pos p)) = sign_str s ++ map digit_byte ds.
Proof.
  intros F H V s. rewrite <- (digit_byte_uint ds F).
  unfold decimal. destruct s; cbn [cond_Zopp Z.opp Z.to_int NilZero.string_of_int];
    rewrite (to_uint_digits p ds F H V);
    (destruct F as [|d ds Hd F]; cbn [hd] in H; [lia|]);
    now digit_cases Hd.
Qed.

(** ** Integers are written as their decimal digits *)

(** Digits followed by no point: the digits and the zeros up to the
    point. *)
Lemma digits_to_dec_str_integer (ds : list Z) (k : Z) :
  0 < Z.of_nat (List.length ds) <= k ->
  digits_to_dec_str ds k
  = map digit_byte (ds ++ repeat 0 (Z.to_nat (k - Z.of_nat (List.length ds)))).
Proof.
  intros H. unfold digits_to_dec_str.
  destruct (Z.leb_spec k 0); [lia|].
  destruct (Z.ltb_spec k (Z.of_nat (List.length ds))); [lia|].
  now rewrite map_app, map_repeat.
Qed.

(** The digits up to the last one that is not zero, with the zeros put
    back, are the digits of the integer. *)
Lemma digits_upto_all (n : nat) (p : positive) (ds : list Z) :
  digits_upto n (Z.pos p) ds -> 0 < hd 0 ds ->
  let all := ds ++ repeat 0 (Z.to_nat (Z.of_nat (S n) - Z.of_nat (List.length ds))) in
  0 < Z.of_nat (List.length ds) /\ Forall digit all /\ 0 < hd 0 all /\
  digits_value all = Z.pos p.
Proof.
  intros (L & F & _ & V) H. cbn zeta. repeat split.
  - destruct ds; [cbn in H; lia | cbn [List.length]; lia].
  - apply Forall_app. split; [exact F|]. apply Forall_forall.
    intros x Hx. apply repeat_spec in Hx as ->. unfold digit. lia.
  - destruct ds; [cbn in H; lia | exact H].
  - rewrite digits_value_app_zeros, Z2Nat.id by lia. exact V.
Qed.

(** A datum whose value is the integer [p], below [2^53], is written as
    the decimal digits of [p] after its sign. *)
Lemma display_f64_finite (s : bool) (m p : positive) (e : Z) :
  -53 <= e <= 0 -> 2 ^ 52 <= Z.pos m -> Z.pos m = Z.pos p * 2 ^ (- e) -> Z.pos p < 2 ^ 53 ->
  display_f64 (S754_finite s m e) = decimal (cond_Zopp s (Z.pos p)).
Proof.
  intros He Hm E Hp. pose proof pow2_53_lt.
  destruct (fractional_integer m e (Z.pos p) He Hm E) as (S & pl & Hf & Hpl & HS & HS').
  cbn [display_f64].
  destruct (format_shortest_integer _ _ _ _ Hf Hpl HS HS') as (ds & k & -> & Hk & Hds & Hd);
    [lia|].
  pose proof (digits_upto_all _ p ds Hds Hd) as A. cbn zeta in A.
  rewrite Nat2Z.inj_succ, Z2Nat.id in A by lia.
  replace (Z.succ (k - 1)) with k in A by lia. destruct A as (L & F & H0 & V).
  rewrite digits_to_dec_str_integer by (destruct Hds as (Hl & _); lia).
  symmetry. now apply decimal_digits.
Qed.

(** Every integer of the safe range other than zero is written as its
    decimal digits. *)
Lemma display_f64_of_Z (n : Z) :
  safe n = true -> n <> 0 -> display_f64 (b64_of_Z n) = decimal n.
Proof.
  unfold safe. intros Hs Hn. boolZ.
  destruct (Z.eq_dec (Z.abs n) (2 ^ 53)) as [E|E].
  { destruct (Z.abs_spec n) as [[_ A]|[_ A]]; rewrite A in E.
    - subst n. now vm_compute.
    - replace n with (- 2 ^ 53) by lia. now vm_compute. }
  assert (G : forall s p, Z.pos p < 2 ^ 53 ->
              display_f64 (binary_round prec emax s p 0) = decimal (cond_Zopp s (Z.pos p))).
  { intros s p Hp. rewrite binary_round_small by exact Hp.
    pose proof (digits_small p Hp). pose proof (digits2_pos_bounds p) as [Lo Hi].
    set (d := Z.pos (digits2_pos p)) in *.
    assert (0 < d) by (unfold d; lia).
    assert (V : Z.pos (shl p (53 - d)) = Z.pos p * 2 ^ (53 - d)) by (apply shl_value; lia).
    apply display_f64_finite; trivial; [lia| |rewrite V; f_equal; f_equal; lia].
    rewrite V. replace 52 with (d - 1 + (53 - d)) by lia. rewrite pow2_add by lia.
    apply Z.mul_le_mono_nonneg_r; [apply Z.lt_le_incl, pow2_pos; lia | exact Lo]. }
  destruct n as [|p|p]; [easy| |]; unfold b64_of_Z; cbn [binary_normalize].
  - apply (G false). lia.
  - apply (G true). lia.
Qed.

(** ** What is written *)

(** C16. [Display] writes every integer of the safe range other than zero
    as its decimal digits, with a minus sign when it is negative: no
    point, no exponent, no digit lost. *)
Theorem display_f64_integer (n : Z) :
  safe n = true -> n <> 0 -> display_f64 (b64_of_Z n) = decimal n.
Proof. exact (display_f64_of_Z n). Qed.

(** The [7] that [main] prints. *)
Lemma display_f64_integer_witness : display_f64 (b64_of_Z 7) = decimal 7.
Proof. apply display_f64_integer; [reflexivity | discriminate]. Defined.

(** C29. The generation of digits ends on every finite datum of the
    format within the 17 digits it is given: [Display] writes the sign,
    then the digits found, with the point where [k] says. *)
Theorem display_f64_total (s : bool) (m : positive) (e : Z) :
  bounded prec emax m e = true ->
  exists ds k, format_shortest (decode m e) = Some (ds, k) /\
               display_f64 (S754_finite s m e) = sign_str s ++ digits_to_dec_str ds k.
Proof.
  intros H. destruct (format_shortest_Some m e H) as (ds & k & E).
  exists ds, k. split; [exact E|]. cbn [display_f64]. now rewrite E.
Qed.

(** On [0.1], the datum of mantissa [0x1999999999999a] at exponent
    [-56]. *)
Lemma display_f64_total_witness :
  exists ds k, format_shortest (decode 7205759403792794 (-56)) = Some (ds, k) /\
               display_f64 (S754_finite false 7205759403792794 (-56))
               = sign_str false ++ digits_to_dec_str ds k.
Proof. apply display_f64_total. reflexivity. Defined.

(** What the standard library writes on some data, as the model computes
    it: fractions, the sum [0.1 + 0.2] that the calculator holds after
    [add(0.1).add(0.2)], the least subnormal datum with [k] far below
    zero, a datum whose upper end is [10^23], and the special data. *)
Example display_f64_examples :
  let x01 := S754_finite false 7205759403792794 (-56) in
  let x02 := S754_finite false 7205759403792794 (-55) in
  display_f64 x01 = bytes "0.1" /\
  display_f64 (get_value (add (add new x01) x02)) = bytes "0.30000000000000004" /\
  display_f64 (S754_finite false 5404319552844595 (-54)) = bytes "0.3" /\
  display_f64 (S754_finite true 6004799503160661 (-53)) = bytes "-0.6666666666666666" /\
  display_f64 (S754_finite false 6755399441055744 (-52)) = bytes "1.5" /\
  format_shortest (decode 1 (-1074)) = Some ([5], -323) /\
  display_f64 (S754_finite false 5960464477539062 24) = bytes "100000000000000000000000" /\
  display_f64 (S754_zero true) = bytes "-0" /\
  display_f64 (S754_infinity true) = bytes "-inf" /\
  display_f64 S754_nan = bytes "NaN".
Proof. now vm_compute. Qed.

Section Prints.
Context {F : Type} {ops : Float64 F} {ok : Float64Correct F}.

(** [main] with the [Display] of the standard library, on any arithmetic
    that implements binary64. *)
Lemma main_display (out : str) :
  main (fun x : F => display_f64 (to_spec x)) out
  = out ++ bytes "Calculator result: 7" ++ [newline]
        ++ bytes "Hello, Rust MCP!" ++ [newline].
Proof.
  unfold main, println. cbn [write].
  rewrite main_value, display_f64_of_Z by easy.
  rewrite <- !app_assoc. reflexivity.
Qed.

(** C7. [main] appends exactly two lines to standard output,
    ["Calculator result: 7"] and ["Hello, Rust MCP!"], with the [Display]
    of the standard library and on every correct implementation of the
    arithmetic: nothing is assumed of how a float is written. *)
Theorem main_prints (out : str) :
  main (fun x : F => display_f64 (to_spec x)) out
  = out ++ bytes "Calculator result: 7" ++ [newline]
        ++ bytes "Hello, Rust MCP!" ++ [newline].
Proof. exact (main_display out). Qed.

End Prints.

(** On the IEEE model, from an empty standard output. *)
Lemma main_prints_witness :
  main display_f64 []
  = [] ++ bytes "Calculator result: 7" ++ [newline] ++ bytes "Hello, Rust MCP!" ++ [newline].
Proof. exact (main_prints (ok := Float64Correct_b64) []). Defined.
