(* ===== verification/Readback.v ===== *)
(** * Readback: the number that is written

    The digits [ds] with the exponent [k] that [format_shortest] returns
    stand for the number [0.d1 d2 ... dn * 10^k]: [written ds k].  This
    file relates the text [Display] writes to the datum, over the
    rationals:

    - the number written lies in the interval of [decode], between the
      middles to the neighbouring data ([format_shortest_interval],
      [decode_interval], [written_interval]);
    - [read_decimal] is a reader of positional decimals, the
      specification of what a text means; the text of
      [digits_to_dec_str] reads as [written] ([read_digits_to_dec_str]);
    - the data of the format are apart by a unit in the last place above
      and by the gap below ([spacing]), so a number between the middles
      around a datum has no datum nearer ([nearest_magnitude],
      [nearest_datum]);
    - together: of all finite data none is nearer to the number the text
      denotes than the datum written ([display_f64_reads_back]). *)

From Stdlib Require Import String.
From Stdlib Require Import ZArith Lia Bool List SpecFloat QArith Qabs Qpower Lqa.
From Stdlib.Strings Require Import Byte.
From S2P Require Import Prelude Binary64 Rounding Valid Accuracy Greet Display.
Import ListNotations.

#[local] Open Scope Q_scope.

(** The number the digits [ds] denote with the decimal point [k] places
    after the first. *)
Definition written (ds : list Z) (k : Z) : Q :=
  inject_Z (digits_value ds) * 10 ^ (k - Z.of_nat (List.length ds)).

(** ** Powers of ten in [Q] *)

Lemma Qpow10_pos (e : Z) : 0 < 10 ^ e.
Proof. now apply Qpower_0_lt. Qed.

Lemma Qpow10_add (a b : Z) : 10 ^ (a + b) == 10 ^ a * 10 ^ b.
Proof. now apply Qpower_plus. Qed.

Lemma Qpow10_inject (k : Z) : (0 <= k)%Z -> inject_Z (10 ^ k) == 10 ^ k.
Proof. intros H. now rewrite Zpower_Qpower. Qed.

(** ** Fractions of integers as rationals *)

(** [c' / s] is [x]. *)
Definition ratio (c' s : Z) (x : Q) : Prop := inject_Z c' == x * inject_Z s.

(** The ends of an interval of fractions with a common denominator. *)
Lemma ratio_interval (m mi pl s A Mi Pl : Z) (a p : Q) :
  ratio m s (inject_Z A * a * p) -> ratio mi s (inject_Z Mi * a * p) ->
  ratio pl s (inject_Z Pl * a * p) ->
  ratio (m - mi) s (inject_Z (A - Mi) * a * p) /\
  ratio (m + pl) s (inject_Z (A + Pl) * a * p).
Proof.
  unfold ratio, Z.sub. intros Hm Hmi Hpl.
  rewrite !inject_Z_plus, !inject_Z_opp, Hm, Hmi, Hpl. split; ring.
Qed.

(** The fractional form of a decoded datum denotes the datum, and so do
    the distances to the ends of its interval. *)
Lemma fractional_ratio (d : Decoded) :
  let '(m, mi, pl, sc) := fractional d in
  ratio m sc (inject_Z (mant d) * 2 ^ exp d) /\
  ratio mi sc (inject_Z (minus d) * 2 ^ exp d) /\
  ratio pl sc (inject_Z (plus d) * 2 ^ exp d).
Proof.
  assert (N : forall c, (exp d < 0)%Z ->
            ratio c (2 ^ (- exp d)) (inject_Z c * 2 ^ exp d)).
  { intros c H. unfold ratio. rewrite Qpow2_inject, <- Qmult_assoc, <- Qpow2_add by lia.
    replace (exp d + - exp d)%Z with 0%Z by lia. change (2 ^ 0) with 1. ring. }
  assert (P : forall c, (0 <= exp d)%Z ->
            ratio (c * 2 ^ exp d) 1 (inject_Z c * 2 ^ exp d)).
  { intros c H. unfold ratio. rewrite inject_Z_mult, Qpow2_inject by lia. ring. }
  unfold fractional. destruct (Z.ltb_spec (exp d) 0); auto.
Qed.

(** Scaling by [k0] divides the number by [10^(k0-1)]. *)
Lemma scaled_by_ratio (k0 m mi pl sc : Z) (x y z : Q) :
  ratio m sc x -> ratio mi sc y -> ratio pl sc z ->
  let '(m', mi', pl', sc') := scaled_by k0 (m, mi, pl, sc) in
  ratio m' sc' (x * 10 ^ (1 - k0)) /\ ratio mi' sc' (y * 10 ^ (1 - k0)) /\
  ratio pl' sc' (z * 10 ^ (1 - k0)).
Proof.
  assert (P : forall c w, (0 <= k0 - 1)%Z -> ratio c sc w ->
            ratio c (sc * 10 ^ (k0 - 1)) (w * 10 ^ (1 - k0))).
  { unfold ratio. intros c w H R. rewrite R, inject_Z_mult, Qpow10_inject by lia.
    setoid_replace (w * 10 ^ (1 - k0) * (inject_Z sc * 10 ^ (k0 - 1)))
      with (w * inject_Z sc * (10 ^ (1 - k0) * 10 ^ (k0 - 1))) by ring.
    rewrite <- Qpow10_add. replace (1 - k0 + (k0 - 1))%Z with 0%Z by lia.
    change (10 ^ 0) with 1. ring. }
  assert (N : forall c w, (k0 - 1 < 0)%Z -> ratio c sc w ->
            ratio (c * 10 ^ (1 - k0)) sc (w * 10 ^ (1 - k0))).
  { unfold ratio. intros c w H R. rewrite inject_Z_mult, R, Qpow10_inject by lia. ring. }
  intros Hm Hmi Hpl. unfold scaled_by. destruct (Z.leb_spec 0 (k0 - 1)); auto.
Qed.

(** From a comparison of integers at the scale of [k0] with [n] digits to
    the comparison of the numbers. *)
Lemma ratio_le (X V s k0 n : Z) (x : Q) :
  (0 < s)%Z -> (0 <= n)%Z -> ratio X s (x * 10 ^ (1 - k0)) ->
  ((X * 10 ^ n <= 10 * (V * s))%Z -> x <= inject_Z V * 10 ^ (k0 - n)) /\
  ((10 * (V * s) <= X * 10 ^ n)%Z -> inject_Z V * 10 ^ (k0 - n) <= x).
Proof.
  unfold ratio. intros Hs Hn R.
  assert (S0 : 0 < inject_Z s) by (change 0 with (inject_Z 0); now rewrite <- Zlt_Qlt).
  pose proof (Qpow10_pos (1 - k0)) as P. pose proof (Qpow10_pos n) as T.
  assert (E : 10 ^ (k0 - n) * 10 ^ (1 - k0) * 10 ^ n == 10).
  { rewrite <- !Qpow10_add. now replace (k0 - n + (1 - k0) + n)%Z with 1%Z by lia. }
  assert (L : inject_Z (X * 10 ^ n) == x * (10 ^ (1 - k0) * 10 ^ n * inject_Z s))
    by (rewrite inject_Z_mult, Qpow10_inject, R by lia; ring).
  assert (U : inject_Z (10 * (V * s))
              == inject_Z V * 10 ^ (k0 - n) * (10 ^ (1 - k0) * 10 ^ n * inject_Z s)).
  { rewrite !inject_Z_mult.
    setoid_replace (inject_Z V * 10 ^ (k0 - n) * (10 ^ (1 - k0) * 10 ^ n * inject_Z s))
      with (10 ^ (k0 - n) * 10 ^ (1 - k0) * 10 ^ n * (inject_Z V * inject_Z s)) by ring.
    now rewrite E. }
  assert (C : 0 < 10 ^ (1 - k0) * 10 ^ n * inject_Z s)
    by (repeat apply Qmult_lt_0_compat; assumption).
  split; intros H; rewrite Zle_Qle, L, U in H; now apply Qmult_le_r in H.
Qed.

(** ** The number written and the datum *)

(** The number written lies in the interval of the datum. *)
Lemma format_shortest_interval (m : positive) (e : Z) (ds : list Z) (k : Z) :
  bounded prec emax m e = true -> format_shortest (decode m e) = Some (ds, k) ->
  let d := decode m e in
  inject_Z (mant d - minus d) * 2 ^ exp d <= written ds k /\
  written ds k <= inject_Z (mant d + plus d) * 2 ^ exp d.
Proof.
  intros H G. cbv zeta. set (d := decode m e) in *.
  pose proof (format_shortest_sound d ds k (decode_in_reach m e H) G) as S. cbv zeta in S.
  set (k0 := scaling_factor _ _) in S. clearbody k0.
  pose proof (fractional_ratio d) as R.
  destruct (fractional d) as [[[m0 mi] pl] sc]. destruct R as (Rm & Rmi & Rpl).
  pose proof (scaled_by_ratio k0 _ _ _ _ _ _ _ Rm Rmi Rpl) as R'.
  destruct (scaled_by k0 _) as [[[m' mi'] pl'] sc']. destruct R' as (Rm' & Rmi' & Rpl').
  destruct S as (Hsc & Hn & _ & Lo & Hi). apply before_true in Lo, Hi.
  unfold written.
  replace (k - Z.of_nat (List.length ds))%Z
    with (k0 - (Z.of_nat (List.length ds) - (k - k0)))%Z by lia.
  destruct (ratio_interval _ _ _ _ _ _ _ _ _ Rm' Rmi' Rpl') as [Rlo Rhi].
  split.
  - now apply (ratio_le _ _ _ _ _ _ Hsc Hn Rlo).
  - now apply (ratio_le _ _ _ _ _ _ Hsc Hn Rhi).
Qed.

(** Half the distance from a datum to the next one below it: a quarter
    of a unit in the last place at the least mantissa of a binade, where
    the data below are twice as dense, half a unit elsewhere.  Above it is
    always half a unit. *)
Definition half_gap_below (m : positive) (e : Z) : Q :=
  if (Z.pos m =? min_normal_mantissa)%Z then 2 ^ (e - 2) else 2 ^ (e - 1).

(** The ends of the interval of [decode], from the datum. *)
Lemma decode_interval (m : positive) (e : Z) :
  let d := decode m e in
  inject_Z (mant d - minus d) * 2 ^ exp d
  == inject_Z (Z.pos m) * 2 ^ e - half_gap_below m e /\
  inject_Z (mant d + plus d) * 2 ^ exp d == inject_Z (Z.pos m) * 2 ^ e + 2 ^ (e - 1).
Proof.
  assert (E1 : 2 ^ e == 2 * 2 ^ (e - 1)).
  { rewrite <- (Qpow2_add 1). f_equiv. lia. }
  assert (E2 : 2 ^ (e - 1) == 2 * 2 ^ (e - 2)).
  { rewrite <- (Qpow2_add 1). f_equiv. lia. }
  assert (Sub : forall a b, inject_Z (a - b) == inject_Z a - inject_Z b)
    by (intros a b; unfold Z.sub; rewrite inject_Z_plus, inject_Z_opp; ring).
  cbv zeta. unfold decode, half_gap_below.
  destruct (Z.ltb_spec (Z.pos m) min_normal_mantissa) as [L|L];
    destruct (Z.eqb_spec (Z.pos m) min_normal_mantissa) as [E|E]; try lia;
    cbn [mant minus plus exp];
    rewrite Sub, inject_Z_plus, !inject_Z_mult, E1, ?E2;
    change (inject_Z 1) with 1; change (inject_Z 2) with 2; change (inject_Z 4) with 4;
    split; ring.
Qed.

(** The number written is no farther from the datum than half the
    distance to the next datum on either side. *)
Lemma written_interval (m : positive) (e : Z) (ds : list Z) (k : Z) :
  bounded prec emax m e = true -> format_shortest (decode m e) = Some (ds, k) ->
  inject_Z (Z.pos m) * 2 ^ e - half_gap_below m e <= written ds k /\
  written ds k <= inject_Z (Z.pos m) * 2 ^ e + 2 ^ (e - 1).
Proof.
  intros H G. destruct (format_shortest_interval m e ds k H G) as [Lo Hi].
  destruct (decode_interval m e) as [L U]. now rewrite <- L, <- U.
Qed.

Lemma half_gap_below_le (m : positive) (e : Z) : half_gap_below m e <= 2 ^ (e - 1).
Proof.
  unfold half_gap_below. destruct (Z.eqb_spec (Z.pos m) min_normal_mantissa); [|lra].
  assert (E2 : 2 ^ (e - 1) == 2 * 2 ^ (e - 2))
    by (rewrite <- (Qpow2_add 1); f_equiv; lia).
  pose proof (Qpow2_pos (e - 2)). lra.
Qed.

Lemma half_gap_below_pos (m : positive) (e : Z) : 0 < half_gap_below m e.
Proof. unfold half_gap_below. destruct (_ =? _)%Z; apply Qpow2_pos. Qed.

(** The number written is within half a unit in the last place of the
    datum. *)
Lemma written_half_ulp (m : positive) (e : Z) (ds : list Z) (k : Z) :
  bounded prec emax m e = true -> format_shortest (decode m e) = Some (ds, k) ->
  Qabs (written ds k - inject_Z (Z.pos m) * 2 ^ e) <= 2 ^ (e - 1).
Proof.
  intros H G. destruct (written_interval m e ds k H G) as [Lo Hi].
  pose proof (half_gap_below_le m e). apply Qabs_Qle_condition. split; lra.
Qed.

(** ** Reading the text *)

(** A reader of positional decimals: digits, then possibly a point and
    digits.  It is the specification of what the text means, not code of
    the crate. *)
Definition digit_of_byte (b : Byte.byte) : option Z :=
  let n := Z.of_N (Byte.to_N b) in
  if ((48 <=? n) && (n <=? 57))%Z then Some (n - 48)%Z else None.

Fixpoint read_digits (t : str) : option (list Z) :=
  match t with
  | [] => Some []
  | b :: t' =>
      match digit_of_byte b, read_digits t' with
      | Some d, Some ds => Some (d :: ds)
      | _, _ => None
      end
  end.

Definition point : Byte.byte := "."%byte.

(** The text before the first point, and the text after it if there is
    one. *)
Fixpoint split_point (t : str) : str * option str :=
  match t with
  | [] => ([], None)
  | b :: t' =>
      if Byte.eqb b point then ([], Some t')
      else let '(i, f) := split_point t' in (b :: i, f)
  end.

Definition read_decimal (t : str) : option Q :=
  let '(i, f) := split_point t in
  match read_digits i, f with
  | Some ids, None => Some (inject_Z (digits_value ids))
  | Some ids, Some ft =>
      match read_digits ft with
      | Some fds =>
          Some (inject_Z (digits_value (ids ++ fds)) * 10 ^ (- Z.of_nat (List.length fds)))
      | None => None
      end
  | None, _ => None
  end.

Lemma digit_of_digit_byte (d : Z) : digit d -> digit_of_byte (digit_byte d) = Some d.
Proof. intros H. now digit_cases H. Qed.

Lemma digit_byte_not_point (d : Z) : digit d -> Byte.eqb (digit_byte d) point = false.
Proof. intros H. now digit_cases H. Qed.

Lemma read_digits_map (ds : list Z) :
  Forall digit ds -> read_digits (map digit_byte ds) = Some ds.
Proof.
  induction 1 as [|d ds Hd _ IH]; [reflexivity|].
  cbn [map read_digits]. now rewrite digit_of_digit_byte, IH.
Qed.

Lemma split_point_digits (ds : list Z) (t : str) :
  Forall digit ds ->
  split_point (map digit_byte ds ++ t)
  = (map digit_byte ds ++ fst (split_point t), snd (split_point t)).
Proof.
  induction 1 as [|d ds Hd _ IH]; cbn [map app split_point]; [now destruct (split_point t)|].
  now rewrite digit_byte_not_point, IH.
Qed.

(** Digits with a point among them denote the digits divided by ten for
    each digit after the point. *)
Lemma read_decimal_point (ids fds : list Z) :
  Forall digit ids -> Forall digit fds ->
  read_decimal (map digit_byte ids ++ point :: map digit_byte fds)
  = Some (inject_Z (digits_value (ids ++ fds)) * 10 ^ (- Z.of_nat (List.length fds))).
Proof.
  intros Hi Hf. unfold read_decimal. rewrite split_point_digits by exact Hi.
  cbn [split_point]. change (Byte.eqb point point) with true. cbn [fst snd].
  now rewrite app_nil_r, !read_digits_map by assumption.
Qed.

Lemma read_decimal_digits (ids : list Z) :
  Forall digit ids ->
  read_decimal (map digit_byte ids) = Some (inject_Z (digits_value ids)).
Proof.
  intros Hi. unfold read_decimal. rewrite <- (app_nil_r (map _ _)), split_point_digits by exact Hi.
  cbn [split_point fst snd]. now rewrite app_nil_r, read_digits_map by assumption.
Qed.

Lemma Forall_firstn_skipn {A : Type} (P : A -> Prop) (n : nat) (l : list A) :
  Forall P l -> Forall P (firstn n l) /\ Forall P (skipn n l).
Proof. intros H. apply Forall_app. now rewrite firstn_skipn. Qed.

(** The text of [digits_to_dec_str] reads as the number the digits
    denote at the exponent: the point is placed where [k] says. *)
Lemma read_digits_to_dec_str (ds : list Z) (k : Z) :
  Forall digit ds ->
  exists q, read_decimal (digits_to_dec_str ds k) = Some q /\ q == written ds k.
Proof.
  intros H. unfold digits_to_dec_str, written, zeros.
  change (repeat "0"%byte) with (repeat (digit_byte 0)). rewrite <- !map_repeat.
  assert (Z0 : forall j, Forall digit (repeat 0%Z j))
    by (intros j; apply Forall_forall; intros x Hx; apply repeat_spec in Hx as ->;
        unfold digit; lia).
  destruct (Z.leb_spec k 0) as [K|K]; [|destruct (Z.ltb_spec k (Z.of_nat (List.length ds))) as [L|L]].
  - change (bytes "0."%string) with (map digit_byte [0%Z] ++ [point]).
    rewrite <- map_app, <- app_assoc. cbn [app].
    rewrite read_decimal_point by (repeat constructor; try apply Forall_app; auto; unfold digit; lia).
    eexists. split; [reflexivity|].
    rewrite !digits_value_app, digits_value_zeros, length_app, repeat_length, Nat2Z.inj_add, Z2Nat.id by lia.
    cbn [digits_value List.length].
    replace (- (- k + Z.of_nat (List.length ds)))%Z with (k - Z.of_nat (List.length ds))%Z by lia.
    now rewrite !Z.mul_0_l, !Z.add_0_l.
  - destruct (Forall_firstn_skipn digit (Z.to_nat k) ds H) as [Hf Hs].
    change (bytes "."%string) with [point]. rewrite firstn_map, skipn_map. cbn [app].
    rewrite read_decimal_point by assumption.
    eexists. split; [reflexivity|].
    rewrite firstn_skipn, length_skipn, Nat2Z.inj_sub, Z2Nat.id by lia.
    now replace (- (Z.of_nat (List.length ds) - k))%Z with (k - Z.of_nat (List.length ds))%Z by lia.
  - rewrite <- map_app, read_decimal_digits by (apply Forall_app; auto).
    eexists. split; [reflexivity|].
    rewrite digits_value_app_zeros, Z2Nat.id, inject_Z_mult, Qpow10_inject by lia.
    reflexivity.
Qed.

(** ** The data of the format are apart *)

(** Twice [half_gap_below], as an integer at a scale [c] below the
    exponent. *)
Definition gap_below (m : positive) (e c : Z) : Z :=
  if (Z.pos m =? min_normal_mantissa)%Z then (2 ^ (e - 1 - c))%Z else (2 ^ (e - c))%Z.

(** Two data of the format, at a common scale: the one above is at least
    a unit in the last place away, the one below at least the gap
    below. *)
Lemma spacing (m m' : positive) (e e' : Z) :
  bounded prec emax m e = true -> bounded prec emax m' e' = true ->
  let c := (Z.min e e' - 1)%Z in
  let A := (Z.pos m * 2 ^ (e - c))%Z in
  let A' := (Z.pos m' * 2 ^ (e' - c))%Z in
  ((A < A')%Z -> (A + 2 ^ (e - c) <= A')%Z) /\
  ((A' < A)%Z -> (A' + gap_below m e c <= A)%Z).
Proof.
  intros H H'. apply bounded_shape in H as (Hm & He & N), H' as (Hm' & He' & N').
  cbv zeta. unfold gap_below, min_normal_mantissa.
  change (2 ^ 53)%Z with 9007199254740992%Z in *.
  change (2 ^ 52)%Z with 4503599627370496%Z in *.
  destruct (Z.le_gt_cases e e') as [L|L].
  - rewrite Z.min_l by exact L.
    replace (e - (e - 1))%Z with 1%Z by lia. replace (e - 1 - (e - 1))%Z with 0%Z by lia.
    replace (e' - (e - 1))%Z with (e' - e + 1)%Z by lia. rewrite pow2_succ by lia.
    assert (0 < 2 ^ (e' - e))%Z by (apply pow2_pos; lia).
    change (2 ^ 1)%Z with 2%Z. change (2 ^ 0)%Z with 1%Z.
    generalize dependent (2 ^ (e' - e))%Z. intros t Ht.
    destruct (Z.pos m =? 4503599627370496)%Z; split; nia.
  - rewrite Z.min_r by lia.
    replace (e' - (e' - 1))%Z with 1%Z by lia.
    replace (e - (e' - 1))%Z with (e - e' - 1 + 1 + 1)%Z by lia.
    replace (e - 1 - (e' - 1))%Z with (e - e' - 1 + 1)%Z by lia.
    rewrite !pow2_succ by lia. change (2 ^ 1)%Z with 2%Z.
    assert (0 < 2 ^ (e - e' - 1))%Z by (apply pow2_pos; lia).
    generalize dependent (2 ^ (e - e' - 1))%Z. intros t Ht.
    destruct (Z.eqb_spec (Z.pos m) 4503599627370496); split; nia.
Qed.

(** The magnitude of a datum. *)
Definition magnitude (m : positive) (e : Z) : Q := inject_Z (Z.pos m) * 2 ^ e.

Lemma magnitude_at (m : positive) (e c : Z) :
  (c <= e)%Z -> magnitude m e == inject_Z (Z.pos m * 2 ^ (e - c)) * 2 ^ c.
Proof. apply scaled_value. Qed.

Lemma gap_below_Q (m : positive) (e c : Z) :
  (c <= e - 1)%Z -> inject_Z (gap_below m e c) * 2 ^ c == 2 * half_gap_below m e.
Proof.
  intros H. unfold gap_below, half_gap_below.
  destruct (Z.pos m =? min_normal_mantissa)%Z; rewrite Qpow2_inject, <- Qpow2_add by lia.
  - rewrite <- (Qpow2_add 1). f_equiv. lia.
  - rewrite <- (Qpow2_add 1). f_equiv. lia.
Qed.

(** Two absolute values compared through the two signs of the first. *)
Lemma Qabs_le_Qabs (a b : Q) : a <= Qabs b -> - a <= Qabs b -> Qabs a <= Qabs b.
Proof. intros H1 H2. now apply Qabs_case. Qed.

Lemma Qabs_ge_opp (b : Q) : - b <= Qabs b.
Proof. rewrite <- Qabs_opp. apply Qle_Qabs. Qed.

(** A number between the middles around a datum is no farther from it
    than from any other datum of the same sign. *)
Lemma nearest_magnitude (m m' : positive) (e e' : Z) (q : Q) :
  bounded prec emax m e = true -> bounded prec emax m' e' = true ->
  magnitude m e - half_gap_below m e <= q -> q <= magnitude m e + 2 ^ (e - 1) ->
  Qabs (q - magnitude m e) <= Qabs (q - magnitude m' e').
Proof.
  intros H H' Lo Hi. pose proof (spacing m m' e e' H H') as S. cbv zeta in S.
  set (c := (Z.min e e' - 1)%Z) in *.
  assert (Ce : (c <= e - 1)%Z) by lia. assert (Ce' : (c <= e' - 1)%Z) by lia.
  pose proof (gap_below_Q m e c Ce) as G.
  assert (U : inject_Z (2 ^ (e - c)) * 2 ^ c == 2 * 2 ^ (e - 1)).
  { rewrite Qpow2_inject, <- Qpow2_add, <- (Qpow2_add 1) by lia. f_equiv. lia. }
  rewrite (magnitude_at m e c), (magnitude_at m' e' c) in * by lia.
  pose proof (Qpow2_pos c) as Pc. pose proof (Qle_Qabs (q - inject_Z (Z.pos m' * 2 ^ (e' - c)) * 2 ^ c)).
  pose proof (Qabs_ge_opp (q - inject_Z (Z.pos m' * 2 ^ (e' - c)) * 2 ^ c)).
  pose proof (half_gap_below_le m e) as Le. pose proof (half_gap_below_pos m e) as Pg.
  pose proof (Qpow2_pos (e - 1)) as Ph.
  destruct S as [Up Down].
  destruct (Z.lt_total (Z.pos m * 2 ^ (e - c)) (Z.pos m' * 2 ^ (e' - c))) as [L|[E|L]].
  - apply Up in L. rewrite Zle_Qle, inject_Z_plus in L.
    apply (Qmult_le_r _ _ _ Pc) in L. rewrite Qmult_plus_distr_l, U in L.
    apply Qabs_le_Qabs; lra.
  - rewrite E. apply Qle_refl.
  - apply Down in L. rewrite Zle_Qle, inject_Z_plus in L.
    apply (Qmult_le_r _ _ _ Pc) in L. rewrite Qmult_plus_distr_l, G in L.
    apply Qabs_le_Qabs; lra.
Qed.

(** A number with the sign of a datum. *)
Definition with_sign (s : bool) (q : Q) : Q := if s then - q else q.

Lemma b64_to_Q_magnitude (s : bool) (m : positive) (e : Z) :
  b64_to_Q (S754_finite s m e) == with_sign s (magnitude m e).
Proof.
  unfold magnitude. destruct s; cbn [b64_to_Q cond_Zopp with_sign]; [|reflexivity].
  rewrite inject_Z_opp. ring.
Qed.

Lemma Qabs_with_sign (s : bool) (a b : Q) :
  Qabs (with_sign s a - with_sign s b) == Qabs (a - b).
Proof.
  destruct s; cbn [with_sign]; [|reflexivity].
  setoid_replace (- a - - b) with (- (a - b)) by ring. apply Qabs_opp.
Qed.

Lemma magnitude_ge (m : positive) (e : Z) : 2 ^ e <= magnitude m e.
Proof.
  unfold magnitude. rewrite <- (Qmult_1_l (2 ^ e)) at 1.
  apply Qmult_le_compat_r; [|apply Qlt_le_weak, Qpow2_pos].
  change 1 with (inject_Z 1). rewrite <- Zle_Qle. lia.
Qed.

(** A number between the middles around a positive datum is no farther
    from it than from zero or from anything below zero. *)
Lemma nearest_nonpositive (m : positive) (e : Z) (q z : Q) :
  magnitude m e - half_gap_below m e <= q -> q <= magnitude m e + 2 ^ (e - 1) ->
  z <= 0 -> Qabs (q - magnitude m e) <= Qabs (q - z).
Proof.
  intros Lo Hi Hz. pose proof (magnitude_ge m e) as M.
  pose proof (half_gap_below_le m e) as Le. pose proof (Qpow2_pos (e - 1)) as Ph.
  assert (E : 2 ^ e == 2 * 2 ^ (e - 1)) by (rewrite <- (Qpow2_add 1); f_equiv; lia).
  pose proof (Qle_Qabs (q - z)). apply Qabs_le_Qabs; lra.
Qed.

(** The datum is a nearest datum of the format to any number between
    the middles around it. *)
Lemma nearest_datum (s : bool) (m : positive) (e : Z) (q : Q) (y : b64) :
  bounded prec emax m e = true ->
  magnitude m e - half_gap_below m e <= q -> q <= magnitude m e + 2 ^ (e - 1) ->
  b64_valid y = true -> is_finite y = true ->
  Qabs (with_sign s q - b64_to_Q (S754_finite s m e))
  <= Qabs (with_sign s q - b64_to_Q y).
Proof.
  intros H Lo Hi Vy Fy. rewrite b64_to_Q_magnitude, Qabs_with_sign.
  destruct y as [sy| | |sy my ey]; try discriminate Fy.
  - cbn [b64_to_Q]. setoid_replace 0 with (with_sign s 0) by (destruct s; reflexivity).
    rewrite Qabs_with_sign. apply nearest_nonpositive; trivial. apply Qle_refl.
  - rewrite b64_to_Q_magnitude. destruct (Bool.eqb_spec s sy) as [<-|N].
    + rewrite Qabs_with_sign. now apply nearest_magnitude.
    + setoid_replace (with_sign sy (magnitude my ey)) with (with_sign s (- magnitude my ey))
        by (destruct s, sy; cbn [with_sign]; try contradiction; ring).
      rewrite Qabs_with_sign. apply nearest_nonpositive; trivial.
      pose proof (magnitude_ge my ey). pose proof (Qpow2_pos ey). lra.
Qed.

(** ** Writing, then reading *)

(** The text of a finite datum and the number it denotes. *)
Lemma display_f64_written (s : bool) (m : positive) (e : Z) :
  bounded prec emax m e = true ->
  exists t q, display_f64 (S754_finite s m e) = sign_str s ++ t /\
              read_decimal t = Some q /\
              magnitude m e - half_gap_below m e <= q /\
              q <= magnitude m e + 2 ^ (e - 1).
Proof.
  intros H. destruct (format_shortest_Some m e H) as (ds & k & G).
  pose proof (format_shortest_digits _ _ _ (decode_in_reach m e H) G) as D.
  destruct (read_digits_to_dec_str ds k D) as (q & R & E).
  exists (digits_to_dec_str ds k), q. split; [cbn [display_f64]; now rewrite G|].
  split; [exact R|]. rewrite E. now apply written_interval.
Qed.

(** C17. What [Display] writes for a finite datum reads back as the
    datum: after the sign comes a positional decimal, and of all the
    finite data of the format none is nearer to the number it denotes
    than the datum written.  A reader that rounds to nearest returns the
    datum. *)
Theorem display_f64_reads_back (s : bool) (m : positive) (e : Z) :
  bounded prec emax m e = true ->
  exists t q, display_f64 (S754_finite s m e) = sign_str s ++ t /\
              read_decimal t = Some q /\
              forall y, b64_valid y = true -> is_finite y = true ->
                        Qabs (with_sign s q - b64_to_Q (S754_finite s m e))
                        <= Qabs (with_sign s q - b64_to_Q y).
Proof.
  intros H. destruct (display_f64_written s m e H) as (t & q & T & R & Lo & Hi).
  exists t, q. repeat split; trivial. intros y. now apply nearest_datum.
Qed.

(** On [0.1], the datum of mantissa [0x1999999999999a] at exponent
    [-56]. *)
Lemma display_f64_reads_back_witness :
  exists t q, display_f64 (S754_finite false 7205759403792794 (-56)) = sign_str false ++ t /\
              read_decimal t = Some q /\
              forall y, b64_valid y = true -> is_finite y = true ->
                        Qabs (with_sign false q
                              - b64_to_Q (S754_finite false 7205759403792794 (-56)))
                        <= Qabs (with_sign false q - b64_to_Q y).
Proof. apply display_f64_reads_back. reflexivity. Defined.
