(* ===== verification/Exec.v ===== *)
(** * Exec: the machine the crate's functions run on

    [Calculator.v] reads a method of signature [(&mut self, f64) -> &mut Self]
    as a function on the value of the struct.  This file holds what that
    reading abstracts from: local variables that live in slots, references
    that are addresses of slots, standard output, and panics.

    - [state]: the slots of the live local variables, oldest first, and the
      bytes written to standard output.  A [loc] is the index of a slot.
    - [answer]: how a computation ends.  [Returned a s] is a normal return;
      [Panicked s] is an unwinding panic, with the state it leaves;
      [Dangling] is a read or write through a reference to a slot that does
      not exist, which the borrow checker rules out and the theorems of
      [Methods.v] and [Program.v] show never to happen.
    - [exec A], a state and error monad: a function from the state before
      to the answer.  [alloc] is [let mut x = v], [load] and [store] are a
      read and a write through a reference, [emit] writes to standard
      output, [panic] starts unwinding, and [scope] is a block: at its end,
      on return and on unwinding alike, the locals declared in it are dropped.

    Theorems: the monad laws up to pointwise equality ([equiv]), with [mbind]
    a morphism for it; what each operation answers; and the rules of [wp],
    the weakest precondition for total correctness (the computation returns
    and the postcondition holds). *)

From stdpp Require Import base option list.
From S2P Require Import Prelude Float64 Calculator Greet.

(** A reference to a local variable is the index of its slot. *)
Abbreviation loc := nat.

Section Exec.
Context {F : Type}.

Record state : Type := State { locals : list (Calculator F); stdout : str }.

Inductive answer (A : Type) : Type :=
| Returned (a : A) (s : state)
| Panicked (s : state)
| Dangling.

Definition exec (A : Type) : Type := state -> answer A.

End Exec.

Arguments state F : clear implicits.
Arguments answer F A : clear implicits.
Arguments exec F A : clear implicits.
Arguments Returned {F A} a s.
Arguments Panicked {F A} s.
Arguments Dangling {F A}.

Section Monad.
Context {F : Type}.

#[export] Instance exec_ret : MRet (exec F) := fun A a s => Returned a s.

#[export] Instance exec_bind : MBind (exec F) := fun A B k m s =>
  match m s with
  | Returned a s' => k a s'
  | Panicked s' => Panicked s'
  | Dangling => Dangling
  end.

(** Two computations are equivalent when they answer alike from every
    state. *)
#[export] Instance exec_equiv {A : Type} : Equiv (exec F A) :=
  fun m1 m2 => forall s, m1 s = m2 s.

(** ** The operations *)

(** The state with slot [l] holding [c]. *)
Definition set_local (l : loc) (c : Calculator F) (s : state F) : state F :=
  State (<[l:=c]> (locals s)) (stdout s).

(** The state with a new slot holding [c]. *)
Definition push_local (c : Calculator F) (s : state F) : state F :=
  State (locals s ++ [c]) (stdout s).

(** The state with the slots from [depth] on dropped. *)
Definition unwind (depth : nat) (s : state F) : state F :=
  State (take depth (locals s)) (stdout s).

(** [let mut x = c;]: a new slot, and the reference to it. *)
Definition alloc (c : Calculator F) : exec F loc :=
  fun s => Returned (length (locals s)) (push_local c s).

(** A read through a reference. *)
Definition load (l : loc) : exec F (Calculator F) :=
  fun s =>
    match locals s !! l with
    | Some c => Returned c s
    | None => Dangling
    end.

(** A write through a reference. *)
Definition store (l : loc) (c : Calculator F) : exec F unit :=
  fun s =>
    match locals s !! l with
    | Some _ => Returned tt (set_local l c s)
    | None => Dangling
    end.

(** Bytes written to standard output. *)
Definition emit (b : str) : exec F unit :=
  fun s => Returned tt (State (locals s) (stdout s ++ b)).

(** A panic: unwinding starts from the current state. *)
Definition panic {A : Type} : exec F A := fun s => Panicked s.

(** A block: the locals it declares are dropped when control leaves it,
    by return or by unwinding. *)
Definition scope {A : Type} (body : exec F A) : exec F A :=
  fun s =>
    match body s with
    | Returned a s' => Returned a (unwind (length (locals s)) s')
    | Panicked s' => Panicked (unwind (length (locals s)) s')
    | Dangling => Dangling
    end.

(** The weakest precondition for total correctness: from [s] the
    computation returns, and the result and the final state satisfy [Q]. *)
Definition wp {A : Type} (m : exec F A) (Q : A -> state F -> Prop) (s : state F) : Prop :=
  match m s with
  | Returned a s' => Q a s'
  | Panicked _ | Dangling => False
  end.

(** ** Equivalence and the monad laws *)

#[export] Instance exec_equivalence {A : Type} : Equivalence (≡@{exec F A}).
Proof.
  split.
  - now intros m s.
  - intros m1 m2 H s. now rewrite H.
  - intros m1 m2 m3 H1 H2 s. now rewrite H1, H2.
Qed.

#[export] Instance mbind_proper {A B : Type} :
  Proper (pointwise_relation A (≡) ==> (≡) ==> (≡@{exec F B})) mbind.
Proof.
  intros k1 k2 Hk m1 m2 Hm s. unfold mbind, exec_bind. rewrite Hm.
  destruct (m2 s); [apply Hk | reflexivity ..].
Qed.

#[export] Instance wp_proper {A : Type} :
  Proper ((≡@{exec F A}) ==> (=) ==> (=) ==> iff) wp.
Proof. intros m1 m2 Hm Q ? <- s ? <-. unfold wp. now rewrite Hm. Qed.

#[export] Instance scope_proper {A : Type} : Proper ((≡) ==> (≡@{exec F A})) scope.
Proof. intros m1 m2 Hm s. unfold scope. now rewrite Hm. Qed.

Lemma bind_ret_l {A B : Type} (a : A) (k : A -> exec F B) : mret a ≫= k ≡ k a.
Proof. now intros s. Qed.

Lemma bind_ret_r {A : Type} (m : exec F A) : m ≫= mret ≡ m.
Proof. intros s. unfold mbind, exec_bind. now destruct (m s). Qed.

Lemma bind_assoc {A B C : Type} (m : exec F A) (k : A -> exec F B) (h : B -> exec F C) :
  (m ≫= k) ≫= h ≡ m ≫= (fun a => k a ≫= h).
Proof. intros s. unfold mbind, exec_bind. now destruct (m s). Qed.

(** ** Running a sequence *)

Lemma bind_returned {A B : Type} (m : exec F A) (k : A -> exec F B) s a s' :
  m s = Returned a s' -> (m ≫= k) s = k a s'.
Proof. unfold mbind, exec_bind. now intros ->. Qed.

(** A panic skips what follows. *)
Lemma bind_panicked {A B : Type} (m : exec F A) (k : A -> exec F B) s s' :
  m s = Panicked s' -> (m ≫= k) s = Panicked s'.
Proof. unfold mbind, exec_bind. now intros ->. Qed.

Lemma bind_dangling {A B : Type} (m : exec F A) (k : A -> exec F B) s :
  m s = Dangling -> (m ≫= k) s = Dangling.
Proof. unfold mbind, exec_bind. now intros ->. Qed.

(** The operations that always return, before what follows. *)
Lemma bind_mret {A B : Type} (a : A) (k : A -> exec F B) s : (mret a ≫= k) s = k a s.
Proof. reflexivity. Qed.

Lemma bind_alloc {B : Type} (c : Calculator F) (k : loc -> exec F B) s :
  (alloc c ≫= k) s = k (length (locals s)) (push_local c s).
Proof. reflexivity. Qed.

Lemma bind_emit {B : Type} (b : str) (k : unit -> exec F B) s :
  (emit b ≫= k) s = k tt (State (locals s) (stdout s ++ b)).
Proof. reflexivity. Qed.

Lemma bind_panic {A B : Type} (k : A -> exec F B) s : (panic ≫= k) s = Panicked s.
Proof. reflexivity. Qed.

(** What a sequence answers, by cases on its first part. *)
Lemma bind_Returned {A B : Type} (m : exec F A) (k : A -> exec F B) s b s'' :
  (m ≫= k) s = Returned b s'' <-> exists a s', m s = Returned a s' /\ k a s' = Returned b s''.
Proof.
  unfold mbind, exec_bind. destruct (m s) as [a s'| |]; split; try easy.
  - eauto.
  - now intros (? & ? & [= -> ->] & ?).
  - now intros (? & ? & ? & _).
  - now intros (? & ? & ? & _).
Qed.

(** ** The state *)

Lemma state_eta (s : state F) : State (locals s) (stdout s) = s.
Proof. now destruct s. Qed.

Lemma unwind_push_local (c : Calculator F) (s : state F) :
  unwind (length (locals s)) (push_local c s) = s.
Proof. unfold unwind, push_local. cbn. now rewrite take_app_length, state_eta. Qed.

Lemma unwind_set_local (d : nat) (l : loc) (c : Calculator F) (s : state F) :
  d <= l -> unwind d (set_local l c s) = unwind d s.
Proof. intros H. unfold unwind, set_local. cbn. now rewrite take_insert_ge. Qed.

Lemma unwind_emit (d : nat) (b : str) (s : state F) :
  unwind d (State (locals s) (stdout s ++ b)) = State (take d (locals s)) (stdout s ++ b).
Proof. reflexivity. Qed.

Lemma unwind_all (s : state F) : unwind (length (locals s)) s = s.
Proof. unfold unwind. now rewrite firstn_all, state_eta. Qed.

Lemma lookup_push_local (c : Calculator F) (s : state F) :
  locals (push_local c s) !! length (locals s) = Some c.
Proof. cbn. now rewrite lookup_app_r, Nat.sub_diag. Qed.

Lemma lookup_set_local (l : loc) (c c0 : Calculator F) (s : state F) :
  locals s !! l = Some c0 -> locals (set_local l c s) !! l = Some c.
Proof. intros H. cbn. apply list_lookup_insert_eq. now apply lookup_lt_Some in H. Qed.

Lemma lookup_set_local_ne (l l' : loc) (c : Calculator F) (s : state F) :
  l <> l' -> locals (set_local l c s) !! l' = locals s !! l'.
Proof. intros H. cbn. now apply list_lookup_insert_ne. Qed.

Lemma set_local_push_local (c c' : Calculator F) (s : state F) :
  set_local (length (locals s)) c (push_local c' s) = push_local c s.
Proof.
  unfold set_local, push_local. cbn.
  now rewrite insert_app_r_alt, Nat.sub_diag by reflexivity.
Qed.

Lemma set_local_set_local (l : loc) (c c' : Calculator F) (s : state F) :
  set_local l c (set_local l c' s) = set_local l c s.
Proof. unfold set_local. cbn. now rewrite list_insert_insert_eq. Qed.

(** ** What the operations answer *)

Lemma load_Some (l : loc) (c : Calculator F) (s : state F) :
  locals s !! l = Some c -> load l s = Returned c s.
Proof. unfold load. now intros ->. Qed.

Lemma store_Some (l : loc) (c c0 : Calculator F) (s : state F) :
  locals s !! l = Some c0 -> store l c s = Returned tt (set_local l c s).
Proof. unfold store. now intros ->. Qed.

Lemma load_None (l : loc) (s : state F) : locals s !! l = None -> load l s = Dangling.
Proof. unfold load. now intros ->. Qed.

Lemma store_None (l : loc) (c : Calculator F) (s : state F) :
  locals s !! l = None -> store l c s = Dangling.
Proof. unfold store. now intros ->. Qed.

(** ** The rules of [wp] *)

Lemma wp_Returned {A : Type} (m : exec F A) Q s :
  wp m Q s <-> exists a s', m s = Returned a s' /\ Q a s'.
Proof.
  unfold wp. destruct (m s) as [a s'| |]; split; try easy.
  - eauto.
  - now intros (? & ? & [= -> ->] & ?).
  - now intros (? & ? & ? & _).
  - now intros (? & ? & ? & _).
Qed.

Lemma wp_ret {A : Type} (a : A) Q s : wp (mret a) Q s <-> Q a s.
Proof. reflexivity. Qed.

Lemma wp_bind {A B : Type} (m : exec F A) (k : A -> exec F B) Q s :
  wp (m ≫= k) Q s <-> wp m (fun a s' => wp (k a) Q s') s.
Proof. unfold wp, mbind, exec_bind. now destruct (m s). Qed.

Lemma wp_mono {A : Type} (m : exec F A) (Q Q' : A -> state F -> Prop) s :
  (forall a s', Q a s' -> Q' a s') -> wp m Q s -> wp m Q' s.
Proof. unfold wp. destruct (m s); auto. Qed.

Lemma wp_conj {A : Type} (m : exec F A) (Q Q' : A -> state F -> Prop) s :
  wp m Q s -> wp m Q' s -> wp m (fun a s' => Q a s' /\ Q' a s') s.
Proof. unfold wp. destruct (m s); auto. Qed.

Lemma wp_alloc (c : Calculator F) Q s :
  wp (alloc c) Q s <-> Q (length (locals s)) (push_local c s).
Proof. reflexivity. Qed.

Lemma wp_load (l : loc) Q s :
  wp (load l) Q s <-> exists c, locals s !! l = Some c /\ Q c s.
Proof.
  unfold wp, load. destruct (locals s !! l) as [c|]; split; try easy.
  - eauto.
  - now intros (? & [= ->] & ?).
  - now intros (? & ? & _).
Qed.

Lemma wp_store (l : loc) (c : Calculator F) Q s :
  wp (store l c) Q s <-> l < length (locals s) /\ Q tt (set_local l c s).
Proof.
  unfold wp, store. rewrite <- lookup_lt_is_Some.
  destruct (locals s !! l) as [c0|].
  - split; [intros H; split; [eauto | exact H] | now intros [_ H]].
  - split; [easy | now intros [[? [=]] _]].
Qed.

Lemma wp_emit (b : str) Q s :
  wp (emit b) Q s <-> Q tt (State (locals s) (stdout s ++ b)).
Proof. reflexivity. Qed.

Lemma wp_panic {A : Type} (Q : A -> state F -> Prop) s : ~ wp panic Q s.
Proof. easy. Qed.

Lemma wp_scope {A : Type} (body : exec F A) Q s :
  wp (scope body) Q s <-> wp body (fun a s' => Q a (unwind (length (locals s)) s')) s.
Proof. unfold wp, scope. now destruct (body s). Qed.

End Monad.

#[global] Typeclasses Opaque exec_bind.
Arguments exec_bind : simpl never.

(** Rewriting with [exec] runs the operations that always return. *)
Create Rewrite HintDb exec.
#[export] Hint Rewrite @bind_mret @bind_alloc @bind_emit @bind_panic : exec.
#[export] Hint Rewrite @unwind_push_local @set_local_push_local @set_local_set_local : exec.
