(* ===== verification/Methods.v ===== *)
(** * Methods: the methods of [Calculator] through references

    The methods of [lib.rs] as they are written: [add] and [subtract] take
    [&mut self], update the field of the struct the reference points to and
    return the reference; [get_value] takes [&self] and reads the field.
    Here [self] is a [loc], the update a [load] and a [store] on the
    machine of [Exec.v], and the result of [add] the location it was given.

    [chain l self] is a chained call [self.m1(a1).m2(a2)...]: each method
    is called on the reference the previous one returned.

    Theorems:
    - refinement: on a live reference each method does to the slot what
      the function of [Calculator.v] does to the value, and returns the
      reference it was given; a chain does what [run] does;
    - aliasing: after [calc.add(a).subtract(b)] the variable [calc] itself
      holds the result, as the test and [main] assume when they read it;
    - frame: a method changes nothing but the slot of its receiver
      ([only_differ_at]), so calls on distinct calculators commute;
    - references stay valid: on a live reference a method never answers
      [Dangling], and leaves the number of slots unchanged; on a reference
      to no slot it answers [Dangling] and does nothing else;
    - the invariant of [Calculator.v] ([wf]) lifted to every slot. *)

From stdpp Require Import base option list.
From S2P Require Import Prelude Binary64 Float64 Calculator Greet Exec.

Section Methods.
Context {F : Type} {ops : Float64 F}.

(** [pub fn add(&mut self, num: f64) -> &mut Self { self.value += num; self }] *)
Definition Calculator_add (self : loc) (num : F) : exec F loc :=
  c ← load self;
  store self {| value := f64_add (value c) num |};;
  mret self.

(** [pub fn subtract(&mut self, num: f64) -> &mut Self { self.value -= num; self }] *)
Definition Calculator_subtract (self : loc) (num : F) : exec F loc :=
  c ← load self;
  store self {| value := f64_sub (value c) num |};;
  mret self.

(** [pub fn get_value(&self) -> f64 { self.value }] *)
Definition Calculator_get_value (self : loc) : exec F F :=
  c ← load self;
  mret (value c).

(** One operation of the specification, through the method it names, on a
    reference. *)
Definition apply_op_at (self : loc) (op : Operation F) : exec F loc :=
  match op with
  | Add amount => Calculator_add self amount
  | Subtract amount => Calculator_subtract self amount
  end.

(** A chained call: every method on the reference the one before it
    returned. *)
Fixpoint chain (l : list (Operation F)) (self : loc) : exec F loc :=
  match l with
  | [] => mret self
  | op :: l' => r ← apply_op_at self op; chain l' r
  end.

(** [s'] differs from [s] at most in the slot [l]. *)
Definition only_differ_at (l : loc) (s s' : state F) : Prop :=
  length (locals s') = length (locals s) /\
  stdout s' = stdout s /\
  forall l', l' <> l -> locals s' !! l' = locals s !! l'.

(** Every slot holds a datum of the format. *)
Definition state_wf (s : state F) : Prop :=
  Forall (fun c => wf c = true) (locals s).

(** ** The frame relation *)

Lemma only_differ_at_refl (l : loc) (s : state F) : only_differ_at l s s.
Proof. now repeat split. Qed.

Lemma only_differ_at_trans (l : loc) (s1 s2 s3 : state F) :
  only_differ_at l s1 s2 -> only_differ_at l s2 s3 -> only_differ_at l s1 s3.
Proof.
  intros (L1 & O1 & H1) (L2 & O2 & H2). repeat split; [congruence ..|].
  intros l' Hl. now rewrite H2, H1.
Qed.

Lemma only_differ_at_set_local (l : loc) (c : Calculator F) (s : state F) :
  only_differ_at l s (set_local l c s).
Proof.
  repeat split; cbn; [apply length_insert|].
  intros l' Hl. now apply list_lookup_insert_ne.
Qed.

(** ** Refinement: the methods on a live reference *)

Lemma Calculator_add_Some (self : loc) (num : F) (c : Calculator F) (s : state F) :
  locals s !! self = Some c ->
  Calculator_add self num s = Returned self (set_local self (add c num) s).
Proof.
  intros H. unfold Calculator_add.
  rewrite (bind_returned _ _ _ _ _ (load_Some _ _ _ H)).
  now rewrite (bind_returned _ _ _ _ _ (store_Some _ _ _ _ H)).
Qed.

Lemma Calculator_subtract_Some (self : loc) (num : F) (c : Calculator F) (s : state F) :
  locals s !! self = Some c ->
  Calculator_subtract self num s = Returned self (set_local self (subtract c num) s).
Proof.
  intros H. unfold Calculator_subtract.
  rewrite (bind_returned _ _ _ _ _ (load_Some _ _ _ H)).
  now rewrite (bind_returned _ _ _ _ _ (store_Some _ _ _ _ H)).
Qed.

Lemma Calculator_get_value_Some (self : loc) (c : Calculator F) (s : state F) :
  locals s !! self = Some c ->
  Calculator_get_value self s = Returned (get_value c) s.
Proof.
  intros H. unfold Calculator_get_value.
  now rewrite (bind_returned _ _ _ _ _ (load_Some _ _ _ H)).
Qed.

Lemma apply_op_at_Some (self : loc) (op : Operation F) (c : Calculator F) (s : state F) :
  locals s !! self = Some c ->
  apply_op_at self op s = Returned self (set_local self (apply_op c op) s).
Proof.
  destruct op; [apply Calculator_add_Some | apply Calculator_subtract_Some].
Qed.

Lemma set_local_id (l : loc) (c : Calculator F) (s : state F) :
  locals s !! l = Some c -> set_local l c s = s.
Proof. intros H. unfold set_local. now rewrite list_insert_id, state_eta. Qed.

Lemma chain_Some (l : list (Operation F)) (self : loc) (c : Calculator F) (s : state F) :
  locals s !! self = Some c ->
  chain l self s = Returned self (set_local self (run l c) s).
Proof.
  revert c s. induction l as [|op l IH]; intros c s H; cbn [chain].
  - change (run [] c) with c. now rewrite (set_local_id _ _ _ H).
  - change (run (op :: l) c) with (run l (apply_op c op)).
    rewrite (bind_returned _ _ _ _ _ (apply_op_at_Some _ op _ _ H)).
    rewrite (IH _ _ (lookup_set_local _ _ _ _ H)).
    now rewrite set_local_set_local.
Qed.

(** ** Refinement and aliasing *)

(** C8. A chained call refines the value semantics: on a live receiver
    holding [c], the chain [self.m1(a1)...mn(an)] returns the reference it
    was called on and leaves in that slot what [run] makes of [c]; no other
    part of the state changes. *)
Theorem chain_refines_run (l : list (Operation F)) (self : loc) (c : Calculator F)
    (s : state F) :
  locals s !! self = Some c ->
  chain l self s = Returned self (set_local self (run l c) s).
Proof. apply chain_Some. Qed.

(** The statement [calc.add(a).subtract(b);], before what follows. *)
Lemma chained_call_Some {A : Type} (calc : loc) (a b : F) (c : Calculator F)
    (k : exec F A) (s : state F) :
  locals s !! calc = Some c ->
  (r ← Calculator_add calc a; Calculator_subtract r b;; k) s
  = k (set_local calc (subtract (add c a) b) s).
Proof.
  intros H.
  rewrite (bind_returned _ _ _ _ _ (Calculator_add_Some _ a _ _ H)).
  pose proof (lookup_set_local _ (add c a) _ _ H) as H1.
  rewrite (bind_returned _ _ _ _ _ (Calculator_subtract_Some _ b _ _ H1)).
  now rewrite set_local_set_local.
Qed.

(** C4. The chained call of the test and of [main] updates the variable
    itself: after [calc.add(a).subtract(b);] a [calc.get_value()] reads
    the value with both updates, because each method returns the reference
    it was given and not a copy. *)
Theorem chained_call_updates_receiver (calc : loc) (a b : F) (c : Calculator F)
    (s : state F) :
  locals s !! calc = Some c ->
  (r ← Calculator_add calc a; Calculator_subtract r b;; Calculator_get_value calc) s
  = Returned (get_value (subtract (add c a) b)) (set_local calc (subtract (add c a) b) s).
Proof.
  intros H. rewrite (chained_call_Some _ _ _ _ _ _ H).
  exact (Calculator_get_value_Some _ _ _ (lookup_set_local _ _ _ _ H)).
Qed.

(** ** The frame *)

Lemma set_local_comm (l1 l2 : loc) (c1 c2 : Calculator F) (s : state F) :
  l1 <> l2 -> set_local l1 c1 (set_local l2 c2 s) = set_local l2 c2 (set_local l1 c1 s).
Proof. intros H. unfold set_local. cbn. now rewrite list_insert_insert_ne. Qed.

(** A chained call changes nothing but the slot of its receiver: the
    other calculators, the number of slots and standard output are as
    before. *)
Theorem chain_frame (l : list (Operation F)) (self : loc) (s : state F) :
  self < length (locals s) ->
  wp (chain l self) (fun r s' => r = self /\ only_differ_at self s s') s.
Proof.
  intros H. apply lookup_lt_is_Some in H as [c H].
  apply wp_Returned. eexists _, _. split; [apply (chain_Some l _ _ _ H)|].
  split; [reflexivity | apply only_differ_at_set_local].
Qed.

(** C30. Calls on distinct calculators commute: two chains on different
    live receivers leave the same state in either order. *)
Theorem chains_commute (l1 l2 : list (Operation F)) (x y : loc) (s : state F) :
  x <> y -> x < length (locals s) -> y < length (locals s) ->
  (chain l1 x;; chain l2 y;; mret tt) s = (chain l2 y;; chain l1 x;; mret tt) s.
Proof.
  intros Hne Hx Hy.
  apply lookup_lt_is_Some in Hx as [cx Hx]. apply lookup_lt_is_Some in Hy as [cy Hy].
  rewrite (bind_returned _ _ _ _ _ (chain_Some l1 _ _ _ Hx)).
  rewrite (bind_returned _ _ _ _ _ (chain_Some l2 _ _ _ Hy)).
  erewrite (bind_returned _ _ _ _ _ (chain_Some l2 y cy _ _)).
  erewrite (bind_returned _ _ _ _ _ (chain_Some l1 x cx _ _)).
  cbn. now rewrite set_local_comm.
  Unshelve. all: now rewrite lookup_set_local_ne.
Qed.

(** ** References to no slot *)

Lemma apply_op_at_None (self : loc) (op : Operation F) (s : state F) :
  locals s !! self = None -> apply_op_at self op s = Dangling.
Proof.
  intros H. destruct op; apply bind_dangling, load_None, H.
Qed.

(** A method called through a reference to no slot answers
    [Dangling]: nothing is written and nothing after it runs.  The empty
    chain calls no method and returns the reference untouched. *)
Theorem chain_dangling (l : list (Operation F)) (self : loc) (s : state F) :
  locals s !! self = None ->
  chain l self s = match l with [] => Returned self s | _ :: _ => Dangling end.
Proof.
  intros H. destruct l as [|op l]; [reflexivity|].
  cbn [chain]. apply bind_dangling, apply_op_at_None, H.
Qed.

(** ** The alternative of the design notes

    The specification's design notes propose methods that return an owned
    updated value in place of a reference to the receiver.  On the machine
    that is a method that leaves its receiver alone and returns the
    location of a new slot holding the updated struct. *)

Definition add_owned (self : loc) (num : F) : exec F loc :=
  c ← load self;
  alloc {| value := f64_add (value c) num |}.

Definition subtract_owned (self : loc) (num : F) : exec F loc :=
  c ← load self;
  alloc {| value := f64_sub (value c) num |}.


End Methods.

(** ** The invariant, slot by slot *)

Section Invariant.
Context {F : Type} {ops : Float64 F} {ok : Float64Correct F}.

Lemma state_wf_set_local (l : loc) (c : Calculator F) (s : state F) :
  state_wf s -> wf c = true -> state_wf (set_local l c s).
Proof. intros Hs Hc. now apply Forall_insert. Qed.

Lemma state_wf_push_local (c : Calculator F) (s : state F) :
  state_wf s -> wf c = true -> state_wf (push_local c s).
Proof. intros Hs Hc. apply Forall_app. split; [exact Hs | now constructor]. Qed.

Lemma state_wf_lookup (l : loc) (c : Calculator F) (s : state F) :
  state_wf s -> locals s !! l = Some c -> wf c = true.
Proof. intros Hs H. exact (Forall_lookup_1 _ _ _ _ Hs H). Qed.

(** The machine keeps the invariant of the data: when every slot
    holds a datum of binary64 and the amounts of a chain are such data, the
    chain returns and every slot still holds one. *)
Theorem chain_state_wf (l : list (Operation F)) (self : loc) (s : state F) :
  state_wf s -> valid_amounts l = true -> self < length (locals s) ->
  wp (chain l self) (fun _ s' => state_wf s') s.
Proof.
  intros Hs Hl H. apply lookup_lt_is_Some in H as [c H].
  apply wp_Returned. eexists _, _. split; [apply (chain_Some l _ _ _ H)|].
  apply state_wf_set_local; [exact Hs|].
  apply run_wf_from; [exact (state_wf_lookup _ _ _ Hs H) | exact Hl].
Qed.

End Invariant.

(** ** The theorems at work

    On the model of the arithmetic, in a state with one calculator (or two,
    where two are needed). *)

Lemma chain_refines_run_witness :
  chain [Add (f64_lit 5); Subtract (f64_lit 2)] 0 (State [new (F := b64)] [])
  = Returned 0 (set_local 0 (run [Add (f64_lit 5); Subtract (f64_lit 2)] new) (State [new] [])).
Proof. exact (chain_refines_run _ 0 new (State [new] []) eq_refl). Defined.

Lemma chained_call_updates_receiver_witness :
  (r ← Calculator_add 0 (f64_lit 5); Calculator_subtract r (f64_lit 2);;
   Calculator_get_value 0) (State [new (F := b64)] [])
  = Returned (get_value (subtract (add new (f64_lit 5)) (f64_lit 2)))
             (set_local 0 (subtract (add new (f64_lit 5)) (f64_lit 2)) (State [new] [])).
Proof.
  exact (chained_call_updates_receiver 0 (f64_lit 5) (f64_lit 2) new (State [new] []) eq_refl).
Defined.

Lemma chain_frame_witness :
  wp (chain [Add (f64_lit 5)] 0)
     (fun r s' => r = 0 /\ only_differ_at 0 (State [new (F := b64); new] []) s')
     (State [new; new] []).
Proof. apply (chain_frame [Add (f64_lit 5)] 0 (State [new; new] [])). cbn. lia. Defined.

Lemma chains_commute_witness :
  (chain [Add (f64_lit 5)] 0;; chain [Subtract (f64_lit 2)] 1;; mret tt)
    (State [new (F := b64); new] [])
  = (chain [Subtract (f64_lit 2)] 1;; chain [Add (f64_lit 5)] 0;; mret tt)
      (State [new; new] []).
Proof.
  apply (chains_commute [Add (f64_lit 5)] [Subtract (f64_lit 2)] 0 1 (State [new; new] []));
    [discriminate | cbn; lia | cbn; lia].
Defined.

Lemma chain_dangling_witness :
  chain [Add (f64_lit 5)] 3 (State [new (F := b64)] []) = Dangling.
Proof. exact (chain_dangling [Add (f64_lit 5)] 3 (State [new] []) eq_refl). Defined.

Lemma chain_state_wf_witness :
  wp (chain [Add (f64_lit 5); Subtract (f64_lit 2)] 0) (fun _ s' => state_wf s')
     (State [new (F := b64)] []).
Proof.
  apply (chain_state_wf (ok := Float64Correct_b64) [Add (f64_lit 5); Subtract (f64_lit 2)] 0
           (State [new] [])); [repeat constructor | reflexivity | cbn; lia].
Defined.

