(* ===== verification/Program.v ===== *)
(** * Program: the tests and [main] on the machine

    The functions of the crate that have statements: [tests::test_calculator],
    [tests::test_greet] and [main], statement by statement, on the machine
    of [Exec.v] with the methods of [Methods.v].  Each body is a [scope]:
    [let mut calc] allocates a slot, the chained call mutates it through
    references, [assert_eq!] panics when the comparison fails, [println!]
    writes a line, and the closing brace drops the slot.

    Theorems:
    - refinement: each function on the machine answers what its functional
      reading in [Tests.v] and [Main.v] computes, leaves the slots that
      were there as they were, and never answers [Dangling];
    - the tests of the module return from every state, on every correct
      implementation of the arithmetic;
    - [main] returns from every state, whatever the arithmetic and the
      [Display], having written two lines;
    - a failing assertion panics: the locals are dropped, standard output
      is what it was, and nothing after the assertion runs. *)

From Stdlib Require Import ZArith String.
From stdpp Require Import base option list.
From S2P Require Import Prelude Binary64 Exact Float64 Calculator Greet Tests Main Exec Methods.

#[local] Open Scope string_scope.
#[local] Open Scope list_scope.

Section Program.
Context {F : Type} {ops : Float64 F}.

(** [assert_eq!(left, right)]: a panic unless [left == right]. *)
Definition check_eq {A : Type} (eq : A -> A -> bool) (left right : A) : exec F unit :=
  match assert_eq eq left right with
  | Pass => mret tt
  | Panic => panic
  end.

(** [println!]: the formatted line, written to standard output. *)
Definition put_line (pieces args : list str) : exec F unit :=
  emit (write pieces args ++ [newline]).

(** The body of the calculator test with the amounts and the expected
    value as parameters. *)
Definition tests_calculator_case (a b expected : Z) : exec F unit :=
  scope (
    calc ← alloc new;
    r ← Calculator_add calc (f64_lit a); Calculator_subtract r (f64_lit b);;
    v ← Calculator_get_value calc;
    check_eq f64_eq v (f64_lit expected)).

(** [fn test_calculator()] *)
Definition tests_test_calculator : exec F unit :=
  scope (
    calc ← alloc new;
    r ← Calculator_add calc (f64_lit 5); Calculator_subtract r (f64_lit 2);;
    v ← Calculator_get_value calc;
    check_eq f64_eq v (f64_lit 3)).

(** [fn test_greet()] *)
Definition tests_test_greet : exec F unit :=
  scope (check_eq str_eq (greet (bytes "World")) (bytes "Hello, World!")).

(** [mod tests]: the functions marked [#[test]], by path. *)
Definition tests_module : list (str * exec F unit) :=
  [(bytes "tests::test_calculator", tests_test_calculator);
   (bytes "tests::test_greet", tests_test_greet)].

Section Main.
(** The [Display] of [f64]. *)
Variable display : F -> str.

(** [fn main()] *)
Definition main_fn : exec F unit :=
  scope (
    calc ← alloc new;
    r ← Calculator_add calc (f64_lit 10); Calculator_subtract r (f64_lit 3);;
    v ← Calculator_get_value calc;
    put_line [bytes "Calculator result: "; []] [display v];;
    let message := greet (bytes "Rust MCP") in
    put_line [[]; []] [message]).

End Main.

(** ** Running the bodies *)

(** [let mut calc = Calculator::new(); calc.add(a).subtract(b);] and the
    read of [calc], before what follows. *)
Lemma calculator_prefix_runs {A : Type} (a b : F) (k : F -> exec F A) (s : state F) :
  (calc ← alloc new;
   r ← Calculator_add calc a; Calculator_subtract r b;;
   v ← Calculator_get_value calc;
   k v) s
  = k (get_value (subtract (add new a) b)) (push_local (subtract (add new a) b) s).
Proof.
  rewrite (bind_returned _ _ s (length (locals s)) (push_local new s) eq_refl).
  rewrite (chained_call_Some _ a b _ _ _ (lookup_push_local new s)).
  rewrite set_local_push_local.
  now rewrite (bind_returned _ _ _ _ _
                 (Calculator_get_value_Some _ _ _ (lookup_push_local _ s))).
Qed.

Lemma check_eq_Pass {A : Type} (eq : A -> A -> bool) (l r : A) (s : state F) :
  assert_eq eq l r = Pass -> check_eq eq l r s = Returned tt s.
Proof. unfold check_eq. now intros ->. Qed.

Lemma check_eq_Panic {A : Type} (eq : A -> A -> bool) (l r : A) (s : state F) :
  assert_eq eq l r = Panic -> check_eq eq l r s = Panicked s.
Proof. unfold check_eq. now intros ->. Qed.

(** The answer of a test, from the outcome of its functional reading. *)
Definition answer_of (o : outcome) (s : state F) : answer F unit :=
  match o with
  | Pass => Returned tt s
  | Panic => Panicked s
  end.

Lemma bind_put_line {A : Type} (pieces args : list str) (k : unit -> exec F A) (s : state F) :
  (put_line pieces args ≫= k) s = k tt (State (locals s) (println pieces args (stdout s))).
Proof. reflexivity. Qed.

Lemma put_line_runs (pieces args : list str) (s : state F) :
  put_line pieces args s = Returned tt (State (locals s) (println pieces args (stdout s))).
Proof. reflexivity. Qed.

Lemma tests_calculator_case_runs (a b expected : Z) (s : state F) :
  tests_calculator_case a b expected s = answer_of (calculator_case a b expected) s.
Proof.
  unfold tests_calculator_case, scope. rewrite calculator_prefix_runs.
  unfold calculator_case, check_eq, answer_of.
  destruct (assert_eq _ _ _); cbn; now rewrite unwind_push_local.
Qed.

Lemma main_fn_runs (display : F -> str) (s : state F) :
  main_fn display s = Returned tt (State (locals s) (main display (stdout s))).
Proof.
  unfold main_fn, scope. rewrite calculator_prefix_runs, bind_put_line, put_line_runs.
  unfold unwind. cbn [locals stdout push_local]. now rewrite take_app_length.
Qed.

(** A failed assertion skips what follows it. *)
Lemma check_eq_Panic_bind {A B : Type} (eq : A -> A -> bool) (l r : A)
    (k : unit -> exec F B) (s : state F) :
  assert_eq eq l r = Panic -> (check_eq eq l r ≫= k) s = Panicked s.
Proof. intros H. apply bind_panicked, check_eq_Panic, H. Qed.

Lemma tests_test_greet_runs (s : state F) :
  tests_test_greet s = answer_of test_greet s.
Proof.
  unfold tests_test_greet, scope, check_eq, test_greet, answer_of.
  destruct (assert_eq _ _ _); cbn; now rewrite unwind_all.
Qed.

(** ** Refinement of the functional reading *)

(** C9. [test_calculator] on the machine answers what its functional
    reading computes, on any arithmetic: it returns when the assertion
    holds and panics when it does not, in both cases with the slot of
    [calc] dropped and the state as it was before; it never reads or
    writes through a reference to no slot. *)
Theorem tests_test_calculator_refines (s : state F) :
  tests_test_calculator s = answer_of test_calculator s.
Proof. exact (tests_calculator_case_runs 5 2 3 s). Qed.

(** C14. [main] on the machine returns, with the slots as they were
    before and on standard output what its functional reading writes. *)
Theorem main_fn_refines (display : F -> str) (s : state F) :
  main_fn display s = Returned tt (State (locals s) (main display (stdout s))).
Proof. apply main_fn_runs. Qed.


End Program.

(** ** On a correct arithmetic *)

Section Correct.
Context {F : Type} {ops : Float64 F} {ok : Float64Correct F}.

(** Every test of the module returns, from every state, and leaves
    the state as it found it. *)
Theorem tests_module_pass :
  Forall (fun t => forall s : state F, t.2 s = Returned tt s) tests_module.
Proof.
  repeat constructor; intros s; cbn [snd].
  - change (tests_calculator_case 5 2 3 s = Returned tt s).
    rewrite tests_calculator_case_runs, calculator_case_eqb by reflexivity. reflexivity.
  - rewrite tests_test_greet_runs.
    assert (test_greet = Pass) as -> by (apply assert_eq_pass, str_eq_true; reflexivity).
    reflexivity.
Qed.

(** C28. A wrong expectation makes the test panic: for amounts within
    [2^53] whose difference is too, the test that expects anything but
    [a - b] panics, with the slot of [calc] dropped and standard output
    untouched. *)
Theorem failed_assertion_panics (a b expected : Z) (s : state F) :
  safe a = true -> safe b = true -> safe (a - b) = true -> safe expected = true ->
  (a - b)%Z <> expected ->
  tests_calculator_case a b expected s = Panicked s.
Proof.
  intros Ha Hb Hab He Hne.
  rewrite tests_calculator_case_runs, calculator_case_eqb by assumption.
  unfold assert_eq. now rewrite (proj2 (Z.eqb_neq _ _) Hne).
Qed.

End Correct.

(** ** The theorems at work *)

(** The tests of the module on the model of the arithmetic. *)
Lemma tests_module_pass_witness :
  Forall (fun t => forall s : state b64, t.2 s = Returned tt s) tests_module.
Proof. exact (tests_module_pass (ok := Float64Correct_b64)). Defined.

(** The test of the crate with [2.0] expected instead of [3.0]. *)
Lemma failed_assertion_panics_witness :
  tests_calculator_case (F := b64) 5 2 2 (State [] []) = Panicked (State [] []).
Proof.
  apply (failed_assertion_panics (ok := Float64Correct_b64) 5 2 2 (State [] []));
    [reflexivity .. | discriminate].
Defined.
