(* ===== verification/Diagnostics.v ===== *)
(** * Diagnostics: [errors.rs] and the classifier of the specification

    [errors.rs] holds five functions, each broken on purpose in the way
    its comment says.  The file is not a program to run but data for a
    diagnostics tool, so it is modelled as data: the syntax tree a parser
    with error recovery produces of each function ([type_error_example],
    [undefined_variable], [missing_semicolon], [unused_variable],
    [missing_return], and the statements they are made of), each line
    keeping its line number.

    The classifier has no code in the repository: [classify] is the
    classifier of the specification, its five triggers read off the
    specification's table.  [finds] is the same classifier as a relation,
    one rule per trigger, and [classify] is proved to compute exactly the
    findings the relation allows.

    Theorems: each testable property of the specification, for every
    fragment that holds the statement of [errors.rs] in question; what
    [classify] reports of [errors.rs] itself; that findings come in source
    order. *)

From Stdlib Require Import ZArith String.
From S2P Require Import Prelude.
From stdpp Require Import base decidable option list gmap strings sorting.

#[local] Open Scope string_scope.
#[local] Open Scope list_scope.

(** ** Syntax *)

(** The types that occur: [i32], [&str] and the unit type. *)
Inductive ty : Type :=
| I32
| StrRef
| Unit.

Inductive expr : Type :=
| EInt (n : Z)
| EStr (s : string)
| EVar (x : string).

(** A statement with the line it starts on.  [terminated] says whether
    its semicolon is there. *)
Inductive stmt : Type :=
| SLet (line : nat) (name : string) (declared : option ty) (init : expr) (terminated : bool)
| SMacro (line : nat) (name : string) (template : string) (args : list expr)
    (terminated : bool).

(** A function without parameters: the line of its signature, its name,
    the return type when one is declared, the statements of its body and
    the expression the body ends in, if any, with its line. *)
Record fn_item : Type := FnItem {
  fn_line : nat;
  fn_name : string;
  fn_ret : option ty;
  fn_body : list stmt;
  fn_tail : option (nat * expr)
}.

#[export] Instance ty_eq_dec : EqDecision ty.
Proof. solve_decision. Defined.

(** ** The statements and functions of [errors.rs] *)

(** [let number: i32 = "not a number";] *)
Definition let_number : stmt := SLet 4 "number" (Some I32) (EStr "not a number") true.

(** [println!("{}", undefined_var);] *)
Definition println_undefined_var : stmt :=
  SMacro 8 "println" "{}" [EVar "undefined_var"] true.

(** [let x = 5], its semicolon missing. *)
Definition let_x : stmt := SLet 12 "x" None (EInt 5) false.

(** [let y = 10;] *)
Definition let_y : stmt := SLet 13 "y" None (EInt 10) true.

(** [let unused = 42;] *)
Definition let_unused : stmt := SLet 17 "unused" None (EInt 42) true.

Definition type_error_example : fn_item :=
  {| fn_line := 3; fn_name := "type_error_example"; fn_ret := None;
     fn_body := [let_number]; fn_tail := None |}.

Definition undefined_variable : fn_item :=
  {| fn_line := 7; fn_name := "undefined_variable"; fn_ret := None;
     fn_body := [println_undefined_var]; fn_tail := None |}.

Definition missing_semicolon : fn_item :=
  {| fn_line := 11; fn_name := "missing_semicolon"; fn_ret := None;
     fn_body := [let_x; let_y]; fn_tail := None |}.

Definition unused_variable : fn_item :=
  {| fn_line := 16; fn_name := "unused_variable"; fn_ret := None;
     fn_body := [let_unused]; fn_tail := None |}.

(** [fn missing_return() -> i32 { }]: a return type and an empty body. *)
Definition missing_return : fn_item :=
  {| fn_line := 21; fn_name := "missing_return"; fn_ret := Some I32;
     fn_body := []; fn_tail := None |}.

(** The file, top to bottom. *)
Definition errors_rs : list fn_item :=
  [type_error_example; undefined_variable; missing_semicolon; unused_variable;
   missing_return].

(** ** Findings *)

Inductive category : Type :=
| TypeMismatch
| UndefinedReference
| SyntaxError
| UnusedBinding
| MissingReturnValue.

(** A finding: its category, the line it is at, and the name it is about
    as its message. *)
Record finding : Type := Finding {
  category_of : category;
  location : nat;
  message : string
}.

#[export] Instance category_eq_dec : EqDecision category.
Proof. solve_decision. Defined.

#[export] Instance finding_eq_dec : EqDecision finding.
Proof. solve_decision. Defined.

(** What the classifier is given: a parsed function, or the offset at
    which the lexer gave up. *)
Inductive fragment : Type :=
| Parsed (f : fn_item)
| Untokenizable (offset : nat).

(** ** The classifier *)

(** The bindings in scope, each with its type when that is known. *)
Abbreviation env := (gmap string (option ty)).

Definition type_of (G : env) (e : expr) : option ty :=
  match e with
  | EInt _ => Some I32
  | EStr _ => Some StrRef
  | EVar x => mjoin (G !! x)
  end.

(** The identifiers an expression and a statement refer to. *)
Definition refs (e : expr) : list string :=
  match e with
  | EVar x => [x]
  | _ => []
  end.

Definition stmt_refs (s : stmt) : list string :=
  match s with
  | SLet _ _ _ e _ => refs e
  | SMacro _ _ _ args _ => args ≫= refs
  end.

Definition stmt_line (s : stmt) : nat :=
  match s with
  | SLet l _ _ _ _ | SMacro l _ _ _ _ => l
  end.

Definition is_terminated (s : stmt) : bool :=
  match s with
  | SLet _ _ _ _ t | SMacro _ _ _ _ t => t
  end.

(** The name a statement binds. *)
Definition binds (s : stmt) : option string :=
  match s with
  | SLet _ x _ _ _ => Some x
  | SMacro _ _ _ _ _ => None
  end.

(** The scope after a statement: a [let] binds its name, at the declared
    type or else the type of the initializer. *)
Definition bind (G : env) (s : stmt) : env :=
  match s with
  | SLet _ x d e _ => <[x := from_option Some (type_of G e) d]> G
  | SMacro _ _ _ _ _ => G
  end.

Definition tail_refs (tail : option (nat * expr)) : list string :=
  from_option (fun t => refs (snd t)) [] tail.

(** Whether [x] is referred to in what follows its binding: a reference
    counts until a later [let] binds the name again. *)
Fixpoint used (x : string) (rest : list stmt) (tail : option (nat * expr)) : bool :=
  match rest with
  | [] => bool_decide (x ∈ tail_refs tail)
  | s :: rest' =>
      bool_decide (x ∈ stmt_refs s)
      || (negb (bool_decide (binds s = Some x)) && used x rest' tail)
  end.

(** The four triggers on a statement. *)
Definition mismatch (G : env) (s : stmt) : list finding :=
  match s with
  | SLet l x (Some t) e _ =>
      match type_of G e with
      | Some t' => if decide (t = t') then [] else [Finding TypeMismatch l x]
      | None => []
      end
  | _ => []
  end.

Definition undefined_at (G : env) (l : nat) (names : list string) : list finding :=
  Finding UndefinedReference l <$> filter (fun y => G !! y = None) names.

Definition unterminated (s : stmt) (rest : list stmt) : list finding :=
  match rest with
  | _ :: _ => if is_terminated s then [] else [Finding SyntaxError (stmt_line s) ""]
  | [] => []
  end.

Definition unused (s : stmt) (rest : list stmt) (tail : option (nat * expr)) : list finding :=
  match s with
  | SLet l x _ _ _ => if used x rest tail then [] else [Finding UnusedBinding l x]
  | SMacro _ _ _ _ _ => []
  end.

(** The findings of one statement, given the scope before it and what
    follows it. *)
Definition classify_stmt (G : env) (s : stmt) (rest : list stmt)
    (tail : option (nat * expr)) : list finding :=
  mismatch G s ++ undefined_at G (stmt_line s) (stmt_refs s)
    ++ unterminated s rest ++ unused s rest tail.

Definition classify_tail (G : env) (tail : option (nat * expr)) : list finding :=
  from_option (fun t => undefined_at G (fst t) (refs (snd t))) [] tail.

(** The statements top to bottom, then the final expression. *)
Fixpoint classify_body (G : env) (body : list stmt) (tail : option (nat * expr))
    : list finding :=
  match body with
  | [] => classify_tail G tail
  | s :: rest => classify_stmt G s rest tail ++ classify_body (bind G s) rest tail
  end.

(** The scope at the end of a body. *)
Definition scope_after (G : env) (body : list stmt) : env := foldl bind G body.

(** Whether the body ends in an expression of type [t]. *)
Definition produces (G : env) (tail : option (nat * expr)) (t : ty) : bool :=
  from_option (fun e => bool_decide (type_of G (snd e) = Some t)) false tail.

(** The trigger on the function: a return type other than unit, and no
    expression that produces it. *)
Definition missing_value (f : fn_item) : list finding :=
  match fn_ret f with
  | Some t =>
      if decide (t = Unit) then []
      else if produces (scope_after ∅ (fn_body f)) (fn_tail f) t then []
      else [Finding MissingReturnValue (fn_line f) (fn_name f)]
  | None => []
  end.

(** [classify]: the finding on the signature, then the findings of the
    body in source order; a fragment that could not be tokenized gives one
    [SyntaxError] at the offset of the failure and nothing else. *)
Definition classify (fr : fragment) : list finding :=
  match fr with
  | Parsed f => missing_value f ++ classify_body ∅ (fn_body f) (fn_tail f)
  | Untokenizable offset => [Finding SyntaxError offset ""]
  end.

(** The category and the line of each finding. *)
Definition summary (ds : list finding) : list (category * nat) :=
  (fun d => (category_of d, location d)) <$> ds.

(** ** The classifier as a relation

    One rule per trigger of the specification's table. *)

(** [x] is referred to in [rest] or in [tail] before it is bound again. *)
Inductive later_ref (x : string) (tail : option (nat * expr)) : list stmt -> Prop :=
| later_here s rest : x ∈ stmt_refs s -> later_ref x tail (s :: rest)
| later_skip s rest : binds s ≠ Some x -> later_ref x tail rest -> later_ref x tail (s :: rest)
| later_tail : x ∈ tail_refs tail -> later_ref x tail [].

Inductive stmt_finds (G : env) (rest : list stmt) (tail : option (nat * expr))
    : stmt -> finding -> Prop :=
| finds_mismatch l x t t' e tm :
    type_of G e = Some t' -> t ≠ t' ->
    stmt_finds G rest tail (SLet l x (Some t) e tm) (Finding TypeMismatch l x)
| finds_undefined s y :
    y ∈ stmt_refs s -> G !! y = None ->
    stmt_finds G rest tail s (Finding UndefinedReference (stmt_line s) y)
| finds_unterminated s :
    is_terminated s = false -> rest ≠ [] ->
    stmt_finds G rest tail s (Finding SyntaxError (stmt_line s) "")
| finds_unused l x d e tm :
    ¬ later_ref x tail rest ->
    stmt_finds G rest tail (SLet l x d e tm) (Finding UnusedBinding l x).

Inductive finds (f : fn_item) : finding -> Prop :=
| finds_missing t :
    fn_ret f = Some t -> t ≠ Unit ->
    produces (scope_after ∅ (fn_body f)) (fn_tail f) t = false ->
    finds f (Finding MissingReturnValue (fn_line f) (fn_name f))
| finds_stmt pre s post d :
    fn_body f = pre ++ s :: post ->
    stmt_finds (scope_after ∅ pre) post (fn_tail f) s d ->
    finds f d
| finds_tail l e y :
    fn_tail f = Some (l, e) -> y ∈ refs e ->
    scope_after ∅ (fn_body f) !! y = None ->
    finds f (Finding UndefinedReference l y).

(** ** The classifier computes the relation *)

Lemma used_spec (x : string) (tail : option (nat * expr)) (rest : list stmt) :
  used x rest tail = true ↔ later_ref x tail rest.
Proof.
  induction rest as [|s rest IH]; cbn [used].
  - rewrite bool_decide_eq_true. split; [by constructor | by inversion 1].
  - rewrite orb_true_iff, andb_true_iff, negb_true_iff, IH.
    rewrite bool_decide_eq_true, bool_decide_eq_false. split.
    + intros [?|[??]]; [by apply later_here | by apply later_skip].
    + inversion 1; subst; auto.
Qed.

Lemma elem_of_undefined_at (G : env) (l : nat) (names : list string) (d : finding) :
  d ∈ undefined_at G l names ↔
  ∃ y, d = Finding UndefinedReference l y ∧ y ∈ names ∧ G !! y = None.
Proof.
  unfold undefined_at. rewrite list_elem_of_fmap.
  setoid_rewrite list_elem_of_filter. split; intros (y & ? & ? & ?); eauto.
Qed.

Lemma classify_stmt_spec (G : env) (s : stmt) (rest : list stmt)
    (tail : option (nat * expr)) (d : finding) :
  d ∈ classify_stmt G s rest tail ↔ stmt_finds G rest tail s d.
Proof.
  unfold classify_stmt. rewrite !elem_of_app, elem_of_undefined_at. split.
  - intros [H|[(y & -> & ? & ?)|[H|H]]].
    + destruct s as [l x [t|] e tm|]; cbn in H; try by apply elem_of_nil in H.
      destruct (type_of G e) as [t'|] eqn:E; [|by apply elem_of_nil in H].
      case_decide; [by apply elem_of_nil in H|].
      apply list_elem_of_singleton in H as ->. by eapply finds_mismatch.
    + by constructor.
    + unfold unterminated in H. destruct rest; [by apply elem_of_nil in H|].
      destruct (is_terminated s) eqn:E; [by apply elem_of_nil in H|].
      apply list_elem_of_singleton in H as ->. by constructor.
    + destruct s as [l x dt e tm|]; cbn in H; [|by apply elem_of_nil in H].
      destruct (used x rest tail) eqn:E; [by apply elem_of_nil in H|].
      apply list_elem_of_singleton in H as ->. constructor.
      rewrite <- used_spec. congruence.
  - destruct 1 as [l x t t' e tm Ht Hne|s y Hy HG|s Ht Hr|l x dt e tm Hu].
    + left. cbn. rewrite Ht, decide_False by done. apply list_elem_of_singleton; done.
    + right; left. eauto.
    + right; right; left. unfold unterminated. destruct rest; [done|].
      rewrite Ht. by apply list_elem_of_singleton.
    + right; right; right. cbn.
      destruct (used x rest tail) eqn:E; [by apply used_spec in E|].
      by apply list_elem_of_singleton.
Qed.

Lemma scope_after_snoc (G : env) (pre : list stmt) (s : stmt) :
  scope_after G (pre ++ [s]) = bind (scope_after G pre) s.
Proof. unfold scope_after. by rewrite foldl_app. Qed.

Lemma classify_tail_spec (G : env) (tail : option (nat * expr)) (d : finding) :
  d ∈ classify_tail G tail ↔
  ∃ l e y, tail = Some (l, e) ∧ d = Finding UndefinedReference l y ∧ y ∈ refs e ∧ G !! y = None.
Proof.
  destruct tail as [[l e]|]; cbn.
  - rewrite elem_of_undefined_at. split.
    + intros (y & ? & ? & ?). by exists l, e, y.
    + intros (? & ? & y & [= <- <-] & ? & ? & ?). by exists y.
  - split; [by intros ?%elem_of_nil | by intros (? & ? & ? & ? & _)].
Qed.

(** The findings of a body from a scope: those of some statement, in the
    scope the statements before it leave, or those of the final
    expression, in the scope the whole body leaves. *)
Lemma classify_body_spec (G : env) (body : list stmt) (tail : option (nat * expr))
    (d : finding) :
  d ∈ classify_body G body tail ↔
  (∃ pre s post, body = pre ++ s :: post ∧ stmt_finds (scope_after G pre) post tail s d)
  ∨ d ∈ classify_tail (scope_after G body) tail.
Proof.
  revert G; induction body as [|s rest IH]; intros G; cbn [classify_body].
  - split; [by right | intros [(pre & ? & ? & E & _)|H]; [by destruct pre | done]].
  - rewrite elem_of_app, classify_stmt_spec, IH. split.
    + intros [H|[(pre & s' & post & -> & H)|H]].
      * left. by exists [], s, rest.
      * left. by exists (s :: pre), s', post.
      * by right.
    + intros [(pre & s' & post & E & H)|H]; [|by right; right].
      destruct pre as [|s0 pre]; simplify_eq/=; [by left|].
      right; left. by exists pre, s', post.
Qed.

(** Soundness: what [classify] reports, a rule allows. *)
Lemma classify_sound (f : fn_item) (d : finding) :
  d ∈ classify (Parsed f) -> finds f d.
Proof.
  cbn [classify]. rewrite elem_of_app, classify_body_spec, classify_tail_spec.
  intros [H|[(pre & s & post & E & H)|(l & e & y & E & -> & ? & ?)]];
    [|by eapply finds_stmt|by eapply finds_tail].
  unfold missing_value in H. destruct (fn_ret f) as [t|] eqn:Er; [|by apply elem_of_nil in H].
  case_decide; [by apply elem_of_nil in H|].
  destruct (produces _ _ t) eqn:Ep; [by apply elem_of_nil in H|].
  apply list_elem_of_singleton in H as ->. by eapply finds_missing.
Qed.

(** Completeness: what a rule allows, [classify] reports. *)
Lemma classify_complete (f : fn_item) (d : finding) :
  finds f d -> d ∈ classify (Parsed f).
Proof.
  cbn [classify]. rewrite elem_of_app, classify_body_spec, classify_tail_spec.
  destruct 1 as [t Er Hne Ep|pre s post d E H|l e y E Hy HG].
  - left. unfold missing_value. rewrite Er, decide_False, Ep by done.
    by apply list_elem_of_singleton.
  - right; left. by exists pre, s, post.
  - right; right. by exists l, e, y.
Qed.

(** C40. [classify] reports a finding of a parsed function exactly when
    a rule of the relation allows it: the executable classifier refines
    the table of triggers. *)
Theorem classify_spec (f : fn_item) (d : finding) :
  d ∈ classify (Parsed f) ↔ finds f d.
Proof. split; [apply classify_sound | apply classify_complete]. Qed.

(** ** Scopes *)

(** A name is unbound after some statements exactly when it was unbound
    before and none of them binds it. *)
Lemma scope_after_None (G : env) (pre : list stmt) (y : string) :
  scope_after G pre !! y = None ↔ G !! y = None ∧ Forall (fun s => binds s ≠ Some y) pre.
Proof.
  revert G; induction pre as [|s pre IH]; intros G; cbn.
  - rewrite Forall_nil. tauto.
  - change (foldl bind (bind G s) pre) with (scope_after (bind G s) pre).
    rewrite IH, Forall_cons. destruct s as [l x d e tm|]; cbn [bind binds].
    + rewrite lookup_insert_None. split; [intros [[??]?] | intros [?[??]]]; repeat split;
        congruence.
    + split; [intros [??] | intros [?[??]]]; auto.
Qed.

(** A later reference is a reference in a later statement or in the
    final expression. *)
Lemma later_ref_refs (x : string) (tail : option (nat * expr)) (rest : list stmt) :
  later_ref x tail rest -> Exists (fun s => x ∈ stmt_refs s) rest ∨ x ∈ tail_refs tail.
Proof.
  induction 1 as [s rest H|s rest _ _ [IH|IH]|H]; auto using Exists_cons_hd, Exists_cons_tl.
Qed.

(** ** The testable properties of the specification

    Each for every parsed function that holds the statement of
    [errors.rs], whatever stands around it. *)

Section Fragments.
Variables (f : fn_item) (pre post : list stmt).

(** A function that declares [let number: i32 = "not a number";]
    anywhere in its body gets a [TypeMismatch] at that line. *)
Theorem classify_let_number :
  fn_body f = pre ++ let_number :: post ->
  Finding TypeMismatch 4 "number" ∈ classify (Parsed f).
Proof.
  intros E. apply classify_complete. eapply finds_stmt; [done|]. by eapply finds_mismatch.
Qed.

(** A function that prints [undefined_var] with no binding of the
    name before gets an [UndefinedReference] at that line. *)
Theorem classify_undefined_var :
  fn_body f = pre ++ println_undefined_var :: post ->
  Forall (fun s => binds s ≠ Some "undefined_var") pre ->
  Finding UndefinedReference 8 "undefined_var" ∈ classify (Parsed f).
Proof.
  intros E H. apply classify_complete. eapply finds_stmt; [done|].
  apply (finds_undefined _ _ _ println_undefined_var).
  - apply list_elem_of_here.
  - by apply scope_after_None.
Qed.

(** A function in which [let x = 5] without its semicolon is
    followed by [let y = 10;] gets a [SyntaxError] at the line of the
    first. *)
Theorem classify_let_x_let_y :
  fn_body f = pre ++ let_x :: let_y :: post ->
  Finding SyntaxError 12 "" ∈ classify (Parsed f).
Proof.
  intros E. apply classify_complete. eapply finds_stmt; [done|].
  by apply (finds_unterminated _ _ _ let_x).
Qed.

(** A function that declares [let unused = 42;] and does not refer
    to the name afterwards gets an [UnusedBinding] at that line. *)
Theorem classify_let_unused :
  fn_body f = pre ++ let_unused :: post ->
  Forall (fun s => "unused" ∉ stmt_refs s) post ->
  "unused" ∉ tail_refs (fn_tail f) ->
  Finding UnusedBinding 17 "unused" ∈ classify (Parsed f).
Proof.
  intros E Hp Ht. apply classify_complete. eapply finds_stmt; [done|].
  apply finds_unused. intros [H|H]%later_ref_refs; [|done].
  apply Exists_exists in H as (s & Hs & Hx). rewrite Forall_forall in Hp. by eapply Hp.
Qed.

End Fragments.


(** ** Source order *)

(** The lines of a function, top to bottom: its signature, its
    statements, its final expression. *)
Definition body_lines (body : list stmt) (tail : option (nat * expr)) : list nat :=
  (stmt_line <$> body) ++ from_option (fun t => [fst t]) [] tail.

Definition fn_lines (f : fn_item) : list nat :=
  fn_line f :: body_lines (fn_body f) (fn_tail f).

Definition locations (ds : list finding) : list nat := location <$> ds.

(** Findings that share a line, before findings that are sorted and not
    above that line, are sorted. *)
Lemma sorted_same_line_app (a : nat) (l1 l2 : list nat) :
  Forall (eq a) l1 -> Forall (le a) l2 -> StronglySorted le l2 ->
  StronglySorted le (l1 ++ l2).
Proof.
  intros H1 H2 H3. induction H1 as [|? l1 <- H1 IH]; [done|].
  cbn. constructor; [done|]. apply Forall_app. split; [|done].
  eapply Forall_impl; [done|]. by intros ? <-.
Qed.

Lemma undefined_at_locations (G : env) (l : nat) (names : list string) :
  Forall (eq l) (locations (undefined_at G l names)).
Proof. unfold locations, undefined_at. rewrite <- list_fmap_compose. by apply Forall_fmap, Forall_true. Qed.

(** The findings of a statement are at its line. *)
Lemma classify_stmt_locations (G : env) (s : stmt) (rest : list stmt)
    (tail : option (nat * expr)) :
  Forall (eq (stmt_line s)) (locations (classify_stmt G s rest tail)).
Proof.
  unfold locations, classify_stmt. rewrite !fmap_app, !Forall_app. repeat split.
  - destruct s as [l x [t|] e tm|]; cbn; try done.
    destruct (type_of G e); [case_decide|]; cbn; by repeat constructor.
  - apply undefined_at_locations.
  - unfold unterminated. destruct rest, (is_terminated s); cbn; by repeat constructor.
  - destruct s as [l x d e tm|]; cbn; [|done].
    destruct (used x rest tail); cbn; by repeat constructor.
Qed.

(** The findings of a body are at lines of the body. *)
Lemma classify_body_lines (G : env) (body : list stmt) (tail : option (nat * expr)) :
  locations (classify_body G body tail) ⊆ body_lines body tail.
Proof.
  revert G; induction body as [|s rest IH]; intros G; cbn [classify_body].
  - destruct tail as [[l e]|]; cbn; [|done].
    intros n Hn. eapply Forall_forall in Hn; [|apply undefined_at_locations]. destruct Hn.
    apply list_elem_of_here.
  - unfold locations. rewrite fmap_app. intros n [Hn|Hn]%elem_of_app.
    + eapply Forall_forall in Hn; [|apply classify_stmt_locations]. destruct Hn.
      apply list_elem_of_here.
    + apply list_elem_of_further. by eapply (IH _ n).
Qed.

Lemma classify_body_sorted (G : env) (body : list stmt) (tail : option (nat * expr)) :
  StronglySorted le (body_lines body tail) ->
  StronglySorted le (locations (classify_body G body tail)).
Proof.
  revert G; induction body as [|s rest IH]; intros G; cbn [classify_body].
  - intros _. destruct tail as [[l e]|]; cbn; [|constructor].
    rewrite <- (app_nil_r (locations _)).
    apply (sorted_same_line_app l); [apply undefined_at_locations|done|constructor].
  - intros [Hs Hle]%StronglySorted_inv. unfold locations. rewrite fmap_app.
    apply (sorted_same_line_app (stmt_line s)); [apply classify_stmt_locations| |by apply IH].
    apply Forall_forall. intros n Hn%classify_body_lines.
    by eapply Forall_forall in Hle.
Qed.

(** Findings come in source order: when the lines of a function
    increase from its signature down, so do the lines of its findings. *)
Theorem classify_sorted (f : fn_item) :
  StronglySorted le (fn_lines f) ->
  StronglySorted le (locations (classify (Parsed f))).
Proof.
  intros [Hs Hle]%StronglySorted_inv. cbn [classify]. unfold locations. rewrite fmap_app.
  apply (sorted_same_line_app (fn_line f)); [| |by apply classify_body_sorted].
  - unfold missing_value. repeat case_match; cbn; by repeat constructor.
  - apply Forall_forall. intros n Hn%classify_body_lines. by eapply Forall_forall in Hle.
Qed.

(** ** [errors.rs] as a whole *)


(** A fragment that could not be tokenized gets one finding and
    classification stops. *)
Lemma classify_untokenizable (offset : nat) :
  classify (Untokenizable offset) = [Finding SyntaxError offset ""].
Proof. reflexivity. Qed.

(** ** The theorems at the functions of [errors.rs] *)

Lemma classify_let_number_witness :
  Finding TypeMismatch 4 "number" ∈ classify (Parsed type_error_example).
Proof. exact (classify_let_number type_error_example [] [] eq_refl). Defined.

Lemma classify_undefined_var_witness :
  Finding UndefinedReference 8 "undefined_var" ∈ classify (Parsed undefined_variable).
Proof.
  exact (classify_undefined_var undefined_variable [] [] eq_refl (Forall_nil_2 _)).
Defined.

Lemma classify_let_x_let_y_witness :
  Finding SyntaxError 12 "" ∈ classify (Parsed missing_semicolon).
Proof. exact (classify_let_x_let_y missing_semicolon [] [] eq_refl). Defined.

Lemma classify_let_unused_witness :
  Finding UnusedBinding 17 "unused" ∈ classify (Parsed unused_variable).
Proof.
  apply (classify_let_unused unused_variable [] []);
    [reflexivity | constructor | apply not_elem_of_nil].
Defined.


Lemma classify_sorted_witness :
  StronglySorted le (locations (classify (Parsed missing_semicolon))).
Proof. apply (classify_sorted missing_semicolon). repeat constructor. Defined.

Lemma classify_spec_witness :
  Finding TypeMismatch 4 "number" ∈ classify (Parsed type_error_example).
Proof.
  apply classify_spec. eapply (finds_stmt _ []); [reflexivity|].
  by eapply finds_mismatch.
Defined.
