(* ===== verification/Output.v ===== *)
(** * Output: what the program prints, end to end

    The composition of the components: [main] as [Program.v] runs it on
    the machine, with the methods of [Methods.v] on references, the
    arithmetic behind the interface of [Float64.v], and the [Display] of
    [Display.v] for the value it prints.  Nothing is left as a parameter:
    the theorem gives the bytes on standard output when [main] returns. *)

From Stdlib Require Import ZArith String.
From stdpp Require Import base option list.
From S2P Require Import Prelude Binary64 Float64 Calculator Greet Main Display Exec Methods Program.

#[local] Open Scope string_scope.
#[local] Open Scope list_scope.

Section EndToEnd.
Context {F : Type} {ops : Float64 F} {ok : Float64Correct F}.

(** C15. The program, end to end: from any state and on every correct
    implementation of the arithmetic, [main] returns without a panic,
    leaves no local behind, and has appended to standard output exactly
    the lines ["Calculator result: 7"] and ["Hello, Rust MCP!"]. *)
Theorem main_fn_prints (s : state F) :
  main_fn (fun x : F => display_f64 (to_spec x)) s
  = Returned tt (State (locals s)
      (stdout s ++ bytes "Calculator result: 7" ++ [newline]
                ++ bytes "Hello, Rust MCP!" ++ [newline])).
Proof. now rewrite main_fn_runs, main_display. Qed.

End EndToEnd.

(** On the IEEE model, from the state of a program that starts. *)
Lemma main_fn_prints_witness :
  main_fn (F := b64) display_f64 (State [] [])
  = Returned tt (State []
      ([] ++ bytes "Calculator result: 7" ++ [newline] ++ bytes "Hello, Rust MCP!" ++ [newline])).
Proof. exact (main_fn_prints (ok := Float64Correct_b64) (State [] [])). Defined.
